(** * vscode-kanbn: board paths, file-system adapters, instance manager, edits

    A shallow embedding of the parts of the extension that decide how an
    open editor reaches its board:

    - [ext-src/pathUtils.ts]: [resolveBoardPath];
    - the three versions of [VscodeFileSystemAdapter] (one live document
      with disk writes, one live document over an in-memory file table,
      several live documents with disk writes);
    - [KanbnGlobalManager]: one task store and one adapter per board path;
    - [makeEdit] of the board and task documents.

    Conventions.  A JavaScript string is a [string]; text outside ASCII is
    carried as its UTF-8 bytes, which leaves every search for ['/'], ['.'],
    ['~'] and the backslash unchanged.  Indices are [Z], as the sources use
    [-1] for "not found".  A promise that rejects and a [throw] are both
    [Throw]; [await] is sequencing: one operation runs to its end before
    the next starts.  Objects that are compared by identity (adapters, task
    stores) live in a store indexed by allocation number. *)

From Stdlib Require Import ZArith Lia Bool.
From stdpp Require Import base option list gmap strings.

Local Open Scope Z_scope.

(** ** Thrown values and outcomes *)

(** What a [catch] clause can receive: an [Error] object (with the optional
    [code] that Node's system errors carry) or any other thrown value. *)
Inductive thrown :=
| ErrorObject (code : option string) (message : string)
| OtherValue (description : string).

(** [new Error(message)] *)
Definition new_Error (message : string) : thrown := ErrorObject None message.

(** [e instanceof Error] *)
Definition instanceof_Error (e : thrown) : bool :=
  match e with ErrorObject _ _ => true | OtherValue _ => false end.

(** [(error as any).code], [undefined] being [None] *)
Definition error_code (e : thrown) : option string :=
  match e with ErrorObject c _ => c | OtherValue _ => None end.

Inductive outcome (A : Type) :=
| Return (a : A)
| Throw (e : thrown).
Arguments Return {A} a.
Arguments Throw {A} e.

(** ** JavaScript string operations *)

Module Js.

Definition length (s : string) : Z := Z.of_nat (String.length s).

Definition char (n : nat) : Ascii.ascii := Ascii.ascii_of_nat n.

Definition slash : Ascii.ascii := char 47.
Definition dot : Ascii.ascii := char 46.
Definition backslash : Ascii.ascii := char 92.
Definition tilde : Ascii.ascii := char 126.
Definition dquote : Ascii.ascii := char 34.

Definition str (c : Ascii.ascii) : string := String c EmptyString.

(** [s.charCodeAt(i)], [NaN] being [None] *)
Definition charCodeAt (s : string) (i : Z) : option Ascii.ascii :=
  if i <? 0 then None else String.get (Z.to_nat i) s.

(** An index argument of [slice], clamped as ECMAScript does. *)
Definition relative_index (len k : Z) : Z :=
  if k <? 0 then Z.max (len + k) 0 else Z.min k len.

(** [s.slice(from, to)] *)
Definition slice (s : string) (from to : Z) : string :=
  let len := length s in
  let a := relative_index len from in
  let b := relative_index len to in
  String.substring (Z.to_nat a) (Z.to_nat (Z.max (b - a) 0)) s.

(** [s.slice(from)] *)
Definition slice_from (s : string) (from : Z) : string :=
  slice s from (length s).

(** [s.substring(from, to)]: negative arguments count as [0], and the two
    are swapped when out of order. *)
Definition substring (s : string) (from to : Z) : string :=
  let len := length s in
  let a := Z.min (Z.max from 0) len in
  let b := Z.min (Z.max to 0) len in
  String.substring (Z.to_nat (Z.min a b)) (Z.to_nat (Z.max a b - Z.min a b)) s.

Definition substring_from (s : string) (from : Z) : string :=
  substring s from (length s).

(** [s.lastIndexOf(c)] for a one-character [c] *)
Fixpoint lastIndexOf (s : string) (c : Ascii.ascii) : Z :=
  match s with
  | EmptyString => -1
  | String a r =>
      let k := lastIndexOf r c in
      if k =? -1 then (if Ascii.eqb a c then 0 else -1) else k + 1
  end.

(** [s.startsWith(p)] *)
Definition startsWith (s p : string) : bool := String.prefix p s.

Fixpoint rev_onto (s acc : string) : string :=
  match s with
  | EmptyString => acc
  | String a r => rev_onto r (String a acc)
  end.

Definition rev (s : string) : string := rev_onto s EmptyString.

(** [s.endsWith(p)] *)
Definition endsWith (s p : string) : bool := String.prefix (rev p) (rev s).

(** [s.replace(/\\/g, '/')] *)
Fixpoint replace_backslashes (s : string) : string :=
  match s with
  | EmptyString => EmptyString
  | String a r =>
      String (if Ascii.eqb a backslash then slash else a) (replace_backslashes r)
  end.

(** White space and line terminators of ECMAScript, which [trim] removes:
    TAB, LF, VT, FF, CR, SP as single bytes; U+00A0 as two bytes; U+1680,
    U+2000..U+200A, U+2028, U+2029, U+202F, U+205F, U+3000 and U+FEFF as
    three bytes. *)
Definition is_byte (a : Ascii.ascii) (n : nat) : bool := Ascii.eqb a (char n).

Definition ws1 (a : Ascii.ascii) : bool :=
  is_byte a 9 || is_byte a 10 || is_byte a 11 || is_byte a 12 || is_byte a 13 || is_byte a 32.

Definition ws2 (a b : Ascii.ascii) : bool := is_byte a 194 && is_byte b 160.

Definition ws3 (a b c : Ascii.ascii) : bool :=
  is_byte a 225 && is_byte b 154 && is_byte c 128
  || is_byte a 226 && is_byte b 128
     && ((128 <=? Ascii.nat_of_ascii c)%nat && (Ascii.nat_of_ascii c <=? 138)%nat
         || is_byte c 168 || is_byte c 169 || is_byte c 175)
  || is_byte a 226 && is_byte b 129 && is_byte c 159
  || is_byte a 227 && is_byte b 128 && is_byte c 128
  || is_byte a 239 && is_byte b 187 && is_byte c 191.

(** [s.trimStart()] *)
Fixpoint trimStart (s : string) : string :=
  match s with
  | EmptyString => EmptyString
  | String a r =>
      if ws1 a then trimStart r
      else match r with
           | String b r2 =>
               if ws2 a b then trimStart r2
               else match r2 with
                    | String c r3 => if ws3 a b c then trimStart r3 else s
                    | EmptyString => s
                    end
           | EmptyString => s
           end
  end.

(** The same scan over the reversed string: the bytes of one character
    arrive last byte first. *)
Fixpoint trimStart_rev (s : string) : string :=
  match s with
  | EmptyString => EmptyString
  | String a r =>
      if ws1 a then trimStart_rev r
      else match r with
           | String b r2 =>
               if ws2 b a then trimStart_rev r2
               else match r2 with
                    | String c r3 => if ws3 c b a then trimStart_rev r3 else s
                    | EmptyString => s
                    end
           | EmptyString => s
           end
  end.

(** [s.trimEnd()] *)
Definition trimEnd (s : string) : string := rev (trimStart_rev (rev s)).

(** [s.trim()] *)
Definition trim (s : string) : string := trimEnd (trimStart s).

(** [!s] for a string: only the empty string is falsy. *)
Definition falsy (s : string) : bool := String.eqb s EmptyString.

End Js.

(** ** Node's [path] module, POSIX flavour *)

Module Posix.

(** [isPosixPathSeparator] *)
Definition isPathSeparator (code : Ascii.ascii) : bool := Ascii.eqb code Js.slash.

(** The mutable locals of [normalizeString]. *)
Record locals := Locals {
  res : string;
  lastSegmentLength : Z;
  lastSlash : Z;
  dots : Z
}.

Definition is_dot_at (s : string) (i : Z) : bool :=
  match Js.charCodeAt s i with
  | Some a => Ascii.eqb a Js.dot
  | None => false
  end.

(** One turn of the [for] loop of [normalizeString], once [code] is known;
    [i] is the loop index.  The two [continue] statements set [lastSlash]
    and [dots] themselves, as the fall-through path does. *)
Definition normalizeString_body (path : string) (allowAboveRoot : bool)
    (i : Z) (code : Ascii.ascii) (st : locals) : locals :=
  if isPathSeparator code then
    if (lastSlash st =? i - 1) || (dots st =? 1) then
      Locals (res st) (lastSegmentLength st) i 0
    else if dots st =? 2 then
      let above :=
        if allowAboveRoot then
          Locals (if 0 <? Js.length (res st) then res st +:+ "/.." else "..") 2 i 0
        else Locals (res st) (lastSegmentLength st) i 0 in
      if (Js.length (res st) <? 2)
         || negb (lastSegmentLength st =? 2)
         || negb (is_dot_at (res st) (Js.length (res st) - 1))
         || negb (is_dot_at (res st) (Js.length (res st) - 2))
      then
        if 2 <? Js.length (res st) then
          let lastSlashIndex := Js.lastIndexOf (res st) Js.slash in
          if lastSlashIndex =? -1 then Locals "" 0 i 0
          else
            let res' := Js.slice (res st) 0 lastSlashIndex in
            Locals res' (Js.length res' - 1 - Js.lastIndexOf res' Js.slash) i 0
        else if negb (Js.length (res st) =? 0) then Locals "" 0 i 0
        else above
      else above
    else
      let segment := Js.slice path (lastSlash st + 1) i in
      Locals (if 0 <? Js.length (res st) then res st +:+ "/" +:+ segment else segment)
             (i - lastSlash st - 1) i 0
  else if Ascii.eqb code Js.dot && negb (dots st =? -1) then
    Locals (res st) (lastSegmentLength st) (lastSlash st) (dots st + 1)
  else
    Locals (res st) (lastSegmentLength st) (lastSlash st) (-1).

(** The loop [for (i = 0; i <= path.length; ++i)]: [rest] is what of [path]
    lies at and after index [i], [code] the character read in the turn
    before.  At [i = path.length] the loop stops if the last character was
    a separator, and otherwise runs one more turn on a separator. *)
Fixpoint normalizeString_loop (path : string) (allowAboveRoot : bool)
    (rest : string) (i : Z) (code : Ascii.ascii) (st : locals) : string :=
  match rest with
  | String c rest' =>
      normalizeString_loop path allowAboveRoot rest' (i + 1) c
        (normalizeString_body path allowAboveRoot i c st)
  | EmptyString =>
      if isPathSeparator code then res st
      else res (normalizeString_body path allowAboveRoot i Js.slash st)
  end.

Definition normalizeString (path : string) (allowAboveRoot : bool) : string :=
  normalizeString_loop path allowAboveRoot path 0 (Js.char 0) (Locals "" 0 (-1) 0).

(** [path.posix.isAbsolute] *)
Definition isAbsolute (path : string) : bool :=
  match path with
  | String c _ => Ascii.eqb c Js.slash
  | EmptyString => false
  end.

(** [path.posix.normalize] *)
Definition normalize (path : string) : string :=
  if Js.length path =? 0 then "."
  else
    let isAbs := isAbsolute path in
    let trailingSeparator :=
      match Js.charCodeAt path (Js.length path - 1) with
      | Some c => Ascii.eqb c Js.slash
      | None => false
      end in
    let p := normalizeString path (negb isAbs) in
    if Js.length p =? 0 then
      if isAbs then "/" else if trailingSeparator then "./" else "."
    else
      let p := if trailingSeparator then p +:+ "/" else p in
      if isAbs then "/" +:+ p else p.

(** The accumulation loop of [path.posix.join]; [None] is [undefined]. *)
Fixpoint join_loop (args : list string) (joined : option string) : option string :=
  match args with
  | [] => joined
  | arg :: args' =>
      join_loop args'
        (if 0 <? Js.length arg then
           match joined with
           | None => Some arg
           | Some j => Some (j +:+ "/" +:+ arg)
           end
         else joined)
  end.

(** [path.posix.join] *)
Definition join (args : list string) : string :=
  match args with
  | [] => "."
  | _ =>
      match join_loop args None with
      | None => "."
      | Some joined => normalize joined
      end
  end.

(** The loop of [path.posix.resolve], from the last argument down to the
    working directory: [pending] lists the arguments still to visit, last
    first, with the working directory at its end. *)
Fixpoint resolve_loop (pending : list string) (resolvedPath : string) : string * bool :=
  match pending with
  | [] => (resolvedPath, false)
  | p :: pending' =>
      if Js.length p =? 0 then resolve_loop pending' resolvedPath
      else
        let resolvedPath' := p +:+ "/" +:+ resolvedPath in
        if isAbsolute p then (resolvedPath', true)
        else resolve_loop pending' resolvedPath'
  end.

(** [path.posix.resolve]; [cwd] is [process.cwd()]. *)
Definition resolve (cwd : string) (args : list string) : string :=
  let '(resolvedPath, resolvedAbsolute) := resolve_loop (reverse args ++ [cwd]) "" in
  let p := normalizeString resolvedPath (negb resolvedAbsolute) in
  if resolvedAbsolute then "/" +:+ p
  else if 0 <? Js.length p then p else ".".

(** [path.charCodeAt(i) === CHAR_FORWARD_SLASH] *)
Definition is_slash_at (path : string) (i : Z) : bool :=
  match Js.charCodeAt path i with
  | Some a => Ascii.eqb a Js.slash
  | None => false
  end.

(** The loop of [path.posix.dirname],
    [for (i = path.length - 1; i >= 1; --i)], about to read index [i]; its
    result is [end]. *)
Fixpoint dirname_loop (path : string) (i : nat) (matchedSlash : bool) : Z :=
  match i with
  | O => -1
  | S i' =>
      if is_slash_at path (Z.of_nat i) then
        if negb matchedSlash then Z.of_nat i
        else dirname_loop path i' matchedSlash
      else dirname_loop path i' false
  end.

(** [path.posix.dirname] *)
Definition dirname (path : string) : string :=
  if Js.length path =? 0 then "."
  else
    let hasRoot := is_slash_at path 0 in
    let end_ := dirname_loop path (String.length path - 1) true in
    if end_ =? -1 then (if hasRoot then "/" else ".")
    else if hasRoot && (end_ =? 1) then "//"
    else Js.slice path 0 end_.

(** The loop of [path.posix.basename] without a suffix,
    [for (i = path.length - 1; i >= 0; --i)], about to read index [n - 1];
    its result is [(start, end)]. *)
Fixpoint basename_loop (path : string) (n : nat) (end_ : Z) (matchedSlash : bool)
  : Z * Z :=
  match n with
  | O => (0, end_)
  | S i =>
      if is_slash_at path (Z.of_nat i) then
        if negb matchedSlash then (Z.of_nat i + 1, end_)
        else basename_loop path i end_ matchedSlash
      else if end_ =? -1 then basename_loop path i (Z.of_nat i + 1) false
      else basename_loop path i end_ matchedSlash
  end.

(** [path.posix.basename(path)] *)
Definition basename (path : string) : string :=
  let '(start, end_) := basename_loop path (String.length path) (-1) true in
  if end_ =? -1 then "" else Js.slice path start end_.

End Posix.

(** ** The platform interfaces the sources import *)

(** [import * as path from 'path'] *)
Class PathApi := {
  path_normalize : string → string;
  path_join : list string → string;
  path_resolve : list string → string;
  path_isAbsolute : string → bool
}.

(** [import * as os from 'os'] *)
Class OsApi := {
  os_homedir : string
}.

(** Node on a POSIX system whose working directory is [cwd]. *)
Definition posix_path (cwd : string) : PathApi := {|
  path_normalize := Posix.normalize;
  path_join := Posix.join;
  path_resolve := Posix.resolve cwd;
  path_isAbsolute := Posix.isAbsolute
|}.

Definition home_at (dir : string) : OsApi := {| os_homedir := dir |}.

(** [path.dirname] and [path.basename] *)
Class PathParts := {
  path_dirname : string → string;
  path_basename : string → string
}.

Definition posix_parts : PathParts := {|
  path_dirname := Posix.dirname;
  path_basename := Posix.basename
|}.

(** [vscode.Uri.file(path).fsPath] *)
Class VscodeUri := {
  Uri_file_fsPath : string → string
}.

(** The [fsPath] of the file URIs of the sample runs.  On a POSIX system
    [Uri.file(path).fsPath] is [path] itself for an absolute path that
    starts neither with two separators nor with a drive letter; it is
    another string for [/c:/...] (the leading separator is dropped and the
    letter put in lower case), for a relative path and for [//...].  The
    theorems are stated for any [VscodeUri]; this one only serves to run
    them on paths below [/ws] and [/work]. *)
Definition posix_uri : VscodeUri := {| Uri_file_fsPath := λ path, path |}.

(** ** [ext-src/pathUtils.ts] *)

Module PathUtils.

Section WithPlatform.
Context `{PathApi} `{OsApi}.

Definition relative_path_message (boardPath : string) : string :=
  "Relative path " +:+ Js.str Js.dquote +:+ boardPath +:+ Js.str Js.dquote
  +:+ " cannot be used in global settings. "
  +:+ "Use an absolute path or ~/ for home directory.".

Definition resolveBoardPath (boardPath : string) (basePath : option string)
  : outcome string :=
  if Js.falsy boardPath || String.eqb (Js.trim boardPath) "" then
    match basePath with
    | Some base => if negb (Js.falsy base) then Return base
                   else Throw (new_Error "Empty path provided")
    | None => Throw (new_Error "Empty path provided")
    end
  else
    let expandedPath :=
      if Js.startsWith boardPath "~"
      then path_join [os_homedir; Js.slice_from boardPath 1]
      else boardPath in
    if path_isAbsolute expandedPath then Return (path_normalize expandedPath)
    else
      match basePath with
      | None => Throw (new_Error (relative_path_message boardPath))
      | Some base => Return (path_normalize (path_resolve [base; expandedPath]))
      end.

End WithPlatform.

End PathUtils.


(** ** The editor host: open documents and the real file system *)

(** [TextEncoder.encode] and [TextDecoder.decode] *)
Class TextCodec := {
  TextEncoder_encode : string → list Byte.byte;
  TextDecoder_decode : list Byte.byte → string
}.

(** [{ recursive?: boolean }] *)
Definition mkdir_options := option bool.

(** [fs.promises] and [glob-promise], over an abstract disk. *)
Class RealFs := {
  disk : Type;
  fs_access : string → Z → disk → outcome unit;
  fs_readFile : string → disk → outcome string;
  fs_writeFile : string → string → disk → outcome unit * disk;
  fs_mkdir : string → option mkdir_options → disk → outcome unit * disk;
  fs_rename : string → string → disk → outcome unit * disk;
  fs_unlink : string → disk → outcome unit * disk;
  glob_promise : string → disk → outcome (list string)
}.

(** A call into the real file system, as recorded by the host. *)
Inductive fs_call :=
| CallAccess (path : string) (mode : Z)
| CallReadFile (path : string)
| CallWriteFile (path data : string)
| CallMkdir (path : string) (options : option mkdir_options)
| CallRename (oldPath newPath : string)
| CallUnlink (path : string)
| CallGlob (pattern : string).

(** What an adapter can reach outside itself: the byte buffer
    ([_documentData]) of every open document, by allocation number of the
    document object, the disk, and the calls made to the disk so far. *)
Record host `{RealFs} := Host {
  buffers : gmap nat (list Byte.byte);
  the_disk : disk;
  disk_calls : list fs_call
}.
Arguments Host {_} _ _ _.

(** A [getDocumentContent] closure: the two the sources pass, and any
    other function of the open documents. *)
Inductive getter :=
| decode_document (document : nat)
    (* [() => new TextDecoder().decode(this._documentData)] *)
| empty_getter
    (* [() => ""], of [getKanbnForBoard] *)
| other_getter (read : gmap nat (list Byte.byte) → string).

(** A [setDocumentContent] closure, likewise. *)
Inductive setter :=
| encode_into_document (document : nat)
    (* [(content) => { this._documentData = new TextEncoder().encode(content) }] *)
| ignore_setter
    (* [() => {}], of [getKanbnForBoard] *)
| other_setter (write : string → gmap nat (list Byte.byte) → gmap nat (list Byte.byte)).

(** Computations that may throw, over a state [S]. *)
Definition prog (S A : Type) : Type := S → outcome A * S.

Definition ret {S A} (a : A) : prog S A := λ s, (Return a, s).

Definition throw {S A} (e : thrown) : prog S A := λ s, (Throw e, s).

Definition bind {S A B} (m : prog S A) (k : A → prog S B) : prog S B :=
  λ s, match m s with
       | (Return a, s') => k a s'
       | (Throw e, s') => (Throw e, s')
       end.

(** [try { m } catch (error) { handler(error) }] *)
Definition try_catch {S A} (m : prog S A) (handler : thrown → prog S A) : prog S A :=
  λ s, match m s with
       | (Return a, s') => (Return a, s')
       | (Throw e, s') => handler e s'
       end.

#[global] Instance prog_ret {S} : MRet (prog S) := λ A, @ret S A.
#[global] Instance prog_bind {S} : MBind (prog S) := λ A B k m, @bind S A B m k.

Section Host.
Context `{TextCodec} `{RealFs}.

Definition call_getter (g : getter) (h : host) : string :=
  match g with
  | decode_document d => TextDecoder_decode (buffers h !!! d)
  | empty_getter => ""
  | other_getter read => read (buffers h)
  end.

Definition call_setter (s : setter) (content : string) (h : host) : host :=
  match s with
  | encode_into_document d =>
      Host (<[d := TextEncoder_encode content]> (buffers h)) (the_disk h) (disk_calls h)
  | ignore_setter => h
  | other_setter write => Host (write content (buffers h)) (the_disk h) (disk_calls h)
  end.

Definition get_content (g : getter) : prog host string :=
  λ h, (Return (call_getter g h), h).

Definition set_content (s : setter) (content : string) : prog host unit :=
  λ h, (Return tt, call_setter s content h).

Definition logged (c : fs_call) (d : disk) (h : host) : host :=
  Host (buffers h) d (disk_calls h ++ [c]).

Definition real_access (path : string) (mode : Z) : prog host unit :=
  λ h, (fs_access path mode (the_disk h), logged (CallAccess path mode) (the_disk h) h).

Definition real_readFile (path : string) : prog host string :=
  λ h, (fs_readFile path (the_disk h), logged (CallReadFile path) (the_disk h) h).

Definition real_writeFile (path data : string) : prog host unit :=
  λ h, let '(r, d) := fs_writeFile path data (the_disk h) in
       (r, logged (CallWriteFile path data) d h).

Definition real_mkdir (path : string) (options : option mkdir_options) : prog host unit :=
  λ h, let '(r, d) := fs_mkdir path options (the_disk h) in
       (r, logged (CallMkdir path options) d h).

Definition real_rename (oldPath newPath : string) : prog host unit :=
  λ h, let '(r, d) := fs_rename oldPath newPath (the_disk h) in
       (r, logged (CallRename oldPath newPath) d h).

Definition real_unlink (path : string) : prog host unit :=
  λ h, let '(r, d) := fs_unlink path (the_disk h) in
       (r, logged (CallUnlink path) d h).

Definition real_glob (pattern : string) : prog host (list string) :=
  λ h, (glob_promise pattern (the_disk h), logged (CallGlob pattern) (the_disk h) h).

(** [mode || (fs.constants.R_OK | fs.constants.W_OK)] *)
Definition access_mode (mode : option Z) : Z :=
  match mode with
  | Some m => if m =? 0 then 6 else m
  | None => 6
  end.

Definition enoent (operation filePath : string) : thrown :=
  new_Error ("ENOENT: no such file or directory, " +:+ operation +:+ " '" +:+ filePath +:+ "'").

Definition enoent_rename (oldPath newPath : string) : thrown :=
  new_Error ("ENOENT: no such file or directory, rename '" +:+ oldPath
             +:+ "' -> '" +:+ newPath +:+ "'").

End Host.

(** ** A [Map] that is iterated: insertion order is kept *)

Module OrderedMap.

Definition t (V : Type) : Type := list (string * V).

Fixpoint get {V} (m : t V) (key : string) : option V :=
  match m with
  | [] => None
  | (k, v) :: m' => if String.eqb k key then Some v else get m' key
  end.

Definition has {V} (m : t V) (key : string) : bool :=
  match get m key with Some _ => true | None => false end.

(** [set] keeps the place of a key that is already present. *)
Fixpoint set {V} (m : t V) (key : string) (value : V) : t V :=
  match m with
  | [] => [(key, value)]
  | (k, v) :: m' =>
      if String.eqb k key then (key, value) :: m' else (k, v) :: set m' key value
  end.

Fixpoint delete {V} (m : t V) (key : string) : t V :=
  match m with
  | [] => []
  | (k, v) :: m' =>
      if String.eqb k key then delete m' key else (k, v) :: delete m' key
  end.

Definition keys {V} (m : t V) : list string := m.*1.

End OrderedMap.

(** ** [src/VscodeFileSystemAdapter.ts]: one live document, disk writes *)

Module DiskAdapter.

Record t := Adapter {
  documentUri : string;             (* [documentUri.fsPath] *)
  getDocumentContent : getter;
  setDocumentContent : setter;
  fileContentMap : gmap string string;
  fileExistsMap : gmap string bool
}.

Definition constructor (documentUri : string) (g : getter) (s : setter) : t :=
  Adapter documentUri g s ∅ ∅.

Section Methods.
Context `{PathApi} `{TextCodec} `{RealFs}.

Definition normalizePath (filePath : string) : string :=
  Js.replace_backslashes (path_normalize filePath).

Definition isMainIndexFile (this : t) (normalizedPath : string) : bool :=
  String.eqb normalizedPath (normalizePath (documentUri this)).

Definition access (this : t) (filePath : string) (mode : option Z) : prog host unit :=
  let normalizedPath := normalizePath filePath in
  if isMainIndexFile this normalizedPath then ret tt
  else
    match fileExistsMap this !! normalizedPath with
    | Some exists_ => if negb exists_ then throw (enoent "access" filePath) else ret tt
    | None =>
        try_catch (real_access filePath (access_mode mode))
                  (λ _, throw (enoent "access" filePath))
    end.

Definition readFile (this : t) (filePath : string) : prog host string :=
  let normalizedPath := normalizePath filePath in
  if isMainIndexFile this normalizedPath then get_content (getDocumentContent this)
  else
    match fileContentMap this !! normalizedPath with
    | Some content => ret content
    | None =>
        try_catch (real_readFile filePath) (λ _, throw (enoent "open" filePath))
    end.

Definition writeFile (this : t) (filePath data : string) : prog host unit :=
  let normalizedPath := normalizePath filePath in
  if isMainIndexFile this normalizedPath then set_content (setDocumentContent this) data
  else try_catch (real_writeFile filePath data) (λ error, throw error).

Definition mkdir (this : t) (dirPath : string) (options : option mkdir_options)
  : prog host unit :=
  try_catch (real_mkdir dirPath options)
    (λ error, if negb (bool_decide (error_code error = Some "EEXIST"))
              then throw error else ret tt).

Definition rename (this : t) (oldPath newPath : string) : prog host unit :=
  try_catch (real_rename oldPath newPath)
    (λ _, throw (enoent_rename oldPath newPath)).

Definition unlink (this : t) (filePath : string) : prog host unit :=
  try_catch (real_unlink filePath)
    (λ error, if negb (bool_decide (error_code error = Some "ENOENT"))
              then throw error else ret tt).

Definition glob (this : t) (pattern : string) : prog host (list string) :=
  try_catch (real_glob pattern) (λ _, ret []).

End Methods.

End DiskAdapter.

(** ** The adapter over an in-memory file table: one live document, every
    other write kept in [fileContentMap] *)

Module VirtualAdapter.

Record t := Adapter {
  documentUri : string;
  getDocumentContent : getter;
  setDocumentContent : setter;
  fileContentMap : OrderedMap.t string;
  fileExistsMap : gmap string bool;
  fired : list string               (* [onDidChangeEmitter.fire(Uri.file(p))], oldest first *)
}.

Definition constructor (documentUri : string) (g : getter) (s : setter) : t :=
  Adapter documentUri g s [] ∅ [].

(** The method calls a task store makes on its file system. *)
Inductive call :=
| Access (filePath : string) (mode : option Z)
| ReadFile (filePath : string)
| WriteFile (filePath data : string)
| Mkdir (dirPath : string) (options : option mkdir_options)
| Rename (oldPath newPath : string)
| Unlink (filePath : string)
| Glob (pattern : string).

Section Methods.
Context `{PathApi} `{TextCodec} `{RealFs}.

Definition normalizePath (filePath : string) : string :=
  Js.replace_backslashes (path_normalize filePath).

Definition isMainIndexFile (this : t) (normalizedPath : string) : bool :=
  String.eqb normalizedPath (normalizePath (documentUri this)).

(** A method that leaves the adapter as it is. *)
Definition on_host {A} (m : prog host A) : prog (t * host) A :=
  λ '(this, h), let '(r, h') := m h in (r, (this, h')).

Definition update (f : t → t) : prog (t * host) unit :=
  λ '(this, h), (Return tt, (f this, h)).

Definition access (filePath : string) (mode : option Z) : prog (t * host) unit :=
  λ '(this, h),
  let normalizedPath := normalizePath filePath in
  (if isMainIndexFile this normalizedPath then ret tt
   else
     match fileExistsMap this !! normalizedPath with
     | Some exists_ => if negb exists_ then throw (enoent "access" filePath) else ret tt
     | None =>
         on_host (try_catch (real_access filePath (access_mode mode))
                            (λ _, throw (enoent "access" filePath)))
     end) (this, h).

Definition readFile (filePath : string) : prog (t * host) string :=
  λ '(this, h),
  let normalizedPath := normalizePath filePath in
  (if isMainIndexFile this normalizedPath
   then on_host (get_content (getDocumentContent this))
   else if OrderedMap.has (fileContentMap this) normalizedPath
   then ret (default "" (OrderedMap.get (fileContentMap this) normalizedPath))
   else on_host (try_catch (real_readFile filePath)
                           (λ _, throw (enoent "open" filePath)))) (this, h).

Definition writeFile (filePath data : string) : prog (t * host) unit :=
  λ '(this, h),
  let normalizedPath := normalizePath filePath in
  (if isMainIndexFile this normalizedPath
   then on_host (set_content (setDocumentContent this) data)
   else update (λ this,
          Adapter (documentUri this) (getDocumentContent this) (setDocumentContent this)
                  (OrderedMap.set (fileContentMap this) normalizedPath data)
                  (<[normalizedPath := true]> (fileExistsMap this))
                  (fired this ++ [filePath]))) (this, h).

Definition mkdir (dirPath : string) (options : option mkdir_options)
  : prog (t * host) unit :=
  let normalizedPath := normalizePath dirPath in
  update (λ this,
    Adapter (documentUri this) (getDocumentContent this) (setDocumentContent this)
            (fileContentMap this)
            (<[normalizedPath := true]> (fileExistsMap this))
            (fired this)).

Definition rename (oldPath newPath : string) : prog (t * host) unit :=
  λ '(this, h),
  let normalizedOldPath := normalizePath oldPath in
  let normalizedNewPath := normalizePath newPath in
  match OrderedMap.get (fileContentMap this) normalizedOldPath with
  | None => (Throw (enoent_rename oldPath newPath), (this, h))
  | Some content =>
      (Return tt,
       (Adapter (documentUri this) (getDocumentContent this) (setDocumentContent this)
          (OrderedMap.delete
             (OrderedMap.set (fileContentMap this) normalizedNewPath content)
             normalizedOldPath)
          (delete normalizedOldPath (<[normalizedNewPath := true]> (fileExistsMap this)))
          (fired this ++ [newPath]), h))
  end.

Definition unlink (filePath : string) : prog (t * host) unit :=
  let normalizedPath := normalizePath filePath in
  update (λ this,
    Adapter (documentUri this) (getDocumentContent this) (setDocumentContent this)
            (OrderedMap.delete (fileContentMap this) normalizedPath)
            (delete normalizedPath (fileExistsMap this))
            (fired this ++ [filePath])).

(** The first loop of [glob]: the keys of [fileContentMap], in iteration
    order, that pass the two string tests. *)
Definition virtual_matches (this : t) (directory : string) : list string :=
  filter (λ filePath,
            Js.startsWith filePath (normalizePath directory) = true
            ∧ Js.endsWith filePath ".md" = true)
         (OrderedMap.keys (fileContentMap this)).

(** The second loop: real files whose normalized path is no key. *)
Definition unshadowed (this : t) (realFiles : list string) : list string :=
  filter (λ realFile,
            OrderedMap.has (fileContentMap this) (normalizePath realFile) = false)
         realFiles.

Definition glob (pattern : string) : prog (t * host) (list string) :=
  λ '(this, h),
  let lastSlash := Js.lastIndexOf pattern Js.slash in
  let directory := Js.substring pattern 0 lastSlash in
  let filePattern := Js.substring_from pattern (lastSlash + 1) in
  let results :=
    if String.eqb filePattern "*.md" then virtual_matches this directory else [] in
  on_host (try_catch (realFiles ← real_glob pattern;
                      mret (results ++ unshadowed this realFiles))
                     (λ _, ret results)) (this, h).

(** [getVirtualFiles]: a copy of the table. *)
Definition getVirtualFiles (this : t) : OrderedMap.t string := fileContentMap this.

(** The adapter and the host after one method call, whatever it returned
    or threw. *)
Definition after (c : call) (st : t * host) : t * host :=
  match c with
  | Access filePath mode => (access filePath mode st).2
  | ReadFile filePath => (readFile filePath st).2
  | WriteFile filePath data => (writeFile filePath data st).2
  | Mkdir dirPath options => (mkdir dirPath options st).2
  | Rename oldPath newPath => (rename oldPath newPath st).2
  | Unlink filePath => (unlink filePath st).2
  | Glob pattern => (glob pattern st).2
  end.

(** The adapters a program can hold: a new one, and what method calls make
    of it, the host being in any state at each call. *)
Inductive built : t → Prop :=
| built_new documentUri g s : built (constructor documentUri g s)
| built_call c this h : built this → built (after c (this, h)).1.

End Methods.

End VirtualAdapter.

(** ** The adapter for several live documents, disk writes for the rest *)

Module MultiDocAdapter.

Record DocumentCallbacks := Callbacks {
  getContent : getter;
  setContent : setter
}.

Record t := Adapter {
  documentUri : string;
  getDocumentContent : getter;
  setDocumentContent : setter;
  fileContentMap : gmap string string;
  fileExistsMap : gmap string bool;
  documentCallbacks : gmap string DocumentCallbacks
}.

(** The constructor registers the primary document under its [fsPath]. *)
Definition constructor (documentUri : string) (g : getter) (s : setter) : t :=
  Adapter documentUri g s ∅ ∅ (<[documentUri := Callbacks g s]> ∅).

Definition addDocumentCallbacks (this : t) (documentUri : string)
    (g : getter) (s : setter) : t :=
  Adapter (MultiDocAdapter.documentUri this) (getDocumentContent this)
          (setDocumentContent this) (fileContentMap this) (fileExistsMap this)
          (<[documentUri := Callbacks g s]> (documentCallbacks this)).

Definition removeDocumentCallbacks (this : t) (documentUri : string) : t :=
  Adapter (MultiDocAdapter.documentUri this) (getDocumentContent this)
          (setDocumentContent this) (fileContentMap this) (fileExistsMap this)
          (delete documentUri (documentCallbacks this)).

Section Methods.
Context `{PathApi} `{TextCodec} `{RealFs}.

Definition normalizePath (filePath : string) : string :=
  Js.replace_backslashes (path_normalize filePath).

Definition access (this : t) (filePath : string) (mode : option Z) : prog host unit :=
  let normalizedPath := normalizePath filePath in
  match documentCallbacks this !! normalizedPath with
  | Some _ => ret tt
  | None =>
      match fileExistsMap this !! normalizedPath with
      | Some exists_ => if negb exists_ then throw (enoent "access" filePath) else ret tt
      | None =>
          try_catch (real_access filePath (access_mode mode))
                    (λ _, throw (enoent "access" filePath))
      end
  end.

Definition readFile (this : t) (filePath : string) : prog host string :=
  let normalizedPath := normalizePath filePath in
  match documentCallbacks this !! normalizedPath with
  | Some callbacks => get_content (getContent callbacks)
  | None =>
      match fileContentMap this !! normalizedPath with
      | Some content => ret content
      | None =>
          try_catch (real_readFile filePath) (λ _, throw (enoent "open" filePath))
      end
  end.

Definition writeFile (this : t) (filePath data : string) : prog host unit :=
  let normalizedPath := normalizePath filePath in
  match documentCallbacks this !! normalizedPath with
  | Some callbacks => set_content (setContent callbacks) data
  | None => try_catch (real_writeFile filePath data) (λ error, throw error)
  end.

Definition mkdir (this : t) (dirPath : string) (options : option mkdir_options)
  : prog host unit :=
  try_catch (real_mkdir dirPath options)
    (λ error, if negb (bool_decide (error_code error = Some "EEXIST"))
              then throw error else ret tt).

Definition rename (this : t) (oldPath newPath : string) : prog host unit :=
  try_catch (real_rename oldPath newPath)
    (λ _, throw (enoent_rename oldPath newPath)).

Definition unlink (this : t) (filePath : string) : prog host unit :=
  try_catch (real_unlink filePath)
    (λ error, if negb (bool_decide (error_code error = Some "ENOENT"))
              then throw error else ret tt).

Definition glob (this : t) (pattern : string) : prog host (list string) :=
  try_catch (real_glob pattern) (λ _, ret []).

End Methods.

End MultiDocAdapter.

(** ** [KanbnGlobalManager] *)

Module KanbnGlobalManager.

(** The cleanup closure stored per document,
    [() => documentAdapterInfo.adapter.removeDocumentCallbacks(documentUri)]:
    the adapter object and the document it captured. *)
Record cleanup := Cleanup {
  captured_adapter : nat;
  captured_uri : string
}.

(** [interface DocumentAdapter] *)
Record DocumentAdapter := Info {
  adapter : nat;                          (* the adapter object *)
  documentCallbacks : gmap string cleanup
}.

(** A task store as the manager builds it,
    [new Kanbn(boardPath, adapter, globFunction)]; [globFunction] calls
    [glob] of the adapter it captured. *)
Record Kanbn := NewKanbn {
  boardPath : string;
  fs : nat;
  globFunction : nat
}.

(** The manager with the objects it has allocated.  An object keeps its
    allocation number for ever; [allocated] counts the objects so far. *)
Record state := State {
  kanbnInstances : gmap string nat;
  documentAdapters : gmap string DocumentAdapter;
  adapters : gmap nat MultiDocAdapter.t;
  kanbns : gmap nat Kanbn;
  allocated : nat
}.

Definition initial : state := State ∅ ∅ ∅ ∅ 0.

(** The first half of [getKanbnForDocument]: the board's [DocumentAdapter],
    found or made, with the state after it. *)
Definition get_or_create_adapter (this : state) (documentUri boardPath : string)
    (getDocumentContent : getter) (setDocumentContent : setter)
  : DocumentAdapter * state :=
  match documentAdapters this !! boardPath with
  | None =>
      let adapter := allocated this in
      let documentAdapterInfo := Info adapter ∅ in
      (documentAdapterInfo,
       State (kanbnInstances this)
             (<[boardPath := documentAdapterInfo]> (documentAdapters this))
             (<[adapter := MultiDocAdapter.constructor documentUri
                             getDocumentContent setDocumentContent]> (adapters this))
             (kanbns this)
             (S (allocated this)))
  | Some documentAdapterInfo =>
      (documentAdapterInfo,
       State (kanbnInstances this)
             (documentAdapters this)
             (alter (λ a, MultiDocAdapter.addDocumentCallbacks a documentUri
                            getDocumentContent setDocumentContent)
                    (adapter documentAdapterInfo) (adapters this))
             (kanbns this)
             (allocated this))
  end.

Definition getKanbnForDocument (this : state) (documentUri boardPath : string)
    (getDocumentContent : getter) (setDocumentContent : setter) : nat * state :=
  let documentKey := documentUri in
  let '(documentAdapterInfo, this) :=
    get_or_create_adapter this documentUri boardPath
      getDocumentContent setDocumentContent in
  (* documentAdapterInfo.documentCallbacks.set(documentKey, ...) *)
  let documentAdapterInfo :=
    Info (adapter documentAdapterInfo)
         (<[documentKey := Cleanup (adapter documentAdapterInfo) documentUri]>
            (documentCallbacks documentAdapterInfo)) in
  let this :=
    State (kanbnInstances this)
          (<[boardPath := documentAdapterInfo]> (documentAdapters this))
          (adapters this) (kanbns this) (allocated this) in
  match kanbnInstances this !! boardPath with
  | Some kanbn => (kanbn, this)
  | None =>
      let kanbn := allocated this in
      (kanbn,
       State (<[boardPath := kanbn]> (kanbnInstances this))
             (documentAdapters this)
             (adapters this)
             (<[kanbn := NewKanbn boardPath (adapter documentAdapterInfo)
                           (adapter documentAdapterInfo)]> (kanbns this))
             (S (allocated this)))
  end.

(** Running a stored cleanup closure. *)
Definition run_cleanup (c : cleanup) (this : state) : state :=
  State (kanbnInstances this) (documentAdapters this)
        (alter (λ a, MultiDocAdapter.removeDocumentCallbacks a (captured_uri c))
               (captured_adapter c) (adapters this))
        (kanbns this) (allocated this).

Definition cleanupDocument (this : state) (documentUri boardPath : string) : state :=
  let documentKey := documentUri in
  match documentAdapters this !! boardPath with
  | None => this
  | Some documentAdapterInfo =>
      let '(documentAdapterInfo, this) :=
        match documentCallbacks documentAdapterInfo !! documentKey with
        | Some cleanup =>
            let this := run_cleanup cleanup this in
            let info := Info (adapter documentAdapterInfo)
                             (delete documentKey (documentCallbacks documentAdapterInfo)) in
            (info,
             State (kanbnInstances this)
                   (<[boardPath := info]> (documentAdapters this))
                   (adapters this) (kanbns this) (allocated this))
        | None => (documentAdapterInfo, this)
        end in
      if bool_decide (size (documentCallbacks documentAdapterInfo) = 0%nat) then
        State (delete boardPath (kanbnInstances this))
              (delete boardPath (documentAdapters this))
              (adapters this) (kanbns this) (allocated this)
      else this
  end.

(** [getStats] *)
Definition getStats (this : state) : nat * nat * nat :=
  (size (kanbnInstances this),
   size (documentAdapters this),
   map_fold (λ _ info sum, (sum + size (documentCallbacks info))%nat) 0%nat
            (documentAdapters this)).

(** The calls the rest of the extension makes on the manager. *)
Inductive call :=
| GetKanbnForDocument (documentUri boardPath : string) (g : getter) (s : setter)
| CleanupDocument (documentUri boardPath : string).

(** One call: the state after it and, for [getKanbnForDocument], the task
    store it returned. *)
Definition perform (c : call) (this : state) : option nat * state :=
  match c with
  | GetKanbnForDocument documentUri boardPath g s =>
      let '(kanbn, this) := getKanbnForDocument this documentUri boardPath g s in
      (Some kanbn, this)
  | CleanupDocument documentUri boardPath =>
      (None, cleanupDocument this documentUri boardPath)
  end.

(** The states a process can be in: the fresh manager and what calls make
    of it. *)
Inductive reachable : state → Prop :=
| reachable_initial : reachable initial
| reachable_perform c this : reachable this → reachable (perform c this).2.

(** The states passed through by a sequence of calls, the one after each
    call, in order. *)
Fixpoint states_after (calls : list call) (this : state) : list state :=
  match calls with
  | [] => []
  | c :: calls' =>
      let this' := (perform c this).2 in this' :: states_after calls' this'
  end.

Definition run (calls : list call) (this : state) : state :=
  foldl (λ this c, (perform c this).2) this calls.

(** The task stores returned, in order, by the [getKanbnForDocument] calls
    for [board] among [calls]. *)
Fixpoint returned_for (board : string) (calls : list call) (this : state) : list nat :=
  match calls with
  | [] => []
  | c :: calls' =>
      let '(r, this') := perform c this in
      match c, r with
      | GetKanbnForDocument _ b _ _, Some kanbn =>
          if String.eqb b board then kanbn :: returned_for board calls' this'
          else returned_for board calls' this'
      | _, _ => returned_for board calls' this'
      end
  end.

(** At least one document is registered for [board]. *)
Definition registered (board : string) (this : state) : Prop :=
  ∃ info, documentAdapters this !! board = Some info
          ∧ documentCallbacks info ≠ ∅.

(** What the manager holds for [board]: nothing at all, or one adapter with
    at least one registered document and one task store built on that very
    adapter, every stored cleanup closure pointing at the same adapter. *)
Definition board_consistent (this : state) (board : string) : Prop :=
  match documentAdapters this !! board, kanbnInstances this !! board with
  | None, None => True
  | Some info, Some kanbn =>
      documentCallbacks info ≠ ∅
      ∧ kanbns this !! kanbn = Some (NewKanbn board (adapter info) (adapter info))
      ∧ is_Some (adapters this !! adapter info)
      ∧ map_Forall (λ uri c, c = Cleanup (adapter info) uri) (documentCallbacks info)
  | _, _ => False
  end.

Definition one_per_board (this : state) : Prop :=
  ∀ board, board_consistent this board.

(** Allocation numbers in use are below the counter. *)
Definition well_allocated (this : state) : Prop :=
  (∀ k, is_Some (kanbns this !! k) → (k < allocated this)%nat)
  ∧ (∀ a, is_Some (adapters this !! a) → (a < allocated this)%nat).

(** The adapter object of a board holds callbacks for exactly the documents
    the manager has registered for the board, and its two file tables are
    empty. *)
Definition adapter_in_step (this : state) (info : DocumentAdapter) : Prop :=
  ∃ a, adapters this !! adapter info = Some a
       ∧ dom (MultiDocAdapter.documentCallbacks a) = dom (documentCallbacks info)
       ∧ MultiDocAdapter.fileContentMap a = ∅
       ∧ MultiDocAdapter.fileExistsMap a = ∅.

(** Every board's adapter is in step, and no two boards share an adapter. *)
Definition adapters_in_step (this : state) : Prop :=
  (∀ board info, documentAdapters this !! board = Some info →
                 adapter_in_step this info)
  ∧ (∀ board1 board2 info1 info2,
       documentAdapters this !! board1 = Some info1 →
       documentAdapters this !! board2 = Some info2 →
       adapter info1 = adapter info2 → board1 = board2).

End KanbnGlobalManager.

(** ** [makeEdit] of [KanbnBoardDocument] and [KanbnTaskDocument] *)

Module KanbnDocument.

(** An open custom document and the window around it. *)
Record t := Document {
  _documentData : list Byte.byte;
  _onUndoRedo : bool;               (* whether [setUndoRedoCallback] was called *)
  refreshes : nat;                  (* runs of the [_onUndoRedo] callback *)
  error_messages : list string      (* [vscode.window.showErrorMessage] *)
}.

Definition set_documentData (data : list Byte.byte) (this : t) : t :=
  Document data (_onUndoRedo this) (refreshes this) (error_messages this).

(** [if (this._onUndoRedo) { this._onUndoRedo() }] *)
Definition call_onUndoRedo (this : t) : t :=
  if _onUndoRedo this
  then Document (_documentData this) true (S (refreshes this)) (error_messages this)
  else this.

Definition showErrorMessage (message : string) : prog t unit :=
  λ this, (Return tt,
           Document (_documentData this) (_onUndoRedo this) (refreshes this)
                    (error_messages this ++ [message])).

(** What [_onDidChangeDocument.fire] hands to the host; the two closures
    act on the document as it is when the host calls them. *)
Record change := Change {
  label : string;
  undo : t → t;
  redo : t → t
}.

(** [makeEdit]: the two classes have the same body.  The state is the
    document with the events fired so far, oldest first. *)
Definition makeEdit (label : string) (editCallback : prog t unit)
  : prog (t * list change) unit :=
  λ '(this, events),
  let oldDocumentData := _documentData this in
  match editCallback this with
  | (Throw e, this) => (Throw e, (this, events))
  | (Return _, this) =>
      let newDocumentData := _documentData this in
      (Return tt,
       (this,
        events ++ [Change label
                     (λ this, call_onUndoRedo (set_documentData oldDocumentData this))
                     (λ this, call_onUndoRedo (set_documentData newDocumentData this))]))
  end.

(** The callback of the [kanbn.move] and [kanbn.sprint] handlers:
    [try { await operation } catch (e) { if (e instanceof Error)
    showErrorMessage(e.message) else throw e }]. *)
Definition guarded (operation : prog t unit) : prog t unit :=
  try_catch operation
    (λ e, match e with
          | ErrorObject _ message => showErrorMessage message
          | OtherValue _ => throw e
          end).

End KanbnDocument.

(** ** [KanbnTaskDocument]: the names derived from the path of the task
    file, and the calls on the manager *)

Module KanbnTaskDocument.

Section WithPath.
Context `{PathParts}.

(** [filename.replace(/\.md$/, "")] *)
Definition strip_md (filename : string) : string :=
  if Js.endsWith filename ".md"
  then Js.slice filename 0 (Js.length filename - 3)
  else filename.

(** [get taskId()] *)
Definition taskId (fsPath : string) : string :=
  let filename := path_basename fsPath in
  strip_md filename.

(** [boardPath], as the constructor, [initializeForWebview] and [dispose]
    compute it *)
Definition boardPath (fsPath : string) : string :=
  let tasksDir := path_dirname fsPath in
  let kanbnDir := path_dirname tasksDir in
  path_dirname kanbnDir.

(** [initializeForWebview] of the document object [document], opened on
    [fsPath]: the two closures read and write its [_documentData]. *)
Definition initializeForWebview (document : nat) (fsPath : string)
    (globalManager : KanbnGlobalManager.state) : nat * KanbnGlobalManager.state :=
  KanbnGlobalManager.getKanbnForDocument globalManager fsPath (boardPath fsPath)
    (decode_document document) (encode_into_document document).

(** What [dispose] does to the manager. *)
Definition dispose (fsPath : string) (globalManager : KanbnGlobalManager.state)
  : KanbnGlobalManager.state :=
  KanbnGlobalManager.cleanupDocument globalManager fsPath (boardPath fsPath).

End WithPath.

End KanbnTaskDocument.

(** ** [KanbnBoardDocument] and [KanbnBoardEditorProvider.showTaskPanel] *)

Module KanbnBoardEditorProvider.

(** The adapter that [initializeForWebview] builds for the document object
    [document], opened on [fsPath]: the two closures read and write its
    [_documentData]. *)
Definition initializeForWebview (document : nat) (fsPath : string) : DiskAdapter.t :=
  DiskAdapter.constructor fsPath (decode_document document)
    (encode_into_document document).

Section WithPath.
Context `{PathApi} `{PathParts} `{VscodeUri}.

(** [boardPath] of the board document, two directories above its file. *)
Definition boardPath (fsPath : string) : string :=
  let kanbnDir := path_dirname fsPath in
  path_dirname kanbnDir.

(** [showTaskPanel]: the [fsPath] of the URI opened with the task editor;
    [None] when [taskId] is [null] or empty and only a message is shown. *)
Definition showTaskPanel (documentFsPath : string) (taskId : option string)
  : option string :=
  match taskId with
  | Some taskId =>
      if negb (Js.falsy taskId) then
        let kanbnDir := path_dirname documentFsPath in
        Some (Uri_file_fsPath (path_join [kanbnDir; "tasks"; taskId +:+ ".md"]))
      else None
  | None => None
  end.

End WithPath.

End KanbnBoardEditorProvider.

(** ** [extension.ts] *)

Module Extension.

Section WithUri.
Context `{VscodeUri}.

(** [getKanbnForBoard] *)
Definition getKanbnForBoard (globalManager : KanbnGlobalManager.state)
    (boardPath : string) : nat * KanbnGlobalManager.state :=
  let dummyUri := Uri_file_fsPath (boardPath +:+ "/.kanbn/index.md") in
  KanbnGlobalManager.getKanbnForDocument globalManager dummyUri boardPath
    empty_getter ignore_setter.

End WithUri.

(** What the [kanbn.openTask] command reads of the index: the columns with
    their task ids, in the order of [Object.keys(index.columns)], and the
    two options, [None] standing for [undefined]. *)
Record index := Index {
  columns : OrderedMap.t (list string);
  startedColumns : option (list string);
  completedColumns : option (list string)
}.

(** [array.includes(c)] for strings *)
Definition includes (array : list string) (c : string) : bool :=
  bool_decide (c ∈ array).

(** [otherColumns] *)
Definition otherColumns (i : index) : list string :=
  let startedColumns := default [] (startedColumns i) in
  let completedColumns := default [] (completedColumns i) in
  filter (λ c, negb (includes startedColumns c || includes completedColumns c) = true)
         (OrderedMap.keys (columns i)).

(** [[...startedColumns, ...otherColumns, ...completedColumns]] *)
Definition columnOrder (i : index) : list string :=
  default [] (startedColumns i) ++ otherColumns i ++ default [] (completedColumns i).

(** [tasksByColumns], [getTask] being the task store's; [None] when the
    promise rejects: a listed name that is no column, or a task that cannot
    be loaded. *)
Definition tasksByColumns {Task} (i : index) (getTask : string → option Task)
  : option (list (string * list Task)) :=
  mapM (λ columnName,
          taskIds ← OrderedMap.get (columns i) columnName;
          tasks ← mapM getTask taskIds;
          Some (columnName, tasks))
       (columnOrder i).

(** A [vscode.QuickPickItem] of the task picker. *)
Inductive QuickPickItem :=
| Separator (label : string)
| TaskItem (label detail : string).

(** [quickPickItems] *)
Definition quickPickItems {Task} (name id : Task → string)
    (tasksByColumns : list (string * list Task)) : list QuickPickItem :=
  flat_map (λ column,
              Separator column.1
              :: map (λ task, TaskItem (name task) (id task)) column.2)
           tasksByColumns.

(** The task file opened for the item picked, if any:
    [if (qp?.detail !== undefined)]. *)
Definition picked_task_path `{VscodeUri} (board : string) (qp : option QuickPickItem)
  : option string :=
  match qp with
  | Some (TaskItem _ detail) =>
      Some (Uri_file_fsPath (board +:+ "/.kanbn/tasks/" +:+ detail +:+ ".md"))
  | _ => None
  end.

End Extension.

(** ** [debounce] of the task editor *)

Module Debounce.

Section WithFunc.
Context {Args World : Type}.

(** A timer set by [setTimeout(() => func(...args), wait)]. *)
Record timer := Timer {
  handle : nat;
  due : Z;
  args : Args
}.

(** Node's timers, as far as one debounced function uses them: the clock in
    milliseconds, the next handle, and the timers neither run nor cleared,
    oldest first.  All are set with the same delay, so the oldest is due
    first. *)
Record timers := Timers {
  now : Z;
  next_handle : nat;
  scheduled : list timer
}.

(** The delay Node uses for [setTimeout(f, ms)]. *)
Definition delay (ms : Z) : Z :=
  if (1 <=? ms) && (ms <=? 2147483647) then ms else 1.

Definition setTimeout (a : Args) (ms : Z) (tm : timers) : nat * timers :=
  (next_handle tm,
   Timers (now tm) (S (next_handle tm))
          (scheduled tm ++ [Timer (next_handle tm) (now tm + delay ms) a])).

Definition clearTimeout (h : nat) (tm : timers) : timers :=
  Timers (now tm) (next_handle tm) (filter (λ t, handle t ≠ h) (scheduled tm)).

(** The closure variable [timeout] with the timers. *)
Definition closure : Type := option nat * timers.

Variable func : Args → World → World.
Variable wait : Z.

(** [debounce(func, wait)] on a platform without timers of this closure. *)
Definition debounce (clock : Z) (next : nat) : closure := (None, Timers clock next []).

(** [debounced(...args)] *)
Definition debounced (a : Args) (c : closure) : closure :=
  let '(timeout, tm) := c in
  let tm := match timeout with
            | Some h => clearTimeout h tm
            | None => tm
            end in
  let '(h, tm) := setTimeout a wait tm in
  (Some h, tm).

(** [debounced.cancel()] *)
Definition cancel (c : closure) : closure :=
  let '(timeout, tm) := c in
  match timeout with
  | Some h => (None, clearTimeout h tm)
  | None => (timeout, tm)
  end.

(** [ms] milliseconds pass: the timers due by then run, the oldest first;
    running one calls [func] with the arguments it captured and leaves
    [timeout] as it is. *)
Definition elapse (ms : Z) (st : closure * World) : closure * World :=
  let '((timeout, tm), s) := st in
  let clock := now tm + Z.max 0 ms in
  let ready := filter (λ t, due t ≤ clock) (scheduled tm) in
  let waiting := filter (λ t, ¬ due t ≤ clock) (scheduled tm) in
  ((timeout, Timers clock (next_handle tm) waiting),
   foldl (λ s t, func (args t) s) s ready).

(** What can happen to a debounced function. *)
Inductive event :=
| Call (a : Args)
| Cancel
| Elapse (ms : Z).

Definition step (st : closure * World) (e : event) : closure * World :=
  match e with
  | Call a => (debounced a st.1, st.2)
  | Cancel => (cancel st.1, st.2)
  | Elapse ms => elapse ms st
  end.

Definition run (events : list event) (st : closure * World) : closure * World :=
  foldl step st events.

(** The arguments of the calls among [events], in order. *)
Definition called (events : list event) : list Args :=
  omap (λ e, match e with Call a => Some a | _ => None end) events.

(** The milliseconds that pass during [events]. *)
Definition elapsed (events : list event) : Z :=
  foldr (λ e total, match e with Elapse ms => Z.max 0 ms + total | _ => total end)
        0 events.

(** The states a debounced function and the world around it can be in:
    [debounce] has just returned, or something has happened since, or
    something else has changed the world. *)
Inductive reachable : closure * World → Prop :=
| reachable_new clock next s : reachable (debounce clock next, s)
| reachable_step st e : reachable st → reachable (step st e)
| reachable_world c s s' : reachable (c, s) → reachable (c, s').

(** At most one timer of the closure is pending; [timeout] is its handle
    and it is due later than now. *)
Definition tidy (c : closure) : Prop :=
  scheduled c.2 = []
  ∨ ∃ t, scheduled c.2 = [t] ∧ c.1 = Some (handle t) ∧ now c.2 < due t.

End WithFunc.

End Debounce.

(** ** The message handler of the task editor *)

Module KanbnTaskEditorProvider.

Section WithTaskStore.
Context `{PathParts} {TaskData : Type}.

(** [kanbn.updateTask(taskId, task, column)] and
    [kanbn.createTask(task, column)], as they act on the open document. *)
Variable updateTask : string → TaskData → prog KanbnDocument.t unit.
Variable createTask : TaskData → prog KanbnDocument.t unit.

(** The document is opened on [fsPath]. *)
Variable fsPath : string.

(** The callback passed to [makeEdit] by the debounced edit and by the
    [kanbn.blur] and [kanbn.save] handlers. *)
Definition editCallback (taskData : TaskData) : prog KanbnDocument.t unit :=
  let taskId := KanbnTaskDocument.taskId fsPath in
  if negb (Js.falsy taskId) then updateTask taskId taskData
  else createTask taskData.

(** The function handed to [debounce]; the timer drops its promise. *)
Definition debouncedEdit_func (args : string * TaskData)
    (st : KanbnDocument.t * list KanbnDocument.change)
  : KanbnDocument.t * list KanbnDocument.change :=
  (KanbnDocument.makeEdit args.1 (editCallback args.2) st).2.

Inductive message :=
| TextChange (taskData : TaskData)        (* [kanbn.textChange] *)
| Blur (taskData : TaskData)              (* [kanbn.blur] *)
| Save (taskData : TaskData).             (* [kanbn.save] *)

(** The state the handler works on: the debounced edit, the document and
    the change events fired so far. *)
Definition state : Type :=
  @Debounce.closure (string * TaskData)
  * (KanbnDocument.t * list KanbnDocument.change).

(** The listener given to [onDidReceiveMessage], for the three commands
    that edit. *)
Definition onDidReceiveMessage (m : message) : prog state unit :=
  λ '(debouncedEdit, st),
  match m with
  | TextChange taskData =>
      (Return tt,
       (Debounce.debounced 1500 ("Update task content", taskData) debouncedEdit, st))
  | Blur taskData =>
      let debouncedEdit := Debounce.cancel debouncedEdit in
      let '(r, st) :=
        KanbnDocument.makeEdit "Update task content" (editCallback taskData) st in
      (r, (debouncedEdit, st))
  | Save taskData =>
      let debouncedEdit := Debounce.cancel debouncedEdit in
      let '(r, st) := KanbnDocument.makeEdit "Save task" (editCallback taskData) st in
      (r, (debouncedEdit, st))
  end.

(** What happens in the editor: a message arrives, or time passes. *)
Inductive happening :=
| Message (m : message)
| Wait (ms : Z).

Definition happen (st : state) (e : happening) : state :=
  match e with
  | Message m => (onDidReceiveMessage m st).2
  | Wait ms => Debounce.elapse debouncedEdit_func ms st
  end.

(** The states of an editor: [resolveCustomEditor] has just made the
    debounced edit, or something has happened since. *)
Inductive reachable : state → Prop :=
| reachable_resolved clock next st : reachable (Debounce.debounce clock next, st)
| reachable_happen st e : reachable st → reachable (happen st e).

End WithTaskStore.

End KanbnTaskEditorProvider.

(** ** What the specification says, in its own words *)

Module Spec.

(** One white-space character of ECMAScript, as bytes. *)
Inductive whitespace_char : string → Prop :=
| whitespace1 a : Js.ws1 a = true → whitespace_char (String a "")
| whitespace2 a b : Js.ws2 a b = true → whitespace_char (String a (String b ""))
| whitespace3 a b c :
    Js.ws3 a b c = true → whitespace_char (String a (String b (String c ""))).

(** "Empty or whitespace-only". *)
Inductive whitespace_only : string → Prop :=
| whitespace_nil : whitespace_only ""
| whitespace_cons w s :
    whitespace_char w → whitespace_only s → whitespace_only (w +:+ s).

(** "The normalized join of [basePath] with [rawPath]". *)
Definition normalized_join `{PathApi} (basePath rawPath : string) : string :=
  path_normalize (path_join [basePath; rawPath]).

(** Whether [c] occurs in [s]. *)
Fixpoint contains (c : Ascii.ascii) (s : string) : bool :=
  match s with
  | EmptyString => false
  | String a r => Ascii.eqb a c || contains c r
  end.

(** The segments of a path, split at ['/']. *)
Fixpoint segments (path : string) : list string :=
  match path with
  | EmptyString => [""]
  | String c rest =>
      if Ascii.eqb c Js.slash then "" :: segments rest
      else match segments rest with
           | seg :: segs => String c seg :: segs
           | [] => [String c ""]
           end
  end.

(** Walking one segment from the directory named by [stack] (outermost
    segment first). *)
Definition walk (allowAboveRoot : bool) (stack : list string) (seg : string)
  : list string :=
  if String.eqb seg "" || String.eqb seg "." then stack
  else if String.eqb seg ".." then
    match last stack with
    | None => if allowAboveRoot then [".."] else []
    | Some top =>
        if String.eqb top ".." then
          (if allowAboveRoot then stack ++ [".."] else stack)
        else removelast stack
    end
  else stack ++ [seg].

Definition walk_all (allowAboveRoot : bool) (segs : list string) : list string :=
  foldl (walk allowAboveRoot) [] segs.

(** The path spelled by a stack of segments. *)
Definition joined (stack : list string) : string := String.concat "/" stack.

(** The same walk, reading the path one character at a time: [cur] is the
    segment read so far. *)
Fixpoint scan (allowAboveRoot : bool) (rest : string) (stack : list string)
    (cur : string) : list string :=
  match rest with
  | EmptyString => walk allowAboveRoot stack cur
  | String c rest' =>
      if Ascii.eqb c Js.slash
      then scan allowAboveRoot rest' (walk allowAboveRoot stack cur) ""
      else scan allowAboveRoot rest' stack (cur +:+ String c "")
  end.

(** The count kept in [dots] while a segment is read: the number of its
    characters if all are dots, [-1] otherwise. *)
Fixpoint dots_from (d : Z) (cur : string) : Z :=
  match cur with
  | EmptyString => d
  | String c cur' =>
      dots_from (if Ascii.eqb c Js.dot && negb (d =? -1) then d + 1 else -1) cur'
  end.

(** A segment that names a directory entry: not empty, not [.], not [..],
    and without ['/']. *)
Definition entry (seg : string) : Prop :=
  seg ≠ "" ∧ seg ≠ "." ∧ seg ≠ ".." ∧ contains Js.slash seg = false.

(** A glob pattern of literal characters and [*], where [*] stands for
    any run of characters other than ['/']. *)
Fixpoint glob_match (pattern : string) : string → bool :=
  match pattern with
  | EmptyString => λ path, String.eqb path ""
  | String p pattern' =>
      if Ascii.eqb p (Js.char 42) then
        fix star (path : string) : bool :=
          glob_match pattern' path
          || match path with
             | String c path' => negb (Ascii.eqb c Js.slash) && star path'
             | EmptyString => false
             end
      else
        λ path, match path with
                | String c path' => Ascii.eqb p c && glob_match pattern' path'
                | EmptyString => false
                end
  end.

(** "The union of the real paths matching the pattern and the in-memory
    paths matching the pattern, with no path appearing twice". *)
Definition glob_union (realFiles memoryPaths : list string) (pattern : string)
    (result : list string) : Prop :=
  (∀ path, path ∈ result
           ↔ path ∈ realFiles
             ∨ (path ∈ memoryPaths ∧ glob_match pattern path = true))
  ∧ NoDup result.

End Spec.

(** ** A small disk and codec, to run the adapters on examples *)

Module MemDisk.

Record t := Disk {
  files : gmap string string;
  dirs : gset string
}.

Definition system_error (code : string) : thrown := ErrorObject (Some code) code.

Definition access (path : string) (mode : Z) (d : t) : outcome unit :=
  if bool_decide (is_Some (files d !! path)) || bool_decide (path ∈ dirs d)
  then Return tt else Throw (system_error "ENOENT").

Definition readFile (path : string) (d : t) : outcome string :=
  match files d !! path with
  | Some content => Return content
  | None => Throw (system_error "ENOENT")
  end.

Definition writeFile (path data : string) (d : t) : outcome unit * t :=
  if bool_decide (path ∈ dirs d) then (Throw (system_error "EISDIR"), d)
  else (Return tt, Disk (<[path := data]> (files d)) (dirs d)).

Definition mkdir (path : string) (options : option mkdir_options) (d : t)
  : outcome unit * t :=
  if bool_decide (path ∈ dirs d) then
    match options with
    | Some (Some true) => (Return tt, d)
    | _ => (Throw (system_error "EEXIST"), d)
    end
  else if bool_decide (is_Some (files d !! path)) then (Throw (system_error "EEXIST"), d)
  else (Return tt, Disk (files d) ({[path]} ∪ dirs d)).

Definition rename (oldPath newPath : string) (d : t) : outcome unit * t :=
  match files d !! oldPath with
  | Some content =>
      (Return tt, Disk (<[newPath := content]> (delete oldPath (files d))) (dirs d))
  | None => (Throw (system_error "ENOENT"), d)
  end.

Definition unlink (path : string) (d : t) : outcome unit * t :=
  match files d !! path with
  | Some _ => (Return tt, Disk (delete path (files d)) (dirs d))
  | None =>
      if bool_decide (path ∈ dirs d) then (Throw (system_error "EPERM"), d)
      else (Throw (system_error "ENOENT"), d)
  end.

Definition glob (pattern : string) (d : t) : outcome (list string) :=
  Return (filter (λ path, Spec.glob_match pattern path = true)
                 (map fst (map_to_list (files d)))).

Definition empty : t := Disk ∅ ∅.

End MemDisk.

Definition mem_fs : RealFs := {|
  disk := MemDisk.t;
  fs_access := MemDisk.access;
  fs_readFile := MemDisk.readFile;
  fs_writeFile := MemDisk.writeFile;
  fs_mkdir := MemDisk.mkdir;
  fs_rename := MemDisk.rename;
  fs_unlink := MemDisk.unlink;
  glob_promise := MemDisk.glob
|}.

(** Strings carry their UTF-8 bytes, so the codec is the change of type. *)
Definition utf8 : TextCodec := {|
  TextEncoder_encode := String.list_byte_of_string;
  TextDecoder_decode := String.string_of_list_byte
|}.

(** ** Sample runs, used to instantiate the theorems below *)

Definition sample_document : KanbnDocument.t :=
  KanbnDocument.Document (@TextEncoder_encode utf8 "# Task A") true 0 [].

(** A callback as the task editor passes it: the task store rewrites the
    open file through the adapter, which calls the document's setter. *)
Definition sample_edit : prog KanbnDocument.t unit :=
  λ this, (Return tt, KanbnDocument.set_documentData (@TextEncoder_encode utf8 "# Task B") this).

(** [moveTask] on a task that is not in the index: the task store throws
    before it writes anything. *)
Definition failing_move : prog KanbnDocument.t unit :=
  λ this, (Throw (new_Error "No task found with id missing"), this).

Definition mkdir_host : @host mem_fs := @Host mem_fs ∅ MemDisk.empty [].

Definition mkdir_adapter : DiskAdapter.t :=
  DiskAdapter.constructor "/ws/.kanbn/index.md" (decode_document 0)
    (encode_into_document 0).

Definition mkdir_multi : MultiDocAdapter.t :=
  MultiDocAdapter.constructor "/ws/.kanbn/index.md" (decode_document 0)
    (encode_into_document 0).

(** Two task editors and a command on one board, a third editor on another. *)
Definition task_a : string := "/ws/.kanbn/tasks/a.md".
Definition task_b : string := "/ws/.kanbn/tasks/b.md".

Definition session : list KanbnGlobalManager.call :=
  [ KanbnGlobalManager.GetKanbnForDocument task_b "/ws" (decode_document 1) (encode_into_document 1);
    KanbnGlobalManager.CleanupDocument task_a "/ws";
    KanbnGlobalManager.GetKanbnForDocument "/other/.kanbn/tasks/c.md" "/other"
      (decode_document 2) (encode_into_document 2);
    KanbnGlobalManager.GetKanbnForDocument "/ws/.kanbn/index.md" "/ws" empty_getter ignore_setter ].

Definition one_editor : KanbnGlobalManager.state :=
  (KanbnGlobalManager.perform
     (KanbnGlobalManager.GetKanbnForDocument task_a "/ws" (decode_document 0)
        (encode_into_document 0))
     KanbnGlobalManager.initial).2.

(** A board index opened on Windows: [fsPath] spells the path with
    backslashes, and so does the task store when it asks for the file.
    [path.normalize] keeps this string as it is, on Windows because the
    path is normal already and in the POSIX flavour used here because it
    holds no ['/']; [normalizePath] then turns the backslashes. *)
Definition windows_index : string := "c:\ws\.kanbn\index.md".

Definition windows_adapter : MultiDocAdapter.t :=
  MultiDocAdapter.constructor windows_index (decode_document 0)
    (encode_into_document 0).

Definition windows_single : DiskAdapter.t :=
  DiskAdapter.constructor windows_index (decode_document 0) (encode_into_document 0).

(** The editor holds unsaved text; the disk holds the last saved text. *)
Definition windows_host : @host mem_fs :=
  @Host mem_fs {[0%nat := @TextEncoder_encode utf8 "unsaved"]}
        (MemDisk.Disk {[windows_index := "saved"]} ∅) [].

(** A note saved as text next to the board, then a glob for text files. *)
Definition notes_adapter : VirtualAdapter.t * @host mem_fs :=
  (@VirtualAdapter.writeFile (posix_path "/work") utf8 mem_fs
     "/ws/notes.txt" "draft"
     (VirtualAdapter.constructor "/ws/.kanbn/index.md" (decode_document 0)
        (encode_into_document 0),
      @Host mem_fs ∅ MemDisk.empty [])).2.

(** A board in memory with two tasks, one of them also on disk next to a
    third. *)
Definition tasks_adapter : VirtualAdapter.t * @host mem_fs :=
  (@VirtualAdapter.writeFile (posix_path "/work") utf8 mem_fs
     "/ws/.kanbn/tasks/b.md" "# B"
     (@VirtualAdapter.writeFile (posix_path "/work") utf8 mem_fs
        "/ws/.kanbn/tasks/a.md" "# A"
        (VirtualAdapter.constructor "/ws/.kanbn/index.md" (decode_document 0)
           (encode_into_document 0),
         @Host mem_fs ∅
           (MemDisk.Disk {[ "/ws/.kanbn/tasks/a.md" := "# A, saved";
                            "/ws/.kanbn/tasks/c.md" := "# C" ]} ∅) [])).2).2.

(** A debounced function that logs the arguments it is run with. *)
Definition log_call (a : string) (log : list string) : list string := log ++ [a].

Definition fresh_debounced : @Debounce.closure string * list string :=
  (Debounce.debounce 0 0, []).

(** A task store whose [updateTask] and [createTask] rewrite the open
    task file with the text received, through the adapter and the
    document's setter. *)
Definition sample_updateTask (taskId taskData : string) : prog KanbnDocument.t unit :=
  λ this, (Return tt,
           KanbnDocument.set_documentData (@TextEncoder_encode utf8 taskData) this).

Definition sample_createTask (taskData : string) : prog KanbnDocument.t unit :=
  λ this, (Return tt,
           KanbnDocument.set_documentData (@TextEncoder_encode utf8 taskData) this).

Definition fresh_editor : @KanbnTaskEditorProvider.state string :=
  (Debounce.debounce 0 0, (sample_document, [])).


(** The options name a column that the board does not have. *)
Definition stale_index : Extension.index :=
  Extension.Index [("Backlog", ["a"]); ("Done", [])] (Some ["Doing"]) (Some ["Done"]).

(** ** Invariants of [normalizeString] *)

Definition clean (stack : list string) : Prop :=
  Forall (λ seg, seg ≠ "" ∧ Spec.contains Js.slash seg = false) stack.

(** What the locals of [normalizeString] stand for when the loop has read
    [done +:+ cur], [done] being empty or ending in the last separator
    read, and [stack] being the walk over the segments closed so far. *)
Record tracks (path done cur rest : string) (stack : list string)
    (st : Posix.locals) : Prop := Tracks {
  tracks_path : path = (done +:+ cur) +:+ rest;
  tracks_cur : Spec.contains Js.slash cur = false;
  tracks_clean : clean stack;
  tracks_res : Posix.res st = Spec.joined stack;
  tracks_length : Posix.lastSegmentLength st = Js.length (default "" (last stack));
  tracks_slash : Posix.lastSlash st = Js.length done - 1;
  tracks_dots : Posix.dots st = Spec.dots_from 0 cur
}.

(** * Properties *)

(** ** The cases of the test suite of [resolveBoardPath]

    Run on a POSIX system with home directory [/home/user]; the working
    directory plays no part in them. *)

Example test_relative :
  @PathUtils.resolveBoardPath (posix_path "/work") (home_at "/home/user")
    "boards/my-board" (Some "/home/user/projects/myproject")
  = Return (Posix.normalize "/home/user/projects/myproject/boards/my-board").
Proof. vm_compute. reflexivity. Qed.

Example test_absolute :
  @PathUtils.resolveBoardPath (posix_path "/work") (home_at "/home/user")
    "/absolute/path/board" (Some "/home/user/projects/myproject")
  = Return (Posix.normalize "/absolute/path/board")
  ∧ @PathUtils.resolveBoardPath (posix_path "/work") (home_at "/home/user")
      "/absolute/path/board" None
    = Return (Posix.normalize "/absolute/path/board").
Proof. split; vm_compute; reflexivity. Qed.

Example test_tilde :
  @PathUtils.resolveBoardPath (posix_path "/work") (home_at "/home/user")
    "~/my-boards/main" (Some "/home/user/projects/myproject")
  = Return (Posix.join ["/home/user"; "my-boards/main"])
  ∧ @PathUtils.resolveBoardPath (posix_path "/work") (home_at "/home/user")
      "~/my-boards/main" None
    = Return (Posix.join ["/home/user"; "my-boards/main"]).
Proof. split; vm_compute; reflexivity. Qed.

Example test_parent_traversal :
  @PathUtils.resolveBoardPath (posix_path "/work") (home_at "/home/user")
    "../other-boards/main" (Some "/home/user/projects/myproject")
  = Return (Posix.normalize "/home/user/projects/other-boards/main").
Proof. vm_compute. reflexivity. Qed.

Example test_relative_without_workspace :
  @PathUtils.resolveBoardPath (posix_path "/work") (home_at "/home/user")
    "relative/path" None
  = Throw (new_Error (PathUtils.relative_path_message "relative/path")).
Proof. vm_compute. reflexivity. Qed.

Example test_empty :
  @PathUtils.resolveBoardPath (posix_path "/work") (home_at "/home/user")
    "" (Some "/home/user/projects/myproject")
  = Return "/home/user/projects/myproject"
  ∧ @PathUtils.resolveBoardPath (posix_path "/work") (home_at "/home/user")
      "   " (Some "/home/user/projects/myproject")
    = Return "/home/user/projects/myproject"
  ∧ @PathUtils.resolveBoardPath (posix_path "/work") (home_at "/home/user") "" None
    = Throw (new_Error "Empty path provided").
Proof. repeat split; vm_compute; reflexivity. Qed.

(** ** Edits, undo and redo *)

Lemma makeEdit_resolved label editCallback this after events :
  editCallback this = (Return tt, after) →
  KanbnDocument.makeEdit label editCallback (this, events)
  = (Return tt,
     (after,
      events ++ [KanbnDocument.Change label
        (λ d, KanbnDocument.call_onUndoRedo
                (KanbnDocument.set_documentData (KanbnDocument._documentData this) d))
        (λ d, KanbnDocument.call_onUndoRedo
                (KanbnDocument.set_documentData (KanbnDocument._documentData after) d))])).
Proof. intros Hcb. unfold KanbnDocument.makeEdit. rewrite Hcb. reflexivity. Qed.

Lemma call_onUndoRedo_data d :
  KanbnDocument._documentData (KanbnDocument.call_onUndoRedo d) = KanbnDocument._documentData d.
Proof. unfold KanbnDocument.call_onUndoRedo. destruct (KanbnDocument._onUndoRedo d); reflexivity. Qed.

Lemma restore_data data d :
  KanbnDocument._documentData (KanbnDocument.call_onUndoRedo (KanbnDocument.set_documentData data d)) = data.
Proof. rewrite call_onUndoRedo_data. reflexivity. Qed.

(** An edit whose callback rejects fires nothing: the [await] throws
    before [fire] is reached. *)
Lemma makeEdit_rejected label editCallback this after e events :
  editCallback this = (Throw e, after) →
  KanbnDocument.makeEdit label editCallback (this, events) = (Throw e, (after, events)).
Proof. intros Hcb. unfold KanbnDocument.makeEdit. rewrite Hcb. reflexivity. Qed.

(** Undo and redo signal the refresh callback once each, when one is set. *)
Lemma undo_refreshes label editCallback this after events change later :
  KanbnDocument.makeEdit label editCallback (this, events)
  = (Return tt, (after, events ++ [change])) →
  KanbnDocument._onUndoRedo later = true →
  KanbnDocument.refreshes (KanbnDocument.undo change later) = S (KanbnDocument.refreshes later)
  ∧ KanbnDocument.refreshes (KanbnDocument.redo change later) = S (KanbnDocument.refreshes later).
Proof.
  unfold KanbnDocument.makeEdit.
  destruct (editCallback this) as [[[]|e] this'] eqn:Hcb; [|discriminate].
  intros Heq Hset. injection Heq as _ Hev.
  apply app_inj_tail in Hev as [_ <-]. simpl.
  unfold KanbnDocument.call_onUndoRedo, KanbnDocument.set_documentData. simpl.
  rewrite Hset. split; reflexivity.
Qed.

(** C5. For a [makeEdit] whose callback resolves, the change record that
    is fired undoes to the bytes the document held just before the callback
    ran, whatever the document holds when undo is called, and redo after
    that undo gives the bytes it held just after the callback finished. *)
Theorem makeEdit_undo_redo_round_trip
    (label : string) (editCallback : prog KanbnDocument.t unit)
    (this after : KanbnDocument.t) (events : list KanbnDocument.change) :
  editCallback this = (Return tt, after) →
  ∃ change,
    KanbnDocument.makeEdit label editCallback (this, events)
    = (Return tt, (after, events ++ [change]))
    ∧ KanbnDocument.label change = label
    ∧ (∀ later, KanbnDocument._documentData (KanbnDocument.undo change later)
                = KanbnDocument._documentData this)
    ∧ (∀ later, KanbnDocument._documentData (KanbnDocument.redo change (KanbnDocument.undo change later))
                = KanbnDocument._documentData after).
Proof.
  intros Hcb. eexists. split; [apply makeEdit_resolved, Hcb|].
  simpl. split; [reflexivity|]. split; intros later; apply restore_data.
Qed.

Lemma makeEdit_undo_redo_round_trip_witness :
  ∃ change,
    KanbnDocument.makeEdit "Update task content" sample_edit (sample_document, [])
    = (Return tt,
       (KanbnDocument.set_documentData (@TextEncoder_encode utf8 "# Task B") sample_document,
        [] ++ [change]))
    ∧ KanbnDocument.label change = "Update task content"
    ∧ (∀ later, KanbnDocument._documentData (KanbnDocument.undo change later)
                = KanbnDocument._documentData sample_document)
    ∧ (∀ later, KanbnDocument._documentData (KanbnDocument.redo change (KanbnDocument.undo change later))
                = KanbnDocument._documentData
                    (KanbnDocument.set_documentData (@TextEncoder_encode utf8 "# Task B") sample_document)).
Proof.
  apply (makeEdit_undo_redo_round_trip "Update task content" sample_edit
           sample_document _ []).
  reflexivity.
Defined.

(** C10. Every [makeEdit] whose callback resolves fires exactly one change
    record, with the label given; its undo restores the bytes the document
    held before the callback ran and its redo the bytes it held after,
    whatever the document holds when the host calls them.  So when the
    bytes are the same before and after, undo and redo both restore those
    very bytes.  This covers the callbacks of the [kanbn.move] handler,
    where a task-store failure that is an [Error] is caught and shown: the
    edit is still reported to the host. *)
Theorem makeEdit_fires_exactly_one_change
    (label : string) (this : KanbnDocument.t) (events : list KanbnDocument.change) :
  (∀ editCallback after,
     editCallback this = (Return tt, after) →
     ∃ change,
       KanbnDocument.makeEdit label editCallback (this, events)
       = (Return tt, (after, events ++ [change]))
       ∧ KanbnDocument.label change = label
       ∧ (∀ later, KanbnDocument._documentData (KanbnDocument.undo change later)
                   = KanbnDocument._documentData this)
       ∧ (∀ later, KanbnDocument._documentData (KanbnDocument.redo change later)
                   = KanbnDocument._documentData after)
       ∧ (KanbnDocument._documentData after = KanbnDocument._documentData this →
          ∀ later,
            KanbnDocument._documentData (KanbnDocument.undo change later)
            = KanbnDocument._documentData this
            ∧ KanbnDocument._documentData (KanbnDocument.redo change later)
              = KanbnDocument._documentData this))
  ∧ (∀ operation code message failed,
       operation this = (Throw (ErrorObject code message), failed) →
       ∃ change after,
         KanbnDocument.makeEdit label (KanbnDocument.guarded operation) (this, events)
         = (Return tt, (after, events ++ [change]))
         ∧ KanbnDocument.label change = label
         ∧ KanbnDocument._documentData after = KanbnDocument._documentData failed
         ∧ KanbnDocument.error_messages after = KanbnDocument.error_messages failed ++ [message]
         ∧ (∀ later, KanbnDocument._documentData (KanbnDocument.undo change later)
                     = KanbnDocument._documentData this)
         ∧ (∀ later, KanbnDocument._documentData (KanbnDocument.redo change later)
                     = KanbnDocument._documentData failed)
         ∧ (KanbnDocument._documentData failed = KanbnDocument._documentData this →
            ∀ later,
              KanbnDocument._documentData (KanbnDocument.undo change later)
              = KanbnDocument._documentData this
              ∧ KanbnDocument._documentData (KanbnDocument.redo change later)
                = KanbnDocument._documentData this)).
Proof.
  split.
  - intros editCallback after Hcb. eexists. split; [apply makeEdit_resolved, Hcb|].
    cbn [KanbnDocument.label KanbnDocument.undo KanbnDocument.redo].
    split; [reflexivity|].
    split; [intros later; apply restore_data|].
    split; [intros later; apply restore_data|].
    intros Hsame later. rewrite !restore_data. auto.
  - intros operation code message failed Hop.
    eexists. eexists. split.
    + apply makeEdit_resolved. unfold KanbnDocument.guarded, try_catch. rewrite Hop.
      reflexivity.
    + cbn [KanbnDocument.label KanbnDocument.undo KanbnDocument.redo
           KanbnDocument._documentData KanbnDocument.error_messages].
      split; [reflexivity|]. split; [reflexivity|]. split; [reflexivity|].
      split; [intros later; apply restore_data|].
      split; [intros later; apply restore_data|].
      intros Hsame later. rewrite !restore_data. auto.
Qed.

(** A move of a task that is not in the index: the failure is shown, the
    bytes stay, and one change is reported whose undo and redo both
    restore them. *)
Lemma makeEdit_fires_exactly_one_change_witness :
  ∃ change after,
    KanbnDocument.makeEdit "Move task missing" (KanbnDocument.guarded failing_move)
      (sample_document, [])
    = (Return tt, (after, [] ++ [change]))
    ∧ KanbnDocument.label change = "Move task missing"
    ∧ KanbnDocument._documentData after = KanbnDocument._documentData sample_document
    ∧ KanbnDocument.error_messages after
      = KanbnDocument.error_messages sample_document ++ ["No task found with id missing"]
    ∧ (∀ later, KanbnDocument._documentData (KanbnDocument.undo change later)
                = KanbnDocument._documentData sample_document)
    ∧ (∀ later, KanbnDocument._documentData (KanbnDocument.redo change later)
                = KanbnDocument._documentData sample_document)
    ∧ (KanbnDocument._documentData sample_document
       = KanbnDocument._documentData sample_document →
       ∀ later,
         KanbnDocument._documentData (KanbnDocument.undo change later)
         = KanbnDocument._documentData sample_document
         ∧ KanbnDocument._documentData (KanbnDocument.redo change later)
           = KanbnDocument._documentData sample_document).
Proof.
  apply (proj2 (makeEdit_fires_exactly_one_change "Move task missing"
                  sample_document [])
           failing_move None "No task found with id missing" sample_document).
  reflexivity.
Defined.

(** ** [mkdir] and [unlink] *)

Section MkdirUnlink.
Context `{PathApi} `{TextCodec} `{RealFs}.

(** The two adapters that write to disk share the code of [mkdir] and
    [unlink]. *)
Lemma multi_mkdir_eq (m : MultiDocAdapter.t) (a : DiskAdapter.t) dirPath options :
  MultiDocAdapter.mkdir m dirPath options = DiskAdapter.mkdir a dirPath options.
Proof. reflexivity. Qed.

Lemma multi_unlink_eq (m : MultiDocAdapter.t) (a : DiskAdapter.t) filePath :
  MultiDocAdapter.unlink m filePath = DiskAdapter.unlink a filePath.
Proof. reflexivity. Qed.

Lemma disk_mkdir_cases (a : DiskAdapter.t) dirPath options (h : host) :
  DiskAdapter.mkdir a dirPath options h
  = match fs_mkdir dirPath options (the_disk h) with
    | (Return _, d) => (Return tt, logged (CallMkdir dirPath options) d h)
    | (Throw e, d) =>
        (if bool_decide (error_code e = Some "EEXIST") then Return tt else Throw e,
         logged (CallMkdir dirPath options) d h)
    end.
Proof.
  unfold DiskAdapter.mkdir, try_catch, real_mkdir.
  destruct (fs_mkdir dirPath options (the_disk h)) as [[[]|e] d]; [reflexivity|].
  destruct (bool_decide (error_code e = Some "EEXIST")); reflexivity.
Qed.

Lemma disk_unlink_cases (a : DiskAdapter.t) filePath (h : host) :
  DiskAdapter.unlink a filePath h
  = match fs_unlink filePath (the_disk h) with
    | (Return _, d) => (Return tt, logged (CallUnlink filePath) d h)
    | (Throw e, d) =>
        (if bool_decide (error_code e = Some "ENOENT") then Return tt else Throw e,
         logged (CallUnlink filePath) d h)
    end.
Proof.
  unfold DiskAdapter.unlink, try_catch, real_unlink.
  destruct (fs_unlink filePath (the_disk h)) as [[[]|e] d]; [reflexivity|].
  destruct (bool_decide (error_code e = Some "ENOENT")); reflexivity.
Qed.

Lemma ordered_delete_absent {V} (m : OrderedMap.t V) key :
  OrderedMap.has m key = false → OrderedMap.delete m key = m.
Proof.
  unfold OrderedMap.has. induction m as [|[k v] m IH]; [reflexivity|]. simpl.
  destruct (String.eqb k key); [discriminate|]. intros Hm. rewrite IH; auto.
Qed.

(** What the claim takes for granted of the file system.  [is_directory]
    and [nothing_at] say what a path is on a disk: a directory, or a name
    that is free in a directory that exists.  [mkdir] of a directory
    leaves the disk as it is and either succeeds (with [recursive]) or
    fails with [EEXIST]; a [mkdir] that succeeds leaves a directory at the
    path; [unlink] of a free name leaves the disk as it is and fails with
    [ENOENT]. *)
Variable is_directory : string → disk → Prop.
Variable nothing_at : string → disk → Prop.

Hypothesis mkdir_of_directory :
  ∀ path options d,
    is_directory path d →
    (fs_mkdir path options d).2 = d
    ∧ ((fs_mkdir path options d).1 = Return tt
       ∨ ∃ e, (fs_mkdir path options d).1 = Throw e ∧ error_code e = Some "EEXIST").

Hypothesis mkdir_makes_directory :
  ∀ path options d,
    (fs_mkdir path options d).1 = Return tt →
    is_directory path (fs_mkdir path options d).2.

Hypothesis unlink_of_nothing :
  ∀ path d,
    nothing_at path d →
    (fs_unlink path d).2 = d
    ∧ ∃ e, (fs_unlink path d).1 = Throw e ∧ error_code e = Some "ENOENT".

(** C8. On the adapters that write to disk, [mkdir] and [unlink] make one
    call to the file system and return normally when that call succeeds;
    of its failures [mkdir] swallows those with the code [EEXIST] and
    [unlink] those with the code [ENOENT], and every other failure is
    thrown on unchanged.  So [mkdir] of a path where a directory exists
    returns normally and leaves the disk as it is, also right after a
    [mkdir] that made the directory; and [unlink] of a path where nothing
    is returns normally and leaves the disk and the documents as they are.
    On the in-memory adapter [mkdir] and [unlink] never throw and never
    touch the host; a second [mkdir] changes nothing; [unlink] fires a
    change event for the path every time, and when the path is in neither
    table it leaves both tables as they were. *)
Theorem mkdir_unlink_idempotent :
  (∀ (a : DiskAdapter.t) (m : MultiDocAdapter.t) dirPath options (h : host),
     MultiDocAdapter.mkdir m dirPath options h = DiskAdapter.mkdir a dirPath options h
     ∧ DiskAdapter.mkdir a dirPath options h
       = (match (fs_mkdir dirPath options (the_disk h)).1 with
          | Return _ => Return tt
          | Throw e =>
              if bool_decide (error_code e = Some "EEXIST") then Return tt else Throw e
          end,
          Host (buffers h) (fs_mkdir dirPath options (the_disk h)).2
               (disk_calls h ++ [CallMkdir dirPath options]))
     ∧ (is_directory dirPath (the_disk h) →
        (DiskAdapter.mkdir a dirPath options h).1 = Return tt
        ∧ the_disk (DiskAdapter.mkdir a dirPath options h).2 = the_disk h
        ∧ buffers (DiskAdapter.mkdir a dirPath options h).2 = buffers h)
     ∧ ((fs_mkdir dirPath options (the_disk h)).1 = Return tt →
        ∀ options',
          (DiskAdapter.mkdir a dirPath options'
             (DiskAdapter.mkdir a dirPath options h).2).1 = Return tt
          ∧ the_disk (DiskAdapter.mkdir a dirPath options'
                        (DiskAdapter.mkdir a dirPath options h).2).2
            = the_disk (DiskAdapter.mkdir a dirPath options h).2))
  ∧ (∀ (a : DiskAdapter.t) (m : MultiDocAdapter.t) filePath (h : host),
       MultiDocAdapter.unlink m filePath h = DiskAdapter.unlink a filePath h
       ∧ DiskAdapter.unlink a filePath h
         = (match (fs_unlink filePath (the_disk h)).1 with
            | Return _ => Return tt
            | Throw e =>
                if bool_decide (error_code e = Some "ENOENT") then Return tt else Throw e
            end,
            Host (buffers h) (fs_unlink filePath (the_disk h)).2
                 (disk_calls h ++ [CallUnlink filePath]))
       ∧ (nothing_at filePath (the_disk h) →
          (DiskAdapter.unlink a filePath h).1 = Return tt
          ∧ the_disk (DiskAdapter.unlink a filePath h).2 = the_disk h
          ∧ buffers (DiskAdapter.unlink a filePath h).2 = buffers h))
  ∧ (∀ (v : VirtualAdapter.t) (h : host) dirPath options,
       (VirtualAdapter.mkdir dirPath options (v, h)).1 = Return tt
       ∧ (VirtualAdapter.mkdir dirPath options (v, h)).2.2 = h
       ∧ ∀ options',
           VirtualAdapter.mkdir dirPath options'
             (VirtualAdapter.mkdir dirPath options (v, h)).2
           = (Return tt, (VirtualAdapter.mkdir dirPath options (v, h)).2))
  ∧ (∀ (v : VirtualAdapter.t) (h : host) filePath,
       (VirtualAdapter.unlink filePath (v, h)).1 = Return tt
       ∧ (VirtualAdapter.unlink filePath (v, h)).2.2 = h
       ∧ VirtualAdapter.fired (VirtualAdapter.unlink filePath (v, h)).2.1
         = VirtualAdapter.fired v ++ [filePath]
       ∧ (OrderedMap.has (VirtualAdapter.fileContentMap v)
            (VirtualAdapter.normalizePath filePath) = false →
          VirtualAdapter.fileExistsMap v !! VirtualAdapter.normalizePath filePath = None →
          VirtualAdapter.fileContentMap (VirtualAdapter.unlink filePath (v, h)).2.1
          = VirtualAdapter.fileContentMap v
          ∧ VirtualAdapter.fileExistsMap (VirtualAdapter.unlink filePath (v, h)).2.1
            = VirtualAdapter.fileExistsMap v)).
Proof.
  assert (Hmkdir : ∀ (a : DiskAdapter.t) dirPath options (h : host),
            DiskAdapter.mkdir a dirPath options h
            = (match (fs_mkdir dirPath options (the_disk h)).1 with
               | Return _ => Return tt
               | Throw e =>
                   if bool_decide (error_code e = Some "EEXIST") then Return tt else Throw e
               end,
               Host (buffers h) (fs_mkdir dirPath options (the_disk h)).2
                    (disk_calls h ++ [CallMkdir dirPath options]))).
  { intros a dirPath options h. rewrite disk_mkdir_cases.
    destruct (fs_mkdir dirPath options (the_disk h)) as [[[]|e] d]; reflexivity. }
  assert (Hexists : ∀ (a : DiskAdapter.t) dirPath options (h : host),
            is_directory dirPath (the_disk h) →
            (DiskAdapter.mkdir a dirPath options h).1 = Return tt
            ∧ the_disk (DiskAdapter.mkdir a dirPath options h).2 = the_disk h
            ∧ buffers (DiskAdapter.mkdir a dirPath options h).2 = buffers h).
  { intros a dirPath options h Hdir. rewrite Hmkdir.
    destruct (mkdir_of_directory dirPath options _ Hdir) as [Hdisk [Hr|(e & Hr & Hcode)]];
      cbn [fst snd the_disk buffers]; rewrite Hr.
    - auto.
    - rewrite bool_decide_eq_true_2 by exact Hcode. auto. }
  split; [|split; [|split]].
  - intros a m dirPath options h.
    split; [reflexivity|]. split; [apply Hmkdir|]. split; [apply Hexists|].
    intros Hmade options'.
    destruct (Hexists a dirPath options' (DiskAdapter.mkdir a dirPath options h).2)
      as (Hr & Hdisk & _).
    + rewrite Hmkdir. cbn [snd the_disk]. apply mkdir_makes_directory, Hmade.
    + auto.
  - intros a m filePath h.
    assert (Hunlink : DiskAdapter.unlink a filePath h
              = (match (fs_unlink filePath (the_disk h)).1 with
                 | Return _ => Return tt
                 | Throw e =>
                     if bool_decide (error_code e = Some "ENOENT")
                     then Return tt else Throw e
                 end,
                 Host (buffers h) (fs_unlink filePath (the_disk h)).2
                      (disk_calls h ++ [CallUnlink filePath]))).
    { rewrite disk_unlink_cases.
      destruct (fs_unlink filePath (the_disk h)) as [[[]|e] d]; reflexivity. }
    split; [reflexivity|]. split; [exact Hunlink|].
    intros Hnothing. rewrite Hunlink.
    destruct (unlink_of_nothing filePath _ Hnothing) as [Hdisk (e & Hr & Hcode)].
    cbn [fst snd the_disk buffers]. rewrite Hr.
    rewrite bool_decide_eq_true_2 by exact Hcode. auto.
  - intros v h dirPath options. split; [reflexivity|]. split; [reflexivity|].
    intros options'. unfold VirtualAdapter.mkdir, VirtualAdapter.update.
    cbn [snd VirtualAdapter.documentUri VirtualAdapter.getDocumentContent
         VirtualAdapter.setDocumentContent VirtualAdapter.fileContentMap
         VirtualAdapter.fileExistsMap VirtualAdapter.fired].
    rewrite insert_insert_eq. reflexivity.
  - intros v h filePath. split; [reflexivity|]. split; [reflexivity|].
    split; [reflexivity|].
    intros Hcontent Hexist.
    unfold VirtualAdapter.unlink, VirtualAdapter.update.
    cbn [fst snd VirtualAdapter.fileContentMap VirtualAdapter.fileExistsMap].
    split.
    + apply ordered_delete_absent, Hcontent.
    + apply delete_id, Hexist.
Qed.

End MkdirUnlink.

(** The small disk keeps the file system's side. *)
Lemma mem_mkdir_of_directory path options (d : MemDisk.t) :
  path ∈ MemDisk.dirs d →
  (MemDisk.mkdir path options d).2 = d
  ∧ ((MemDisk.mkdir path options d).1 = Return tt
     ∨ ∃ e, (MemDisk.mkdir path options d).1 = Throw e ∧ error_code e = Some "EEXIST").
Proof.
  intros Hdir. unfold MemDisk.mkdir. rewrite bool_decide_eq_true_2 by exact Hdir.
  destruct options as [[[]|]|]; (split; [reflexivity|]); eauto.
Qed.

Lemma mem_mkdir_makes_directory path options (d : MemDisk.t) :
  (MemDisk.mkdir path options d).1 = Return tt →
  path ∈ MemDisk.dirs (MemDisk.mkdir path options d).2.
Proof.
  unfold MemDisk.mkdir.
  destruct (bool_decide (path ∈ MemDisk.dirs d)) eqn:Hdir.
  - apply bool_decide_eq_true_1 in Hdir.
    destruct options as [[[]|]|]; cbn [fst snd]; (discriminate || auto).
  - destruct (bool_decide (is_Some (MemDisk.files d !! path))); cbn [fst snd];
      [discriminate|]. intros _. cbn [MemDisk.dirs]. set_solver.
Qed.

Lemma mem_unlink_of_nothing path (d : MemDisk.t) :
  MemDisk.files d !! path = None ∧ path ∉ MemDisk.dirs d →
  (MemDisk.unlink path d).2 = d
  ∧ ∃ e, (MemDisk.unlink path d).1 = Throw e ∧ error_code e = Some "ENOENT".
Proof.
  intros [Hfile Hdir]. unfold MemDisk.unlink. rewrite Hfile.
  rewrite bool_decide_eq_false_2 by exact Hdir. split; [reflexivity|]. eauto.
Qed.

(** On the small disk: [mkdir] of the tasks directory right after it was
    made meets [EEXIST] and returns normally all the same, and [unlink] of
    a task file that was never written meets [ENOENT] and returns normally,
    the disk being as before in both cases. *)
Lemma mkdir_unlink_idempotent_witness :
  let after_first :=
    (@DiskAdapter.mkdir mem_fs mkdir_adapter "/ws/.kanbn/tasks" None mkdir_host).2 in
  ((@DiskAdapter.mkdir mem_fs mkdir_adapter "/ws/.kanbn/tasks" None after_first).1
   = Return tt
   ∧ the_disk (@DiskAdapter.mkdir mem_fs mkdir_adapter "/ws/.kanbn/tasks" None
                 after_first).2
     = the_disk after_first)
  ∧ (@MultiDocAdapter.mkdir mem_fs mkdir_multi "/ws/.kanbn/tasks" None after_first
     = @DiskAdapter.mkdir mem_fs mkdir_adapter "/ws/.kanbn/tasks" None after_first)
  ∧ ((@DiskAdapter.unlink mem_fs mkdir_adapter "/ws/.kanbn/tasks/none.md" mkdir_host).1
     = Return tt
     ∧ the_disk (@DiskAdapter.unlink mem_fs mkdir_adapter "/ws/.kanbn/tasks/none.md"
                   mkdir_host).2
       = the_disk mkdir_host
     ∧ buffers (@DiskAdapter.unlink mem_fs mkdir_adapter "/ws/.kanbn/tasks/none.md"
                  mkdir_host).2
       = buffers mkdir_host).
Proof.
  intros after_first.
  pose proof (@mkdir_unlink_idempotent (posix_path "/work") mem_fs
                (λ path d, path ∈ MemDisk.dirs d)
                (λ path d, MemDisk.files d !! path = None ∧ path ∉ MemDisk.dirs d)
                mem_mkdir_of_directory mem_mkdir_makes_directory mem_unlink_of_nothing)
    as (Hmkdir & Hunlink & _).
  split; [|split].
  - apply (proj2 (proj2 (proj2 (Hmkdir mkdir_adapter mkdir_multi "/ws/.kanbn/tasks"
                                  None mkdir_host)))).
    vm_compute. reflexivity.
  - apply (proj1 (Hmkdir mkdir_adapter mkdir_multi "/ws/.kanbn/tasks" None after_first)).
  - apply (proj2 (proj2 (Hunlink mkdir_adapter mkdir_multi "/ws/.kanbn/tasks/none.md"
                           mkdir_host))).
    split; [vm_compute; reflexivity|]. cbn. set_solver.
Defined.

(** C8 as stated fails for [unlink] on the in-memory adapter: of a path
    that is in neither table and not on the disk it is no no-op, a change
    event is fired for the path and the adapter is not as it was. *)
Lemma virtual_unlink_of_missing_path_fires :
  let v := VirtualAdapter.constructor "/ws/.kanbn/index.md" (decode_document 0)
             (encode_into_document 0) in
  let after :=
    (@VirtualAdapter.unlink (posix_path "/work") mem_fs "/ws/.kanbn/tasks/none.md"
       (v, mkdir_host)).2 in
  OrderedMap.has (VirtualAdapter.fileContentMap v)
    (@VirtualAdapter.normalizePath (posix_path "/work") "/ws/.kanbn/tasks/none.md") = false
  ∧ VirtualAdapter.fileExistsMap v
    !! @VirtualAdapter.normalizePath (posix_path "/work") "/ws/.kanbn/tasks/none.md" = None
  ∧ @fs_readFile mem_fs "/ws/.kanbn/tasks/none.md" (the_disk mkdir_host)
    = Throw (MemDisk.system_error "ENOENT")
  ∧ VirtualAdapter.fired v = []
  ∧ VirtualAdapter.fired after.1 = ["/ws/.kanbn/tasks/none.md"]
  ∧ after ≠ (v, mkdir_host).
Proof.
  repeat split; try (vm_compute; reflexivity).
  intros Heq. apply (f_equal (λ st, VirtualAdapter.fired st.1)) in Heq.
  vm_compute in Heq. discriminate.
Qed.

(** ** Strings *)

Lemma app_cons a r s : String a r +:+ s = String a (r +:+ s).
Proof. reflexivity. Qed.

Lemma app_empty_l s : "" +:+ s = s.
Proof. reflexivity. Qed.

Lemma app_empty_r s : s +:+ "" = s.
Proof. induction s as [|a r IH]; [reflexivity|]. rewrite app_cons, IH. reflexivity. Qed.

Lemma app_assoc_string a b c : (a +:+ b) +:+ c = a +:+ (b +:+ c).
Proof. induction a as [|x a IH]; [reflexivity|]. rewrite !app_cons, IH. reflexivity. Qed.

Lemma app_eq_empty a b : a +:+ b = "" → a = "" ∧ b = "".
Proof. destruct a; [auto|]. rewrite app_cons. discriminate. Qed.

Lemma length_app a b :
  String.length (a +:+ b) = (String.length a + String.length b)%nat.
Proof. induction a as [|x a IH]; [reflexivity|]. rewrite app_cons. simpl. rewrite IH. reflexivity. Qed.

Lemma rev_onto_app s acc : Js.rev_onto s acc = Js.rev s +:+ acc.
Proof.
  unfold Js.rev. revert acc. induction s as [|a r IH]; intros acc; [reflexivity|].
  simpl. rewrite IH, (IH (String a "")), app_assoc_string. reflexivity.
Qed.

Lemma rev_cons a r : Js.rev (String a r) = Js.rev r +:+ String a "".
Proof. unfold Js.rev at 1. simpl. apply rev_onto_app. Qed.

Lemma rev_app a b : Js.rev (a +:+ b) = Js.rev b +:+ Js.rev a.
Proof.
  induction a as [|x a IH]; [rewrite app_empty_l; symmetry; apply app_empty_r|].
  rewrite app_cons, !rev_cons, IH, app_assoc_string. reflexivity.
Qed.

Lemma rev_involutive s : Js.rev (Js.rev s) = s.
Proof.
  induction s as [|a r IH]; [reflexivity|].
  rewrite rev_cons, rev_app, IH. reflexivity.
Qed.

Lemma rev_eq_empty s : Js.rev s = "" → s = "".
Proof. intros Hs. rewrite <- (rev_involutive s), Hs. reflexivity. Qed.

(** ** Blank paths *)

Lemma is_byte_eq a n : Js.is_byte a n = true → a = Js.char n.
Proof. apply Ascii.eqb_eq. Qed.

Ltac split_bools :=
  repeat match goal with
         | H : _ || _ = true |- _ => apply orb_true_iff in H as [H|H]
         | H : _ && _ = true |- _ => apply andb_true_iff in H as [? H]
         | H : Js.is_byte _ _ = true |- _ => apply is_byte_eq in H; subst
         end.

Lemma ws2_not_ws1 a b : Js.ws2 a b = true → Js.ws1 a = false.
Proof. unfold Js.ws2. intros Hw. split_bools. reflexivity. Qed.

Lemma ws3_not_ws1 a b c : Js.ws3 a b c = true → Js.ws1 a = false.
Proof. unfold Js.ws3. intros Hw. split_bools; reflexivity. Qed.

Lemma ws3_not_ws2 a b c : Js.ws3 a b c = true → Js.ws2 a b = false.
Proof. unfold Js.ws3. intros Hw. split_bools; reflexivity. Qed.

Lemma whitespace_only_app a b :
  Spec.whitespace_only a → Spec.whitespace_only b → Spec.whitespace_only (a +:+ b).
Proof.
  induction 1 as [|w s Hw Hs IH]; intros Hb; [exact Hb|].
  rewrite app_assoc_string. constructor; auto.
Qed.

Lemma whitespace_only_char w : Spec.whitespace_char w → Spec.whitespace_only w.
Proof.
  intros Hw. rewrite <- (app_empty_r w). constructor; [exact Hw|constructor].
Qed.

Lemma trimStart_whitespace_only s : Spec.whitespace_only s → Js.trimStart s = "".
Proof.
  induction 1 as [|w s Hw Hs IH]; [reflexivity|].
  destruct Hw as [a Ha|a b Hab|a b c Habc]; rewrite !app_cons, app_empty_l; simpl.
  - rewrite Ha. exact IH.
  - rewrite (ws2_not_ws1 _ _ Hab), Hab. exact IH.
  - rewrite (ws3_not_ws1 _ _ _ Habc), (ws3_not_ws2 _ _ _ Habc), Habc. exact IH.
Qed.

(** [trimStart] removes white space only. *)
Lemma trimStart_split_bounded n s :
  (String.length s ≤ n)%nat →
  ∃ w, Spec.whitespace_only w ∧ s = w +:+ Js.trimStart s.
Proof.
  revert s. induction n as [|n IH]; intros s Hn.
  { destruct s; [|simpl in Hn; lia]. exists "". split; [constructor|reflexivity]. }
  destruct s as [|a r]; [exists ""; split; [constructor|reflexivity]|].
  simpl in Hn. simpl.
  destruct (Js.ws1 a) eqn:Ha.
  { destruct (IH r) as (w & Hw & Hr); [lia|].
    exists (String a "" +:+ w). split.
    - constructor; [constructor; exact Ha|exact Hw].
    - rewrite app_assoc_string, app_cons, app_empty_l. f_equal. exact Hr. }
  destruct r as [|b r2]; [exists ""; split; [constructor|reflexivity]|].
  simpl in Hn.
  destruct (Js.ws2 a b) eqn:Hab.
  { destruct (IH r2) as (w & Hw & Hr); [lia|].
    exists (String a (String b "") +:+ w). split.
    - constructor; [constructor; exact Hab|exact Hw].
    - rewrite app_assoc_string, !app_cons, app_empty_l. do 2 f_equal. exact Hr. }
  destruct r2 as [|c r3]; [exists ""; split; [constructor|reflexivity]|].
  simpl in Hn.
  destruct (Js.ws3 a b c) eqn:Habc.
  { destruct (IH r3) as (w & Hw & Hr); [lia|].
    exists (String a (String b (String c "")) +:+ w). split.
    - constructor; [constructor; exact Habc|exact Hw].
    - rewrite app_assoc_string, !app_cons, app_empty_l. do 3 f_equal. exact Hr. }
  exists "". split; [constructor|reflexivity].
Qed.

Lemma trimStart_rev_empty_bounded n u :
  (String.length u ≤ n)%nat →
  Js.trimStart_rev u = "" → Spec.whitespace_only (Js.rev u).
Proof.
  revert u. induction n as [|n IH]; intros u Hn.
  { destruct u; [constructor|simpl in Hn; lia]. }
  destruct u as [|a r]; [constructor|].
  simpl in Hn. simpl.
  destruct (Js.ws1 a) eqn:Ha.
  { intros Hr. rewrite rev_cons. apply whitespace_only_app; [apply IH; [lia|exact Hr]|].
    apply whitespace_only_char. constructor. exact Ha. }
  destruct r as [|b r2]; [discriminate|].
  simpl in Hn.
  destruct (Js.ws2 b a) eqn:Hab.
  { intros Hr. rewrite !rev_cons, app_assoc_string.
    apply whitespace_only_app; [apply IH; [lia|exact Hr]|].
    apply whitespace_only_char. rewrite app_cons, app_empty_l.
    constructor. exact Hab. }
  destruct r2 as [|c r3]; [discriminate|].
  simpl in Hn.
  destruct (Js.ws3 c b a) eqn:Habc; [|discriminate].
  intros Hr. rewrite !rev_cons, !app_assoc_string.
  apply whitespace_only_app; [apply IH; [lia|exact Hr]|].
  apply whitespace_only_char. rewrite !app_cons, !app_empty_l.
  constructor. exact Habc.
Qed.

(** The test at the head of [resolveBoardPath] holds exactly for the empty
    and the white-space-only strings. *)
Lemma blank_test_iff s :
  Js.falsy s || String.eqb (Js.trim s) "" = true ↔ Spec.whitespace_only s.
Proof.
  split.
  - intros Ht. apply orb_true_iff in Ht as [Ht|Ht].
    + apply String.eqb_eq in Ht. subst. constructor.
    + apply String.eqb_eq in Ht. unfold Js.trim, Js.trimEnd in Ht.
      apply rev_eq_empty in Ht.
      apply (trimStart_rev_empty_bounded _ _ (Nat.le_refl _)) in Ht.
      rewrite rev_involutive in Ht.
      destruct (trimStart_split_bounded _ s (Nat.le_refl _)) as (w & Hw & Hs).
      rewrite Hs. apply whitespace_only_app; assumption.
  - intros Hs. apply orb_true_iff. right. apply String.eqb_eq.
    unfold Js.trim. rewrite (trimStart_whitespace_only _ Hs). reflexivity.
Qed.

Section BlankPath.
Context `{PathApi} `{OsApi}.

(** C6, as the code has it.  For an empty or white-space-only [rawPath]:
    a base that is a non-empty string is returned unchanged; a base that is
    [null] or the empty string makes the call fail with
    [Error("Empty path provided")].  Nothing else can happen. *)
Theorem resolveBoardPath_blank (rawPath : string) :
  Spec.whitespace_only rawPath →
  (∀ base, base ≠ "" →
     PathUtils.resolveBoardPath rawPath (Some base) = Return base)
  ∧ PathUtils.resolveBoardPath rawPath (Some "")
    = Throw (new_Error "Empty path provided")
  ∧ PathUtils.resolveBoardPath rawPath None
    = Throw (new_Error "Empty path provided").
Proof.
  intros Hblank. apply blank_test_iff in Hblank.
  unfold PathUtils.resolveBoardPath. rewrite Hblank.
  split; [|split; reflexivity].
  intros base Hbase. unfold Js.falsy.
  apply String.eqb_neq in Hbase. rewrite Hbase. reflexivity.
Qed.

End BlankPath.

(** Three spaces, as in the test suite, with a workspace folder. *)
Lemma resolveBoardPath_blank_witness :
  (∀ base, base ≠ "" →
     @PathUtils.resolveBoardPath (posix_path "/work") (home_at "/home/user")
       "   " (Some base) = Return base)
  ∧ @PathUtils.resolveBoardPath (posix_path "/work") (home_at "/home/user")
      "   " (Some "") = Throw (new_Error "Empty path provided")
  ∧ @PathUtils.resolveBoardPath (posix_path "/work") (home_at "/home/user")
      "   " None = Throw (new_Error "Empty path provided").
Proof.
  apply (@resolveBoardPath_blank (posix_path "/work") (home_at "/home/user") "   ").
  apply (Spec.whitespace_cons " " "  "); [constructor; reflexivity|].
  apply (Spec.whitespace_cons " " " "); [constructor; reflexivity|].
  apply (Spec.whitespace_cons " " ""); [constructor; reflexivity|].
  constructor.
Defined.

(** C6 as stated fails for the base [""], which is not [null]: the call
    throws instead of returning the base. *)
Lemma resolveBoardPath_blank_empty_base :
  @PathUtils.resolveBoardPath (posix_path "/work") (home_at "/home/user") "" (Some "")
  ≠ Return "".
Proof. vm_compute. discriminate. Qed.

(** ** The instance manager *)

Section ManagerFacts.
Import KanbnGlobalManager.

(** The two ways through [getKanbnForDocument]. *)
Lemma get_new this documentUri board g s :
  documentAdapters this !! board = None →
  kanbnInstances this !! board = None →
  getKanbnForDocument this documentUri board g s
  = (S (allocated this),
     State (<[board := S (allocated this)]> (kanbnInstances this))
           (<[board := Info (allocated this)
                         (<[documentUri := Cleanup (allocated this) documentUri]> ∅)]>
              (documentAdapters this))
           (<[allocated this := MultiDocAdapter.constructor documentUri g s]>
              (adapters this))
           (<[S (allocated this) := NewKanbn board (allocated this) (allocated this)]>
              (kanbns this))
           (S (S (allocated this)))).
Proof.
  intros Hda Hki. unfold getKanbnForDocument, get_or_create_adapter.
  rewrite Hda. simpl. rewrite Hki. simpl. rewrite insert_insert_eq. reflexivity.
Qed.

Lemma get_existing this documentUri board g s info kanbn :
  documentAdapters this !! board = Some info →
  kanbnInstances this !! board = Some kanbn →
  getKanbnForDocument this documentUri board g s
  = (kanbn,
     State (kanbnInstances this)
           (<[board := Info (adapter info)
                         (<[documentUri := Cleanup (adapter info) documentUri]>
                            (documentCallbacks info))]>
              (documentAdapters this))
           (alter (λ a, MultiDocAdapter.addDocumentCallbacks a documentUri g s)
                  (adapter info) (adapters this))
           (kanbns this)
           (allocated this)).
Proof.
  intros Hda Hki. unfold getKanbnForDocument, get_or_create_adapter.
  rewrite Hda. simpl. rewrite Hki. reflexivity.
Qed.

(** The three ways through [cleanupDocument]. *)
Lemma cleanup_unknown_board this documentUri board :
  documentAdapters this !! board = None →
  cleanupDocument this documentUri board = this.
Proof. intros Hda. unfold cleanupDocument. rewrite Hda. reflexivity. Qed.

Lemma cleanup_unknown_document this documentUri board info :
  documentAdapters this !! board = Some info →
  documentCallbacks info !! documentUri = None →
  documentCallbacks info ≠ ∅ →
  cleanupDocument this documentUri board = this.
Proof.
  intros Hda Hdoc Hne. unfold cleanupDocument. rewrite Hda, Hdoc.
  rewrite bool_decide_eq_false_2; [reflexivity|].
  intros Hsize. apply map_size_empty_inv in Hsize. contradiction.
Qed.

Lemma cleanup_known_document this documentUri board info c :
  documentAdapters this !! board = Some info →
  documentCallbacks info !! documentUri = Some c →
  cleanupDocument this documentUri board
  = if bool_decide (delete documentUri (documentCallbacks info) = ∅) then
      State (delete board (kanbnInstances this))
            (delete board (documentAdapters this))
            (alter (λ a, MultiDocAdapter.removeDocumentCallbacks a (captured_uri c))
                   (captured_adapter c) (adapters this))
            (kanbns this) (allocated this)
    else
      State (kanbnInstances this)
            (<[board := Info (adapter info)
                          (delete documentUri (documentCallbacks info))]>
               (documentAdapters this))
            (alter (λ a, MultiDocAdapter.removeDocumentCallbacks a (captured_uri c))
                   (captured_adapter c) (adapters this))
            (kanbns this) (allocated this).
Proof.
  intros Hda Hdoc. unfold cleanupDocument. rewrite Hda, Hdoc. simpl.
  destruct (decide (delete documentUri (documentCallbacks info) = ∅)) as [He|He].
  - rewrite (bool_decide_eq_true_2 _ He).
    rewrite bool_decide_eq_true_2 by (rewrite He; apply map_size_empty).
    rewrite delete_insert_eq. reflexivity.
  - rewrite (bool_decide_eq_false_2 _ He).
    rewrite bool_decide_eq_false_2; [reflexivity|].
    intros Hsize. apply map_size_empty_inv in Hsize. contradiction.
Qed.

End ManagerFacts.

Section ManagerInvariant.
Import KanbnGlobalManager.

Lemma initial_one_per_board : one_per_board initial.
Proof. intros board. unfold board_consistent. simpl. rewrite !lookup_empty. exact I. Qed.

Lemma initial_well_allocated : well_allocated initial.
Proof.
  split; intros k [x Hx]; simpl in Hx; rewrite lookup_empty in Hx; discriminate.
Qed.

(** What [one_per_board] says about a board, read off the two tables. *)
Lemma consistent_cases this board :
  board_consistent this board →
  (documentAdapters this !! board = None ∧ kanbnInstances this !! board = None)
  ∨ ∃ info kanbn,
      documentAdapters this !! board = Some info
      ∧ kanbnInstances this !! board = Some kanbn
      ∧ documentCallbacks info ≠ ∅
      ∧ kanbns this !! kanbn = Some (NewKanbn board (adapter info) (adapter info))
      ∧ is_Some (adapters this !! adapter info)
      ∧ map_Forall (λ uri c, c = Cleanup (adapter info) uri) (documentCallbacks info).
Proof.
  unfold board_consistent.
  destruct (documentAdapters this !! board) as [info|];
    destruct (kanbnInstances this !! board) as [kanbn|]; try contradiction.
  - intros (? & ? & ? & ?). right. exists info, kanbn. auto 10.
  - intros _. left. auto.
Qed.

Lemma get_preserves this documentUri board g s :
  one_per_board this → well_allocated this →
  one_per_board (getKanbnForDocument this documentUri board g s).2
  ∧ well_allocated (getKanbnForDocument this documentUri board g s).2.
Proof.
  intros Hone [Hk Ha].
  destruct (consistent_cases _ _ (Hone board))
    as [[Hda Hki]|(info & kanbn & Hda & Hki & Hne & Hobj & Had & Hcl)].
  - rewrite (get_new _ _ _ _ _ Hda Hki). simpl. split.
    + intros board'. unfold board_consistent. simpl.
      destruct (decide (board' = board)) as [->|Hb].
      * rewrite !lookup_insert_eq. simpl.
        split; [apply insert_non_empty|]. split; [reflexivity|].
        split; [eauto|].
        apply map_Forall_insert_2; [reflexivity|apply map_Forall_empty].
      * rewrite !lookup_insert_ne by congruence.
        destruct (consistent_cases _ _ (Hone board'))
          as [[Hda' Hki']|(info' & kanbn' & Hda' & Hki' & Hne' & Hobj' & Had' & Hcl')].
        -- rewrite Hda', Hki'. exact I.
        -- rewrite Hda', Hki'. split; [exact Hne'|]. split; [|split; [|exact Hcl']].
           ++ rewrite lookup_insert_ne; [exact Hobj'|].
              specialize (Hk kanbn' (ex_intro _ _ Hobj')). lia.
           ++ apply lookup_insert_is_Some'. right. exact Had'.
    + split; intros k Hsome; simpl in *.
      * apply lookup_insert_is_Some' in Hsome as [<-|Hsome]; [lia|].
        specialize (Hk k Hsome). lia.
      * apply lookup_insert_is_Some' in Hsome as [<-|Hsome]; [lia|].
        specialize (Ha k Hsome). lia.
  - rewrite (get_existing _ _ _ _ _ _ _ Hda Hki). simpl. split.
    + intros board'. unfold board_consistent. simpl.
      destruct (decide (board' = board)) as [->|Hb].
      * rewrite lookup_insert_eq, Hki. simpl.
        split; [apply insert_non_empty|]. split; [exact Hobj|].
        split; [apply lookup_alter_is_Some; exact Had|].
        apply map_Forall_insert_2; [reflexivity|exact Hcl].
      * rewrite lookup_insert_ne by congruence.
        destruct (consistent_cases _ _ (Hone board'))
          as [[Hda' Hki']|(info' & kanbn' & Hda' & Hki' & Hne' & Hobj' & Had' & Hcl')].
        -- rewrite Hda', Hki'. exact I.
        -- rewrite Hda', Hki'. split; [exact Hne'|]. split; [exact Hobj'|].
           split; [apply lookup_alter_is_Some; exact Had'|exact Hcl'].
    + split; [exact Hk|]. simpl.
      intros a Hsome. apply lookup_alter_is_Some in Hsome. auto.
Qed.

Lemma cleanup_preserves this documentUri board :
  one_per_board this → well_allocated this →
  one_per_board (cleanupDocument this documentUri board)
  ∧ well_allocated (cleanupDocument this documentUri board).
Proof.
  intros Hone [Hk Ha].
  destruct (consistent_cases _ _ (Hone board))
    as [[Hda Hki]|(info & kanbn & Hda & Hki & Hne & Hobj & Had & Hcl)].
  { rewrite (cleanup_unknown_board _ _ _ Hda). split; [exact Hone|split; assumption]. }
  destruct (documentCallbacks info !! documentUri) as [c|] eqn:Hdoc.
  2: { rewrite (cleanup_unknown_document _ _ _ _ Hda Hdoc Hne).
       split; [exact Hone|split; assumption]. }
  rewrite (cleanup_known_document _ _ _ _ _ Hda Hdoc).
  assert (Hother : ∀ st board',
            board' ≠ board →
            (∀ b, b ≠ board → documentAdapters st !! b = documentAdapters this !! b) →
            (∀ b, b ≠ board → kanbnInstances st !! b = kanbnInstances this !! b) →
            kanbns st = kanbns this →
            (∀ a, is_Some (adapters this !! a) → is_Some (adapters st !! a)) →
            board_consistent st board').
  { intros st board' Hb Hsame_da Hsame_ki Hsame_k Hsame_a.
    unfold board_consistent. rewrite (Hsame_da _ Hb), (Hsame_ki _ Hb), Hsame_k.
    destruct (consistent_cases _ _ (Hone board'))
      as [[Hda' Hki']|(info' & kanbn' & Hda' & Hki' & Hne' & Hobj' & Had' & Hcl')];
      rewrite Hda', Hki'; [exact I|].
    split; [exact Hne'|]. split; [exact Hobj'|]. split; [auto|exact Hcl']. }
  destruct (bool_decide (delete documentUri (documentCallbacks info) = ∅)) eqn:Hlast.
  - split.
    + intros board'. destruct (decide (board' = board)) as [->|Hb].
      * unfold board_consistent. simpl. rewrite !lookup_delete_eq. exact I.
      * apply Hother; simpl; auto.
        -- intros b Hb'. apply lookup_delete_ne. congruence.
        -- intros b Hb'. apply lookup_delete_ne. congruence.
        -- intros a Hsome. apply lookup_alter_is_Some. exact Hsome.
    + split; [exact Hk|]. simpl.
      intros a Hsome. apply lookup_alter_is_Some in Hsome. auto.
  - apply bool_decide_eq_false in Hlast. split.
    + intros board'. destruct (decide (board' = board)) as [->|Hb].
      * unfold board_consistent. simpl. rewrite lookup_insert_eq, Hki. simpl.
        split; [exact Hlast|]. split; [exact Hobj|].
        split; [apply lookup_alter_is_Some; exact Had|].
        apply map_Forall_delete. exact Hcl.
      * apply Hother; simpl; auto.
        -- intros b Hb'. apply lookup_insert_ne. congruence.
        -- intros a Hsome. apply lookup_alter_is_Some. exact Hsome.
    + split; [exact Hk|]. simpl.
      intros a Hsome. apply lookup_alter_is_Some in Hsome. auto.
Qed.

Lemma perform_preserves c this :
  one_per_board this → well_allocated this →
  one_per_board (perform c this).2 ∧ well_allocated (perform c this).2.
Proof.
  intros Hone Hwell. destruct c as [documentUri board g s|documentUri board]; simpl.
  - pose proof (get_preserves this documentUri board g s Hone Hwell) as Hget.
    destruct (getKanbnForDocument this documentUri board g s). exact Hget.
  - apply cleanup_preserves; assumption.
Qed.

Lemma reachable_consistent this :
  reachable this → one_per_board this ∧ well_allocated this.
Proof.
  induction 1 as [|c this Hreach [Hone Hwell]].
  - split; [apply initial_one_per_board|apply initial_well_allocated].
  - apply perform_preserves; assumption.
Qed.

End ManagerInvariant.

Section ManagerClaims.
Import KanbnGlobalManager.

Lemma registered_by this board info documentUri c :
  documentAdapters this !! board = Some info →
  documentCallbacks info !! documentUri = Some c →
  registered board this.
Proof.
  intros Hda Hdoc. exists info. split; [exact Hda|].
  intros He. rewrite He, lookup_empty in Hdoc. discriminate.
Qed.

Lemma registered_has_instance this board :
  one_per_board this → registered board this →
  ∃ kanbn, kanbnInstances this !! board = Some kanbn.
Proof.
  intros Hone (info & Hda & _).
  destruct (consistent_cases _ _ (Hone board)) as [[Hda' _]|(_ & kanbn & _ & Hki & _)].
  - congruence.
  - eauto.
Qed.

(** A call to [getKanbnForDocument] for a board that has a task store
    returns it, and no such call ever changes the task store of any board
    that has one. *)
Lemma get_returns_instance this documentUri board g s kanbn :
  one_per_board this →
  kanbnInstances this !! board = Some kanbn →
  (getKanbnForDocument this documentUri board g s).1 = kanbn.
Proof.
  intros Hone Hki.
  destruct (consistent_cases _ _ (Hone board)) as [[_ Hki']|(info & k & Hda & Hki' & _)].
  - congruence.
  - rewrite (get_existing _ _ _ _ _ _ _ Hda Hki'). simpl. congruence.
Qed.

Lemma get_keeps_instance this documentUri board' g s board kanbn :
  one_per_board this →
  kanbnInstances this !! board = Some kanbn →
  kanbnInstances (getKanbnForDocument this documentUri board' g s).2 !! board
  = Some kanbn.
Proof.
  intros Hone Hki.
  destruct (consistent_cases _ _ (Hone board'))
    as [[Hda' Hki']|(info & k & Hda' & Hki' & _)].
  - rewrite (get_new _ _ _ _ _ Hda' Hki'). simpl.
    rewrite lookup_insert_ne; [exact Hki|]. congruence.
  - rewrite (get_existing _ _ _ _ _ _ _ Hda' Hki'). exact Hki.
Qed.

Lemma get_registers this documentUri board g s :
  one_per_board this →
  kanbnInstances (getKanbnForDocument this documentUri board g s).2 !! board
  = Some (getKanbnForDocument this documentUri board g s).1.
Proof.
  intros Hone.
  destruct (consistent_cases _ _ (Hone board))
    as [[Hda Hki]|(info & k & Hda & Hki & _)].
  - rewrite (get_new _ _ _ _ _ Hda Hki). simpl. apply lookup_insert_eq.
  - rewrite (get_existing _ _ _ _ _ _ _ Hda Hki). exact Hki.
Qed.

(** [cleanupDocument] changes the task store of a board only by dropping
    the board altogether. *)
Lemma cleanup_keeps_instance this documentUri board' board kanbn :
  one_per_board this →
  kanbnInstances this !! board = Some kanbn →
  registered board (cleanupDocument this documentUri board') →
  kanbnInstances (cleanupDocument this documentUri board') !! board = Some kanbn.
Proof.
  intros Hone Hki (info' & Hda_after & _). revert Hda_after.
  destruct (consistent_cases _ _ (Hone board'))
    as [[Hda Hki']|(info & k & Hda & Hki' & Hne & _)].
  { rewrite (cleanup_unknown_board _ _ _ Hda). intros _. exact Hki. }
  destruct (documentCallbacks info !! documentUri) as [c|] eqn:Hdoc.
  2: { rewrite (cleanup_unknown_document _ _ _ _ Hda Hdoc Hne). intros _. exact Hki. }
  rewrite (cleanup_known_document _ _ _ _ _ Hda Hdoc).
  destruct (bool_decide (delete documentUri (documentCallbacks info) = ∅)); simpl.
  - destruct (decide (board = board')) as [->|Hb].
    + rewrite lookup_delete_eq. discriminate.
    + intros _. rewrite lookup_delete_ne by congruence. exact Hki.
  - intros _. exact Hki.
Qed.

Lemma same_instance_along calls : ∀ this board kanbn,
  one_per_board this → well_allocated this →
  kanbnInstances this !! board = Some kanbn →
  Forall (registered board) (states_after calls this) →
  Forall (λ k, k = kanbn) (returned_for board calls this)
  ∧ Forall (λ st, kanbnInstances st !! board = Some kanbn ∧ one_per_board st)
           (states_after calls this).
Proof.
  induction calls as [|c calls IH]; intros this board kanbn Hone Hwell Hki Hreg.
  { split; constructor. }
  simpl in Hreg. apply Forall_cons in Hreg as [Hreg1 Hreg].
  destruct (perform_preserves c this Hone Hwell) as [Hone' Hwell'].
  assert (Hki' : kanbnInstances (perform c this).2 !! board = Some kanbn).
  { destruct c as [documentUri board' g s|documentUri board']; simpl in *.
    - pose proof (get_keeps_instance this documentUri board' g s board kanbn Hone Hki).
      destruct (getKanbnForDocument this documentUri board' g s). assumption.
    - apply cleanup_keeps_instance; assumption. }
  destruct (IH _ _ _ Hone' Hwell' Hki' Hreg) as [IHret IHst].
  split.
  - simpl. destruct c as [documentUri board' g s|documentUri board']; simpl in *.
    + pose proof (get_returns_instance this documentUri board' g s) as Hret.
      destruct (getKanbnForDocument this documentUri board' g s) as [k st]. simpl in *.
      destruct (String.eqb_spec board' board) as [->|Hb]; [|exact IHret].
      constructor; [apply Hret; assumption|exact IHret].
    + exact IHret.
  - simpl. constructor; [split; assumption|exact IHst].
Qed.

(** C1. Take any state the manager can be in and a call
    [getKanbnForDocument] for board [board]; let further calls follow, of
    any kind and for any boards, documents and callbacks, such that after
    each of them at least one document is registered for [board].  Then
    every [getKanbnForDocument] for [board] among them returns the task
    store the first call returned, and in every state passed the manager
    holds for each board either nothing or exactly one adapter and one
    task store built on that adapter. *)
Theorem same_instance_while_registered
    (board documentUri : string) (g : getter) (s : setter)
    (calls : list call) (this : state) :
  reachable this →
  Forall (registered board)
         (states_after calls (getKanbnForDocument this documentUri board g s).2) →
  Forall (λ kanbn, kanbn = (getKanbnForDocument this documentUri board g s).1)
         (returned_for board (GetKanbnForDocument documentUri board g s :: calls) this)
  ∧ Forall (λ st, kanbnInstances st !! board
                  = Some (getKanbnForDocument this documentUri board g s).1
                  ∧ one_per_board st)
           (states_after (GetKanbnForDocument documentUri board g s :: calls) this).
Proof.
  intros Hreach Hreg.
  destruct (reachable_consistent _ Hreach) as [Hone Hwell].
  destruct (get_preserves this documentUri board g s Hone Hwell) as [Hone' Hwell'].
  pose proof (get_registers this documentUri board g s Hone) as Hki.
  destruct (same_instance_along calls _ _ _ Hone' Hwell' Hki Hreg) as [Hret Hst].
  simpl. destruct (getKanbnForDocument this documentUri board g s) as [k st].
  simpl in *. rewrite String.eqb_refl. split.
  - constructor; [reflexivity|exact Hret].
  - constructor; [split; assumption|exact Hst].
Qed.

(** Objects are never removed from the store, so an allocation number is
    never given out twice. *)
Lemma perform_keeps_objects c this :
  well_allocated this →
  (∀ k obj, kanbns this !! k = Some obj → kanbns (perform c this).2 !! k = Some obj)
  ∧ (∀ a, is_Some (adapters this !! a) → is_Some (adapters (perform c this).2 !! a)).
Proof.
  intros [Hk Ha].
  destruct c as [documentUri board g s|documentUri board]; simpl.
  - unfold getKanbnForDocument, get_or_create_adapter.
    destruct (documentAdapters this !! board) as [info|]; simpl;
      destruct (kanbnInstances this !! board) as [kanbn|]; simpl; split;
      intros x; intros; try assumption;
      try (apply lookup_alter_is_Some; assumption);
      try (apply lookup_insert_is_Some'; right; assumption).
    + rewrite lookup_insert_ne; [assumption|].
      assert (x < allocated this)%nat by eauto. lia.
    + rewrite lookup_insert_ne; [assumption|].
      assert (x < allocated this)%nat by eauto. lia.
  - unfold cleanupDocument.
    destruct (documentAdapters this !! board) as [info|]; [|auto].
    destruct (documentCallbacks info !! documentUri) as [c|]; simpl;
      match goal with |- context [bool_decide ?P] => destruct (bool_decide P) end;
      simpl; split; intros x; intros; try assumption;
      apply lookup_alter_is_Some; assumption.
Qed.

Lemma run_keeps_objects calls : ∀ this,
  one_per_board this → well_allocated this →
  (one_per_board (run calls this) ∧ well_allocated (run calls this))
  ∧ (∀ k obj, kanbns this !! k = Some obj → kanbns (run calls this) !! k = Some obj)
  ∧ (∀ a, is_Some (adapters this !! a) → is_Some (adapters (run calls this) !! a)).
Proof.
  induction calls as [|c calls IH]; intros this Hone Hwell; [auto|].
  destruct (perform_preserves c this Hone Hwell) as [Hone' Hwell'].
  destruct (perform_keeps_objects c this Hwell) as [Hk Ha].
  destruct (IH _ Hone' Hwell') as (Hinv & Hk' & Ha').
  unfold run in *. simpl. auto.
Qed.

(** C2. When [cleanupDocument] removes the last document registered for
    [board], the manager forgets both the adapter and the task store of the
    board.  Whatever calls follow, if [board] has no registration when
    [getKanbnForDocument] is next called for it, the call returns a task
    store object that did not exist before, built on an adapter object that
    did not exist before, and that adapter's callback table holds the
    calling document only. *)
Theorem last_cleanup_tears_down
    (board lastUri : string) (this : state) (info : DocumentAdapter) (kanbn : nat) :
  reachable this →
  documentAdapters this !! board = Some info →
  kanbnInstances this !! board = Some kanbn →
  dom (documentCallbacks info) = {[lastUri]} →
  documentAdapters (cleanupDocument this lastUri board) !! board = None
  ∧ kanbnInstances (cleanupDocument this lastUri board) !! board = None
  ∧ ∀ calls documentUri g s,
      documentAdapters (run calls (cleanupDocument this lastUri board)) !! board = None →
      ∃ fresh adapter final,
        getKanbnForDocument (run calls (cleanupDocument this lastUri board))
          documentUri board g s = (fresh, final)
        ∧ fresh ≠ kanbn
        ∧ kanbns (run calls (cleanupDocument this lastUri board)) !! fresh = None
        ∧ adapter ≠ KanbnGlobalManager.adapter info
        ∧ adapters (run calls (cleanupDocument this lastUri board)) !! adapter = None
        ∧ kanbnInstances final !! board = Some fresh
        ∧ kanbns final !! fresh = Some (NewKanbn board adapter adapter)
        ∧ documentAdapters final !! board
          = Some (Info adapter {[documentUri := Cleanup adapter documentUri]})
        ∧ adapters final !! adapter
          = Some (MultiDocAdapter.constructor documentUri g s)
        ∧ MultiDocAdapter.documentCallbacks
            (MultiDocAdapter.constructor documentUri g s)
          = {[documentUri := MultiDocAdapter.Callbacks g s]}.
Proof.
  intros Hreach Hda Hki Hdom.
  destruct (reachable_consistent _ Hreach) as [Hone Hwell].
  destruct (consistent_cases _ _ (Hone board))
    as [[Hda' _]|(info' & kanbn' & Hda' & Hki' & Hne & Hobj & Had & Hcl)];
    [congruence|].
  assert (info' = info) by congruence. assert (kanbn' = kanbn) by congruence.
  subst info' kanbn'.
  assert (Hlast : is_Some (documentCallbacks info !! lastUri)).
  { apply elem_of_dom. rewrite Hdom. apply elem_of_singleton. reflexivity. }
  destruct Hlast as [c Hc].
  assert (Hempty : delete lastUri (documentCallbacks info) = ∅).
  { apply dom_empty_inv_L. rewrite dom_delete_L, Hdom. apply difference_diag_L. }
  destruct (cleanup_preserves this lastUri board Hone Hwell) as [Hone1 Hwell1].
  assert (Hkeep1 : kanbns (cleanupDocument this lastUri board) = kanbns this
                   ∧ is_Some (adapters (cleanupDocument this lastUri board)
                              !! KanbnGlobalManager.adapter info)).
  { rewrite (cleanup_known_document _ _ _ _ _ Hda Hc).
    rewrite (bool_decide_eq_true_2 _ Hempty). simpl.
    split; [reflexivity|]. apply lookup_alter_is_Some. exact Had. }
  destruct Hkeep1 as [Hkanbns1 Had1].
  rewrite (cleanup_known_document _ _ _ _ _ Hda Hc) at 1 2.
  rewrite (bool_decide_eq_true_2 _ Hempty). simpl.
  split; [apply lookup_delete_eq|]. split; [apply lookup_delete_eq|].
  intros calls documentUri g s Hgone.
  destruct (run_keeps_objects calls _ Hone1 Hwell1) as ((Hone2 & Hwell2) & Hk2 & Ha2).
  set (later := run calls (cleanupDocument this lastUri board)) in *.
  destruct (consistent_cases _ _ (Hone2 board)) as [[_ Hki2]|(? & ? & Hda2 & _)];
    [|congruence].
  exists (S (allocated later)), (allocated later). eexists.
  split; [apply (get_new _ _ _ _ _ Hgone Hki2)|]. simpl.
  destruct Hwell2 as [Hwk Hwa].
  assert (Hold : kanbns later !! kanbn
                 = Some (NewKanbn board (KanbnGlobalManager.adapter info) (KanbnGlobalManager.adapter info))).
  { apply Hk2. rewrite Hkanbns1. exact Hobj. }
  assert (Hfresh_k : kanbns later !! S (allocated later) = None).
  { destruct (kanbns later !! S (allocated later)) eqn:Hx; [|reflexivity].
    assert (S (allocated later) < allocated later)%nat by eauto. lia. }
  assert (Hfresh_a : adapters later !! allocated later = None).
  { destruct (adapters later !! allocated later) eqn:Hx; [|reflexivity].
    assert (allocated later < allocated later)%nat by eauto. lia. }
  split; [intros <-; congruence|]. split; [exact Hfresh_k|].
  split.
  { intros Heq. specialize (Ha2 _ Had1). rewrite <- Heq, Hfresh_a in Ha2.
    destruct Ha2; discriminate. }
  split; [exact Hfresh_a|].
  rewrite !lookup_insert_eq, insert_empty.
  unfold MultiDocAdapter.constructor. simpl. rewrite insert_empty. auto 10.
Qed.

End ManagerClaims.

Lemma same_instance_while_registered_witness :
  Forall (λ kanbn,
            kanbn = (KanbnGlobalManager.getKanbnForDocument KanbnGlobalManager.initial task_a "/ws"
                       (decode_document 0) (encode_into_document 0)).1)
         (KanbnGlobalManager.returned_for "/ws"
            (KanbnGlobalManager.GetKanbnForDocument task_a "/ws"
               (decode_document 0) (encode_into_document 0) :: session)
            KanbnGlobalManager.initial)
  ∧ Forall (λ st,
              KanbnGlobalManager.kanbnInstances st !! "/ws"
              = Some (KanbnGlobalManager.getKanbnForDocument KanbnGlobalManager.initial task_a "/ws"
                        (decode_document 0) (encode_into_document 0)).1
              ∧ KanbnGlobalManager.one_per_board st)
           (KanbnGlobalManager.states_after
              (KanbnGlobalManager.GetKanbnForDocument task_a "/ws"
                 (decode_document 0) (encode_into_document 0) :: session)
              KanbnGlobalManager.initial).
Proof.
  apply same_instance_while_registered; [constructor|].
  unfold session. cbn [KanbnGlobalManager.states_after].
  repeat match goal with
         | |- Forall _ (_ :: _) => constructor
         | |- Forall _ [] => constructor
         end;
    (eapply (registered_by _ _ _ task_b); vm_compute; reflexivity).
Defined.

(** C1 as stated fails where it says that no two task stores or adapters
    ever exist for one board path.  With a board editor and a task editor
    open on the board [/ws], the board document has built an adapter of
    its own and the task document has got the manager's, and the two
    answer differently for the task file.  And once the task editor has
    been closed and opened again, the manager has built a second task
    store and a second adapter for [/ws], beside the ones the closed
    document still refers to. *)
Lemma two_instances_for_one_board :
  let board_adapter :=
    KanbnBoardEditorProvider.initializeForWebview 0 "/ws/.kanbn/index.md" in
  let opened :=
    @KanbnTaskDocument.initializeForWebview posix_parts 1 task_a
      KanbnGlobalManager.initial in
  let reopened :=
    @KanbnTaskDocument.initializeForWebview posix_parts 2 task_a
      (@KanbnTaskDocument.dispose posix_parts task_a opened.2) in
  let h : @host mem_fs :=
    @Host mem_fs {[0%nat := @TextEncoder_encode utf8 "# Board";
                   1%nat := @TextEncoder_encode utf8 "unsaved"]}
          (MemDisk.Disk {[task_a := "saved"]} ∅) [] in
  @KanbnBoardEditorProvider.boardPath posix_parts "/ws/.kanbn/index.md" = "/ws"
  ∧ @KanbnTaskDocument.boardPath posix_parts task_a = "/ws"
  ∧ KanbnGlobalManager.kanbnInstances opened.2 !! "/ws" = Some opened.1
  ∧ KanbnGlobalManager.kanbns opened.2 !! opened.1
    = Some (KanbnGlobalManager.NewKanbn "/ws" 0 0)
  ∧ KanbnGlobalManager.adapters opened.2 !! 0%nat
    = Some (MultiDocAdapter.constructor task_a (decode_document 1)
              (encode_into_document 1))
  ∧ (@MultiDocAdapter.readFile (posix_path "/work") utf8 mem_fs
       (MultiDocAdapter.constructor task_a (decode_document 1) (encode_into_document 1))
       task_a h).1 = Return "unsaved"
  ∧ (@DiskAdapter.readFile (posix_path "/work") utf8 mem_fs board_adapter task_a h).1
    = Return "saved"
  ∧ opened.1 ≠ reopened.1
  ∧ KanbnGlobalManager.kanbnInstances reopened.2 !! "/ws" = Some reopened.1
  ∧ KanbnGlobalManager.kanbns reopened.2 !! opened.1
    = Some (KanbnGlobalManager.NewKanbn "/ws" 0 0)
  ∧ KanbnGlobalManager.kanbns reopened.2 !! reopened.1
    = Some (KanbnGlobalManager.NewKanbn "/ws" 2 2)
  ∧ is_Some (KanbnGlobalManager.adapters reopened.2 !! 0%nat)
  ∧ is_Some (KanbnGlobalManager.adapters reopened.2 !! 2%nat).
Proof.
  repeat split; try (vm_compute; reflexivity); try (vm_compute; discriminate);
    apply (bool_decide_unpack _); vm_compute; exact I.
Qed.

Lemma last_cleanup_tears_down_witness :
  KanbnGlobalManager.documentAdapters (KanbnGlobalManager.cleanupDocument one_editor task_a "/ws") !! "/ws"
  = None
  ∧ KanbnGlobalManager.kanbnInstances (KanbnGlobalManager.cleanupDocument one_editor task_a "/ws") !! "/ws"
    = None
  ∧ ∀ calls documentUri g s,
      KanbnGlobalManager.documentAdapters
        (KanbnGlobalManager.run calls (KanbnGlobalManager.cleanupDocument one_editor task_a "/ws")) !! "/ws"
      = None →
      ∃ fresh adapter final,
        KanbnGlobalManager.getKanbnForDocument
          (KanbnGlobalManager.run calls (KanbnGlobalManager.cleanupDocument one_editor task_a "/ws"))
          documentUri "/ws" g s = (fresh, final)
        ∧ fresh ≠ 1%nat
        ∧ KanbnGlobalManager.kanbns
            (KanbnGlobalManager.run calls (KanbnGlobalManager.cleanupDocument one_editor task_a "/ws"))
          !! fresh = None
        ∧ adapter ≠ 0%nat
        ∧ KanbnGlobalManager.adapters
            (KanbnGlobalManager.run calls (KanbnGlobalManager.cleanupDocument one_editor task_a "/ws"))
          !! adapter = None
        ∧ KanbnGlobalManager.kanbnInstances final !! "/ws" = Some fresh
        ∧ KanbnGlobalManager.kanbns final !! fresh = Some (KanbnGlobalManager.NewKanbn "/ws" adapter adapter)
        ∧ KanbnGlobalManager.documentAdapters final !! "/ws"
          = Some (KanbnGlobalManager.Info adapter
                    {[documentUri := KanbnGlobalManager.Cleanup adapter documentUri]})
        ∧ KanbnGlobalManager.adapters final !! adapter
          = Some (MultiDocAdapter.constructor documentUri g s)
        ∧ MultiDocAdapter.documentCallbacks
            (MultiDocAdapter.constructor documentUri g s)
          = {[documentUri := MultiDocAdapter.Callbacks g s]}.
Proof.
  apply (last_cleanup_tears_down "/ws" task_a one_editor
           (KanbnGlobalManager.Info 0 {[task_a := KanbnGlobalManager.Cleanup 0 task_a]}) 1).
  - apply KanbnGlobalManager.reachable_perform, KanbnGlobalManager.reachable_initial.
  - vm_compute. reflexivity.
  - vm_compute. reflexivity.
  - apply dom_singleton_L.
Defined.

(** ** Live documents *)

Section LiveDocuments.
Context `{PathApi} `{TextCodec} `{RealFs}.

(** What the lookup by normalized path gives when it succeeds: the
    registered getter and setter are used and the disk is not called. *)
Lemma multi_readFile_found (a : MultiDocAdapter.t) filePath callbacks (h : host) :
  MultiDocAdapter.documentCallbacks a !! MultiDocAdapter.normalizePath filePath
  = Some callbacks →
  MultiDocAdapter.readFile a filePath h
  = (Return (call_getter (MultiDocAdapter.getContent callbacks) h), h)
  ∧ ∀ mode, MultiDocAdapter.access a filePath mode h = (Return tt, h).
Proof.
  intros Hfound. unfold MultiDocAdapter.readFile, MultiDocAdapter.access.
  rewrite Hfound. split; reflexivity.
Qed.

Lemma multi_writeFile_found (a : MultiDocAdapter.t) filePath data callbacks (h : host) :
  MultiDocAdapter.documentCallbacks a !! MultiDocAdapter.normalizePath filePath
  = Some callbacks →
  MultiDocAdapter.writeFile a filePath data h
  = (Return tt, call_setter (MultiDocAdapter.setContent callbacks) data h).
Proof. intros Hfound. unfold MultiDocAdapter.writeFile. rewrite Hfound. reflexivity. Qed.

Lemma multi_writeFile_not_found (a : MultiDocAdapter.t) filePath data (h : host) :
  MultiDocAdapter.documentCallbacks a !! MultiDocAdapter.normalizePath filePath = None →
  MultiDocAdapter.writeFile a filePath data h
  = ((fs_writeFile filePath data (the_disk h)).1,
     logged (CallWriteFile filePath data)
            (fs_writeFile filePath data (the_disk h)).2 h).
Proof.
  intros Hnone. unfold MultiDocAdapter.writeFile, try_catch, real_writeFile, throw.
  rewrite Hnone. destruct (fs_writeFile filePath data (the_disk h)) as [[[]|e] d];
    reflexivity.
Qed.

(** No setter touches the disk, and the setter of a document changes the
    buffer of that document and of no other. *)
Lemma call_setter_frame s data (h : host) :
  the_disk (call_setter s data h) = the_disk h
  ∧ disk_calls (call_setter s data h) = disk_calls h
  ∧ ∀ own d, s = encode_into_document own → d ≠ own →
             buffers (call_setter s data h) !! d = buffers h !! d.
Proof.
  destruct s as [d'| |write]; simpl; repeat split; auto; try discriminate.
  intros own d [= ->] Hd. apply lookup_insert_ne. congruence.
Qed.

(** The adapter with one live document compares normalized paths on both
    sides, so the document is found under any spelling of its path. *)
Lemma disk_writeFile_main (a : DiskAdapter.t) filePath data (h : host) :
  DiskAdapter.normalizePath filePath
  = DiskAdapter.normalizePath (DiskAdapter.documentUri a) →
  DiskAdapter.writeFile a filePath data h
  = (Return tt, call_setter (DiskAdapter.setDocumentContent a) data h)
  ∧ DiskAdapter.readFile a filePath h
    = (Return (call_getter (DiskAdapter.getDocumentContent a) h), h).
Proof.
  intros Hsame.
  unfold DiskAdapter.writeFile, DiskAdapter.readFile, DiskAdapter.isMainIndexFile.
  rewrite Hsame, String.eqb_refl. split; reflexivity.
Qed.

Lemma disk_writeFile_other (a : DiskAdapter.t) filePath data (h : host) :
  DiskAdapter.normalizePath filePath
  ≠ DiskAdapter.normalizePath (DiskAdapter.documentUri a) →
  DiskAdapter.writeFile a filePath data h
  = ((fs_writeFile filePath data (the_disk h)).1,
     logged (CallWriteFile filePath data)
            (fs_writeFile filePath data (the_disk h)).2 h).
Proof.
  intros Hother.
  unfold DiskAdapter.writeFile, DiskAdapter.isMainIndexFile, try_catch,
    real_writeFile, throw.
  apply String.eqb_neq in Hother. rewrite Hother.
  destruct (fs_writeFile filePath data (the_disk h)) as [[[]|e] d]; reflexivity.
Qed.

(** No normalized path holds a backslash, whatever [path.normalize] does. *)
Lemma replace_backslashes_clean s :
  Spec.contains Js.backslash (Js.replace_backslashes s) = false.
Proof.
  induction s as [|a r IH]; [reflexivity|]. simpl. rewrite IH, orb_false_r.
  destruct (Ascii.eqb a Js.backslash) eqn:Ha; [reflexivity|exact Ha].
Qed.

(** Hence a document registered under an [fsPath] with a backslash, as
    every [fsPath] is on Windows, is never found by the methods that look
    up the normalized path. *)
Lemma backslash_key_never_looked_up key filePath :
  Spec.contains Js.backslash key = true →
  MultiDocAdapter.normalizePath filePath ≠ key.
Proof.
  intros Hkey Heq. subst key. unfold MultiDocAdapter.normalizePath in Hkey.
  rewrite replace_backslashes_clean in Hkey. discriminate.
Qed.

End LiveDocuments.

(** C3 at a failing input.  The document is registered under its [fsPath]
    and its getter gives the unsaved text, yet [readFile] and [access] of
    that very path go to the disk: [readFile] returns the saved text. *)
Theorem readFile_registered_backslash_path :
  MultiDocAdapter.documentCallbacks windows_adapter !! windows_index
  = Some (MultiDocAdapter.Callbacks (decode_document 0) (encode_into_document 0))
  ∧ @call_getter utf8 mem_fs (decode_document 0) windows_host = "unsaved"
  ∧ @MultiDocAdapter.readFile (posix_path "/work") utf8 mem_fs
      windows_adapter windows_index windows_host
    = (Return "saved",
       @logged mem_fs (CallReadFile windows_index) (the_disk windows_host) windows_host)
  ∧ @MultiDocAdapter.access (posix_path "/work") mem_fs
      windows_adapter windows_index None windows_host
    = (Return tt,
       @logged mem_fs (CallAccess windows_index 6) (the_disk windows_host) windows_host).
Proof. repeat split; vm_compute; reflexivity. Qed.

(** C4 at the same input.  [writeFile] of the registered path writes to the
    disk and leaves the document's buffer as it was: the setter is not
    called. *)
Theorem writeFile_registered_backslash_path :
  let written :=
    @MultiDocAdapter.writeFile (posix_path "/work") utf8 mem_fs
      windows_adapter windows_index "edited" windows_host in
  MultiDocAdapter.documentCallbacks windows_adapter !! windows_index
  = Some (MultiDocAdapter.Callbacks (decode_document 0) (encode_into_document 0))
  ∧ written.1 = Return tt
  ∧ buffers written.2 = buffers windows_host
  ∧ disk_calls written.2 = [CallWriteFile windows_index "edited"]
  ∧ MemDisk.files (the_disk written.2) !! windows_index = Some "edited".
Proof. repeat split; vm_compute; reflexivity. Qed.

(** The adapter with one live document, on the same input: the document is
    found, read from its buffer and written through its setter. *)
Example single_document_backslash_path :
  let written :=
    @DiskAdapter.writeFile (posix_path "/work") utf8 mem_fs
      windows_single windows_index "edited" windows_host in
  (@DiskAdapter.readFile (posix_path "/work") utf8 mem_fs
     windows_single windows_index windows_host).1 = Return "unsaved"
  ∧ written.1 = Return tt
  ∧ buffers written.2 !! 0%nat = Some (@TextEncoder_encode utf8 "edited")
  ∧ disk_calls written.2 = [].
Proof. repeat split; vm_compute; reflexivity. Qed.

(** ** [glob] over the in-memory table *)

Lemma ordered_has_keys {V} (m : OrderedMap.t V) key :
  OrderedMap.has m key = true ↔ key ∈ OrderedMap.keys m.
Proof.
  unfold OrderedMap.has, OrderedMap.keys.
  induction m as [|[k v] m IH]; simpl.
  - split; [discriminate|]. intros Hin. apply elem_of_nil in Hin. contradiction.
  - destruct (String.eqb_spec k key) as [->|Hk].
    + split; [intros _; apply list_elem_of_here|reflexivity].
    + rewrite IH. split; [apply list_elem_of_further|].
      intros Hin. apply elem_of_cons in Hin as [Heq|Hin]; [congruence|exact Hin].
Qed.

Lemma ordered_set_keys {V} (m : OrderedMap.t V) key value :
  NoDup (OrderedMap.keys m) →
  NoDup (OrderedMap.keys (OrderedMap.set m key value))
  ∧ ∀ k, k ∈ OrderedMap.keys (OrderedMap.set m key value)
         ↔ k = key ∨ k ∈ OrderedMap.keys m.
Proof.
  unfold OrderedMap.keys. induction m as [|[k0 v0] m IH]; simpl; intros Hnd.
  - split; [apply NoDup_singleton|]. intros k. rewrite list_elem_of_singleton.
    split; [auto|]. intros [->|Hin]; [reflexivity|]. apply elem_of_nil in Hin.
    contradiction.
  - apply NoDup_cons in Hnd as [Hk0 Hnd]. destruct (IH Hnd) as [IHnd IHin].
    destruct (String.eqb_spec k0 key) as [->|Hk]; simpl.
    + split; [apply NoDup_cons; auto|]. intros k. rewrite elem_of_cons. tauto.
    + split.
      * apply NoDup_cons. split; [|exact IHnd]. rewrite IHin.
        intros [->|Hin]; [congruence|contradiction].
      * intros k. rewrite !elem_of_cons, IHin. tauto.
Qed.

Lemma ordered_delete_keys {V} (m : OrderedMap.t V) key :
  NoDup (OrderedMap.keys m) →
  NoDup (OrderedMap.keys (OrderedMap.delete m key))
  ∧ ∀ k, k ∈ OrderedMap.keys (OrderedMap.delete m key)
         ↔ k ≠ key ∧ k ∈ OrderedMap.keys m.
Proof.
  unfold OrderedMap.keys. induction m as [|[k0 v0] m IH]; simpl; intros Hnd.
  - split; [constructor|]. intros k. split; [|tauto].
    intros Hin. apply elem_of_nil in Hin. contradiction.
  - apply NoDup_cons in Hnd as [Hk0 Hnd]. destruct (IH Hnd) as [IHnd IHin].
    destruct (String.eqb_spec k0 key) as [->|Hk]; simpl.
    + split; [exact IHnd|]. intros k. rewrite IHin, elem_of_cons.
      split; [tauto|]. intros [Hne [->|Hin]]; [contradiction|tauto].
    + split.
      * apply NoDup_cons. split; [|exact IHnd]. rewrite IHin. tauto.
      * intros k. rewrite !elem_of_cons, IHin. split; [|tauto].
        intros [->|[Hne Hin]]; tauto.
Qed.

Section VirtualGlob.
Context `{PathApi} `{TextCodec} `{RealFs}.

(** The in-memory table never lists a path twice, whatever was written,
    renamed or deleted. *)
Lemma virtual_keys_nodup_preserved (this : VirtualAdapter.t) (h : host) :
  NoDup (OrderedMap.keys (VirtualAdapter.fileContentMap this)) →
  (∀ filePath data,
     NoDup (OrderedMap.keys (VirtualAdapter.fileContentMap
              (VirtualAdapter.writeFile filePath data (this, h)).2.1)))
  ∧ (∀ oldPath newPath,
       NoDup (OrderedMap.keys (VirtualAdapter.fileContentMap
                (VirtualAdapter.rename oldPath newPath (this, h)).2.1)))
  ∧ (∀ filePath,
       NoDup (OrderedMap.keys (VirtualAdapter.fileContentMap
                (VirtualAdapter.unlink filePath (this, h)).2.1))).
Proof.
  intros Hnd. repeat split.
  - intros filePath data. unfold VirtualAdapter.writeFile.
    destruct (VirtualAdapter.isMainIndexFile this _); simpl.
    + unfold VirtualAdapter.on_host, set_content. simpl. exact Hnd.
    + apply ordered_set_keys, Hnd.
  - intros oldPath newPath. unfold VirtualAdapter.rename.
    destruct (OrderedMap.get _ _); simpl; [|exact Hnd].
    apply ordered_delete_keys, ordered_set_keys, Hnd.
  - intros filePath. simpl. apply ordered_delete_keys, Hnd.
Qed.

(** C9, as the code has it.  [glob] returns first, and only when the last
    component of the pattern is exactly [*.md], the in-memory paths that
    start with the normalized directory part of the pattern and end in
    [.md]; then the real paths found by the real glob whose normalized form
    is not an in-memory path (none when the real glob fails).  The list has
    no path twice when the real glob lists none twice and every in-memory
    path is its own normal form. *)
Theorem virtual_glob_result (this : VirtualAdapter.t) (h : host) (pattern : string) :
  let lastSlash := Js.lastIndexOf pattern Js.slash in
  let directory := Js.substring pattern 0 lastSlash in
  let filePattern := Js.substring_from pattern (lastSlash + 1) in
  let memory :=
    if String.eqb filePattern "*.md"
    then VirtualAdapter.virtual_matches this directory else [] in
  let real :=
    match glob_promise pattern (the_disk h) with
    | Return realFiles => VirtualAdapter.unshadowed this realFiles
    | Throw _ => []
    end in
  (VirtualAdapter.glob pattern (this, h)).1 = Return (memory ++ real)
  ∧ (∀ path, path ∈ memory
             ↔ filePattern = "*.md"
               ∧ path ∈ OrderedMap.keys (VirtualAdapter.fileContentMap this)
               ∧ Js.startsWith path (VirtualAdapter.normalizePath directory) = true
               ∧ Js.endsWith path ".md" = true)
  ∧ (∀ path, path ∈ real
             ↔ ∃ realFiles,
                 glob_promise pattern (the_disk h) = Return realFiles
                 ∧ path ∈ realFiles
                 ∧ VirtualAdapter.normalizePath path
                   ∉ OrderedMap.keys (VirtualAdapter.fileContentMap this))
  ∧ (NoDup (OrderedMap.keys (VirtualAdapter.fileContentMap this)) →
     (∀ realFiles, glob_promise pattern (the_disk h) = Return realFiles →
                   NoDup realFiles) →
     (∀ key, key ∈ OrderedMap.keys (VirtualAdapter.fileContentMap this) →
             VirtualAdapter.normalizePath key = key) →
     NoDup (memory ++ real)).
Proof.
  intros lastSlash directory filePattern memory real.
  assert (Hmem : ∀ path, path ∈ memory
             ↔ filePattern = "*.md"
               ∧ path ∈ OrderedMap.keys (VirtualAdapter.fileContentMap this)
               ∧ Js.startsWith path (VirtualAdapter.normalizePath directory) = true
               ∧ Js.endsWith path ".md" = true).
  { intros path. unfold memory.
    destruct (String.eqb_spec filePattern "*.md") as [Hp|Hp].
    - unfold VirtualAdapter.virtual_matches. rewrite list_elem_of_filter. tauto.
    - split; [|tauto]. intros Hin. apply elem_of_nil in Hin. contradiction. }
  assert (Hreal : ∀ path, path ∈ real
             ↔ ∃ realFiles,
                 glob_promise pattern (the_disk h) = Return realFiles
                 ∧ path ∈ realFiles
                 ∧ VirtualAdapter.normalizePath path
                   ∉ OrderedMap.keys (VirtualAdapter.fileContentMap this)).
  { intros path. unfold real.
    destruct (glob_promise pattern (the_disk h)) as [realFiles|e].
    - unfold VirtualAdapter.unshadowed. rewrite list_elem_of_filter. split.
      + intros [Hsh Hin]. exists realFiles. split; [reflexivity|]. split; [exact Hin|].
        rewrite <- ordered_has_keys, Hsh. discriminate.
      + intros (files & Heq & Hin & Hsh). injection Heq as <-. split; [|exact Hin].
        apply not_true_iff_false. rewrite ordered_has_keys. exact Hsh.
    - split; [intros Hin; apply elem_of_nil in Hin; contradiction|].
      intros (files & Heq & _). discriminate. }
  split; [|split; [exact Hmem|split; [exact Hreal|]]].
  - unfold VirtualAdapter.glob, VirtualAdapter.on_host, try_catch, real_glob.
    fold lastSlash. fold directory. fold filePattern. fold memory.
    unfold mbind, prog_bind, bind, mret, prog_ret, ret, real. simpl.
    destruct (glob_promise pattern (the_disk h)); simpl;
      [reflexivity|rewrite app_nil_r; reflexivity].
  - intros Hkeys Hfiles Hnormal. apply NoDup_app. split; [|split].
    + unfold memory. destruct (String.eqb filePattern "*.md"); [|constructor].
      apply NoDup_filter, Hkeys.
    + intros path Hin Hin'. apply Hmem in Hin as (_ & Hkey & _).
      apply Hreal in Hin' as (_ & _ & _ & Hsh).
      rewrite (Hnormal _ Hkey) in Hsh. contradiction.
    + unfold real. destruct (glob_promise pattern (the_disk h)) as [realFiles|e] eqn:Hg;
        [|constructor].
      apply NoDup_filter, (Hfiles _ eq_refl).
Qed.

End VirtualGlob.

(** C9 as stated fails: the note is held in memory and matches the
    pattern, the disk has nothing, and [glob] returns the empty list. *)
Lemma virtual_glob_misses_memory_entry :
  (@VirtualAdapter.glob (posix_path "/work") mem_fs "/ws/*.txt" notes_adapter).1
  = Return []
  ∧ @glob_promise mem_fs "/ws/*.txt" (the_disk notes_adapter.2) = Return []
  ∧ OrderedMap.keys (VirtualAdapter.fileContentMap notes_adapter.1) = ["/ws/notes.txt"]
  ∧ ¬ Spec.glob_union [] ["/ws/notes.txt"] "/ws/*.txt" [].
Proof.
  repeat split; try (vm_compute; reflexivity).
  intros [Hunion _]. specialize (Hunion "/ws/notes.txt").
  destruct Hunion as [_ Hin].
  assert (Hnil : "/ws/notes.txt" ∈ @nil string).
  { apply Hin. right. split; [apply list_elem_of_here|vm_compute; reflexivity]. }
  apply elem_of_nil in Hnil. exact Hnil.
Qed.

Lemma virtual_glob_result_witness :
  (@VirtualAdapter.glob (posix_path "/work") mem_fs "/ws/.kanbn/tasks/*.md"
     tasks_adapter).1
  = Return ["/ws/.kanbn/tasks/a.md"; "/ws/.kanbn/tasks/b.md"; "/ws/.kanbn/tasks/c.md"]
  ∧ NoDup ["/ws/.kanbn/tasks/a.md"; "/ws/.kanbn/tasks/b.md"; "/ws/.kanbn/tasks/c.md"].
Proof.
  pose proof (@virtual_glob_result (posix_path "/work") mem_fs
                tasks_adapter.1 tasks_adapter.2 "/ws/.kanbn/tasks/*.md")
    as (Hresult & _ & _ & Hnodup).
  split.
  - vm_compute. reflexivity.
  - assert (Hkeys : NoDup (OrderedMap.keys
                             (VirtualAdapter.fileContentMap tasks_adapter.1))).
    { apply (bool_decide_unpack _). vm_compute. exact I. }
    assert (Hfiles : ∀ realFiles,
               @glob_promise mem_fs "/ws/.kanbn/tasks/*.md" (the_disk tasks_adapter.2)
               = Return realFiles → NoDup realFiles).
    { intros realFiles Hfiles. vm_compute in Hfiles. injection Hfiles as <-.
      apply (bool_decide_unpack _). vm_compute. exact I. }
    assert (Hnormal : ∀ key,
               key ∈ OrderedMap.keys (VirtualAdapter.fileContentMap tasks_adapter.1) →
               @VirtualAdapter.normalizePath (posix_path "/work") key = key).
    { intros key Hkey. vm_compute in Hkey.
      apply elem_of_cons in Hkey as [->|Hkey]; [vm_compute; reflexivity|].
      apply elem_of_cons in Hkey as [->|Hkey]; [vm_compute; reflexivity|].
      apply elem_of_nil in Hkey. contradiction. }
    pose proof (Hnodup Hkeys Hfiles Hnormal) as Hnd.
    vm_compute in Hnd. exact Hnd.
Defined.

(** ** Indices into strings *)

Lemma js_length_app a b : Js.length (a +:+ b) = Js.length a + Js.length b.
Proof. unfold Js.length. rewrite length_app. lia. Qed.

Lemma js_length_nonneg s : 0 ≤ Js.length s.
Proof. unfold Js.length. lia. Qed.

Lemma js_length_cons c s : Js.length (String c s) = 1 + Js.length s.
Proof. unfold Js.length. simpl. lia. Qed.

Lemma js_length_zero s : Js.length s = 0 → s = "".
Proof. destruct s; [reflexivity|]. rewrite js_length_cons. pose proof (js_length_nonneg s). lia. Qed.

Lemma substring_prefix b c :
  String.substring 0 (String.length b) (b +:+ c) = b.
Proof.
  induction b as [|x b IH]; [destruct c; reflexivity|].
  rewrite app_cons. simpl. rewrite IH. reflexivity.
Qed.

Lemma substring_skip a m s :
  String.substring (String.length a) m (a +:+ s) = String.substring 0 m s.
Proof. induction a as [|x a IH]; [reflexivity|]. rewrite app_cons. simpl. exact IH. Qed.

(** [slice] between two in-range indices cuts out the middle. *)
Lemma slice_middle a b c :
  Js.slice (a +:+ b +:+ c) (Js.length a) (Js.length a + Js.length b) = b.
Proof.
  unfold Js.slice, Js.relative_index.
  rewrite !js_length_app.
  pose proof (js_length_nonneg a). pose proof (js_length_nonneg b).
  pose proof (js_length_nonneg c).
  rewrite !(proj2 (Z.ltb_ge _ _)) by lia.
  rewrite !Z.min_l by lia. rewrite Z.max_l by lia.
  replace (Js.length a + Js.length b - Js.length a) with (Js.length b) by lia.
  unfold Js.length. rewrite !Nat2Z.id.
  rewrite substring_skip. apply substring_prefix.
Qed.

Lemma slice_prefix a b : Js.slice (a +:+ b) 0 (Js.length a) = a.
Proof.
  pose proof (slice_middle "" a b) as Hs.
  rewrite !app_empty_l in Hs. exact Hs.
Qed.

Lemma contains_app c a b :
  Spec.contains c (a +:+ b) = Spec.contains c a || Spec.contains c b.
Proof.
  induction a as [|x a IH]; [reflexivity|].
  rewrite app_cons. simpl. rewrite IH, orb_assoc. reflexivity.
Qed.

Lemma lastIndexOf_bounds s c : -1 ≤ Js.lastIndexOf s c < Js.length s.
Proof.
  induction s as [|x s IH]; [unfold Js.length; simpl; lia|].
  rewrite js_length_cons. simpl.
  destruct (Js.lastIndexOf s c =? -1) eqn:Hk.
  - destruct (Ascii.eqb x c); pose proof (js_length_nonneg s); lia.
  - lia.
Qed.

Lemma lastIndexOf_absent s c :
  Spec.contains c s = false ↔ Js.lastIndexOf s c = -1.
Proof.
  induction s as [|x s IH]; [simpl; tauto|]. simpl.
  pose proof (lastIndexOf_bounds s c).
  destruct (Js.lastIndexOf s c =? -1) eqn:Hk.
  - apply Z.eqb_eq in Hk. destruct (Ascii.eqb x c); simpl.
    + split; [discriminate|lia].
    + rewrite IH. tauto.
  - apply Z.eqb_neq in Hk. rewrite orb_false_iff, IH. split; [tauto|lia].
Qed.

(** The last occurrence of [c] is the one after which no [c] comes. *)
Lemma lastIndexOf_last a b c :
  Spec.contains c b = false →
  Js.lastIndexOf (a +:+ String c b) c = Js.length a.
Proof.
  intros Hb. induction a as [|x a IH].
  - rewrite app_empty_l. simpl. apply lastIndexOf_absent in Hb. rewrite Hb. simpl.
    rewrite Ascii.eqb_refl. reflexivity.
  - rewrite app_cons, js_length_cons. simpl. rewrite IH.
    pose proof (js_length_nonneg a).
    rewrite (proj2 (Z.eqb_neq _ _)) by lia. lia.
Qed.

Lemma charCodeAt_app a x b :
  Js.charCodeAt (a +:+ String x b) (Js.length a) = Some x.
Proof.
  unfold Js.charCodeAt. pose proof (js_length_nonneg a).
  rewrite (proj2 (Z.ltb_ge _ _)) by lia.
  unfold Js.length. rewrite Nat2Z.id.
  induction a as [|y a IH]; [reflexivity|]. rewrite app_cons. simpl. apply IH.
  unfold Js.length. lia.
Qed.

(** Every string is empty or ends in some character. *)
Lemma string_last_cases s : s = "" ∨ ∃ r x, s = r +:+ String x "".
Proof.
  induction s as [|y s IH]; [auto|]. right.
  destruct IH as [->|(r & x & ->)].
  - exists "", y. reflexivity.
  - exists (String y r), x. reflexivity.
Qed.

Lemma string_of_length_2 s :
  Js.length s = 2 → ∃ x y, s = String x (String y "").
Proof.
  destruct s as [|x [|y [|z s]]]; unfold Js.length; simpl; try lia.
  eauto.
Qed.

(** ** Stacks of segments *)

Lemma joined_one x : Spec.joined [x] = x.
Proof. reflexivity. Qed.

Lemma joined_cons x y stack :
  Spec.joined (x :: y :: stack) = x +:+ "/" +:+ Spec.joined (y :: stack).
Proof. reflexivity. Qed.

Lemma joined_snoc stack x :
  Spec.joined (stack ++ [x])
  = match stack with [] => x | _ => Spec.joined stack +:+ "/" +:+ x end.
Proof.
  induction stack as [|y stack IH]; [reflexivity|].
  destruct stack as [|z stack]; [reflexivity|].
  cbn [app] in *. rewrite joined_cons, IH, joined_cons, !app_assoc_string.
  reflexivity.
Qed.

Lemma snoc_cases {A} (l : list A) : l = [] ∨ ∃ l' x, l = l' ++ [x].
Proof.
  induction l as [|y l IH]; [auto|]. right.
  destruct IH as [->|(l' & x & ->)].
  - exists [], y. reflexivity.
  - exists (y :: l'), x. reflexivity.
Qed.

Lemma clean_snoc stack x :
  clean (stack ++ [x]) ↔ clean stack ∧ x ≠ "" ∧ Spec.contains Js.slash x = false.
Proof.
  unfold clean. rewrite Forall_app, Forall_singleton. tauto.
Qed.

Lemma joined_nonempty stack :
  clean stack → stack ≠ [] → 1 ≤ Js.length (Spec.joined stack).
Proof.
  intros Hclean Hne. destruct (snoc_cases stack) as [->|(s0 & top & ->)];
    [contradiction|].
  apply clean_snoc in Hclean as (_ & Htop & _).
  rewrite joined_snoc.
  assert (1 ≤ Js.length top).
  { destruct top; [contradiction|]. rewrite js_length_cons.
    pose proof (js_length_nonneg top). lia. }
  destruct s0; [assumption|].
  rewrite !js_length_app. change (Js.length "/") with 1.
  pose proof (js_length_nonneg (Spec.joined (s :: s0))). lia.
Qed.

Lemma joined_empty stack : clean stack → Js.length (Spec.joined stack) = 0 → stack = [].
Proof.
  intros Hclean Hlen. destruct stack as [|x stack]; [reflexivity|].
  pose proof (joined_nonempty _ Hclean ltac:(discriminate)). lia.
Qed.

(** ** The [dots] counter *)

Lemma dots_from_snoc cur : ∀ d c,
  Spec.dots_from d (cur +:+ String c "")
  = if Ascii.eqb c Js.dot && negb (Spec.dots_from d cur =? -1)
    then Spec.dots_from d cur + 1 else -1.
Proof.
  induction cur as [|x cur IH]; intros d c; [reflexivity|].
  rewrite app_cons. simpl. apply IH.
Qed.

Lemma dots_from_stuck cur : Spec.dots_from (-1) cur = -1.
Proof.
  induction cur as [|x cur IH]; [reflexivity|]. simpl.
  rewrite andb_false_r. exact IH.
Qed.

Lemma dots_from_counts cur : ∀ d,
  0 ≤ d →
  Spec.dots_from d cur = -1
  ∨ (Spec.dots_from d cur = d + Js.length cur
     ∧ ∀ k x, Js.charCodeAt cur k = Some x → x = Js.dot).
Proof.
  induction cur as [|x cur IH]; intros d Hd.
  - right. split; [unfold Js.length; simpl; lia|].
    intros k y. unfold Js.charCodeAt. destruct (k <? 0); [discriminate|].
    destruct (Z.to_nat k); discriminate.
  - simpl. destruct (Ascii.eqb x Js.dot) eqn:Hx; simpl.
    + rewrite (proj2 (Z.eqb_neq d (-1))) by lia. simpl.
      destruct (IH (d + 1)) as [Hneg|[Hcount Hall]]; [lia|auto|].
      right. rewrite js_length_cons. split; [lia|].
      intros k y. unfold Js.charCodeAt.
      destruct (k <? 0) eqn:Hk; [discriminate|]. apply Z.ltb_ge in Hk.
      destruct (Z.to_nat k) as [|n] eqn:Hn; simpl.
      * intros [= <-]. apply Ascii.eqb_eq. exact Hx.
      * intros Hget. apply (Hall (Z.of_nat n)). unfold Js.charCodeAt.
        rewrite (proj2 (Z.ltb_ge _ _)) by lia. rewrite Nat2Z.id. exact Hget.
    + left. apply dots_from_stuck.
Qed.

Lemma dots_one cur : Spec.dots_from 0 cur = 1 → cur = ".".
Proof.
  intros Hd. destruct (dots_from_counts cur 0) as [Hneg|[Hcount Hall]]; [lia|lia|].
  rewrite Hd in Hcount.
  destruct cur as [|x [|y cur]]; unfold Js.length in Hcount; simpl in Hcount; try lia.
  rewrite (Hall 0 x eq_refl). reflexivity.
Qed.

Lemma dots_two cur : Spec.dots_from 0 cur = 2 → cur = "..".
Proof.
  intros Hd. destruct (dots_from_counts cur 0) as [Hneg|[Hcount Hall]]; [lia|lia|].
  rewrite Hd in Hcount.
  destruct cur as [|x [|y [|z cur]]]; unfold Js.length in Hcount; simpl in Hcount;
    try lia.
  rewrite (Hall 0 x eq_refl), (Hall 1 y eq_refl). reflexivity.
Qed.

(** ** [normalizeString] walks the segments *)

Lemma walk_skip allow stack cur :
  cur = "" ∨ cur = "." → Spec.walk allow stack cur = stack.
Proof. intros [->| ->]; reflexivity. Qed.

Lemma walk_push allow stack cur :
  cur ≠ "" → cur ≠ "." → cur ≠ ".." → Spec.walk allow stack cur = stack ++ [cur].
Proof.
  intros H0 H1 H2. unfold Spec.walk.
  apply String.eqb_neq in H0, H1, H2. rewrite H0, H1, H2. reflexivity.
Qed.

Lemma walk_up_empty allow :
  Spec.walk allow [] ".." = if allow then [".."] else [].
Proof. reflexivity. Qed.

Lemma walk_up_parent allow stack top :
  Spec.walk allow (stack ++ [top]) ".."
  = if String.eqb top ".." then (if allow then (stack ++ [top]) ++ [".."] else stack ++ [top])
    else stack.
Proof.
  unfold Spec.walk. simpl. rewrite last_snoc.
  destruct (String.eqb top ".."); [reflexivity|]. apply removelast_last.
Qed.

(** The text of [res] when its last segment is [top]. *)
Lemma joined_ends stack top :
  ∃ r, Spec.joined (stack ++ [top]) = r +:+ top
       ∧ (stack = [] → r = "")
       ∧ (stack ≠ [] → r = Spec.joined stack +:+ "/").
Proof.
  rewrite joined_snoc. destruct stack as [|x stack].
  - exists "". split; [reflexivity|]. split; [reflexivity|contradiction].
  - exists (Spec.joined (x :: stack) +:+ "/"). split.
    + rewrite app_assoc_string. reflexivity.
    + split; [discriminate|reflexivity].
Qed.

(** The test of [normalizeString] for "the last segment of [res] is
    [..]" says what it means. *)
Lemma last_is_dotdot_test stack top st :
  Posix.res st = Spec.joined (stack ++ [top]) →
  Posix.lastSegmentLength st = Js.length top →
  (Js.length (Posix.res st) <? 2)
  || negb (Posix.lastSegmentLength st =? 2)
  || negb (Posix.is_dot_at (Posix.res st) (Js.length (Posix.res st) - 1))
  || negb (Posix.is_dot_at (Posix.res st) (Js.length (Posix.res st) - 2))
  = negb (String.eqb top "..").
Proof.
  intros Hres Hlen. destruct (joined_ends stack top) as (r & Hr & _).
  rewrite Hres, Hr, Hlen. clear Hres Hlen Hr.
  pose proof (js_length_nonneg r) as Hr0.
  destruct (Js.length top =? 2) eqn:Htop.
  - apply Z.eqb_eq in Htop. destruct (string_of_length_2 _ Htop) as (x & y & ->).
    rewrite js_length_app, Htop.
    rewrite (proj2 (Z.ltb_ge _ _)) by lia. cbn [orb negb].
    replace (Js.length r + 2 - 2) with (Js.length r) by lia.
    replace (Js.length r + 2 - 1) with (Js.length (r +:+ String x "")).
    2: { rewrite js_length_app. change (Js.length (String x "")) with 1. lia. }
    unfold Posix.is_dot_at.
    rewrite charCodeAt_app.
    replace (r +:+ String x (String y "")) with ((r +:+ String x "") +:+ String y "").
    2: { rewrite app_assoc_string. reflexivity. }
    rewrite charCodeAt_app.
    assert (Heqb : String.eqb (String x (String y "")) ".."
                   = Ascii.eqb x Js.dot && Ascii.eqb y Js.dot).
    { unfold Js.dot, Js.char. simpl.
      destruct (Ascii.eqb x _), (Ascii.eqb y _); reflexivity. }
    rewrite Heqb.
    destruct (Ascii.eqb x Js.dot), (Ascii.eqb y Js.dot); reflexivity.
  - cbn [negb]. rewrite orb_true_r. cbn [orb]. symmetry.
    apply negb_true_iff, String.eqb_neq. intros ->.
    apply Z.eqb_neq in Htop. apply Htop. reflexivity.
Qed.

Lemma snoc_nonempty {A} (l : list A) x : l ++ [x] ≠ [].
Proof. destruct l; discriminate. Qed.

Lemma joined_snoc_nonempty stack x :
  stack ≠ [] → Spec.joined (stack ++ [x]) = Spec.joined stack +:+ "/" +:+ x.
Proof. intros Hne. rewrite joined_snoc. destruct stack; [contradiction|reflexivity]. Qed.

Lemma length_at_least_one s : s ≠ "" → 1 ≤ Js.length s.
Proof.
  destruct s; [contradiction|]. intros _. rewrite js_length_cons.
  pose proof (js_length_nonneg s). lia.
Qed.

(** The length that [normalizeString] recomputes after cutting [res] at
    its last separator. *)
Lemma last_segment_length stack :
  clean stack → stack ≠ [] →
  Js.length (Spec.joined stack) - 1 - Js.lastIndexOf (Spec.joined stack) Js.slash
  = Js.length (default "" (last stack)).
Proof.
  intros Hclean Hne. destruct (snoc_cases stack) as [->|(s1 & x & ->)];
    [contradiction|].
  apply clean_snoc in Hclean as (Hclean & Hx & Hslash).
  rewrite last_snoc. simpl. destruct (decide (s1 = [])) as [->|Hs1].
  - simpl. rewrite joined_one. apply lastIndexOf_absent in Hslash. rewrite Hslash. lia.
  - rewrite (joined_snoc_nonempty _ _ Hs1).
    change ("/" +:+ x) with (String Js.slash x).
    rewrite (lastIndexOf_last _ _ _ Hslash), js_length_app, js_length_cons. lia.
Qed.

Lemma is_separator_slash : Posix.isPathSeparator Js.slash = true.
Proof. reflexivity. Qed.

(** A turn of the loop on a separator walks the segment just read. *)
Lemma body_separator path allow done cur rest stack st :
  tracks path done cur rest stack st →
  let st' := Posix.normalizeString_body path allow
               (Js.length done + Js.length cur) Js.slash st in
  clean (Spec.walk allow stack cur)
  ∧ Posix.res st' = Spec.joined (Spec.walk allow stack cur)
  ∧ Posix.lastSegmentLength st'
    = Js.length (default "" (last (Spec.walk allow stack cur)))
  ∧ Posix.lastSlash st' = Js.length done + Js.length cur
  ∧ Posix.dots st' = 0.
Proof.
  intros [Hpath Hcur Hclean Hres Hlen Hslash Hdots]. intros st'. subst st'.
  unfold Posix.normalizeString_body. rewrite is_separator_slash, Hslash, Hdots.
  destruct (decide (cur = "")) as [->|Hne].
  { change (Js.length "") with 0. rewrite Z.add_0_r, Z.eqb_refl. cbn [orb].
    rewrite walk_skip by auto. simpl. auto. }
  pose proof (length_at_least_one _ Hne) as Hcur1.
  rewrite (proj2 (Z.eqb_neq _ _)) by lia. cbn [orb].
  destruct (Spec.dots_from 0 cur =? 1) eqn:Hd1.
  { apply Z.eqb_eq, dots_one in Hd1. rewrite walk_skip by auto. simpl. auto. }
  destruct (Spec.dots_from 0 cur =? 2) eqn:Hd2.
  - apply Z.eqb_eq, dots_two in Hd2. subst cur. clear Hd1 Hne Hcur Hcur1.
    destruct (snoc_cases stack) as [->|(s0 & top & ->)].
    + rewrite walk_up_empty. rewrite Hres. simpl.
      destruct allow; simpl.
      * split; [|auto].
        apply Forall_cons. split; [split; [discriminate|reflexivity]|constructor].
      * split; [constructor|]. auto.
    + rewrite last_snoc in Hlen. simpl in Hlen.
      rewrite (last_is_dotdot_test s0 top st Hres Hlen), walk_up_parent.
      apply clean_snoc in Hclean as (Hclean0 & Htop & Htopslash).
      assert (Hstack : clean (s0 ++ [top])) by (apply clean_snoc; auto).
      pose proof (joined_nonempty _ Hstack (snoc_nonempty _ _))
        as Hres1.
      destruct (String.eqb_spec top "..") as [->|Hnot]; cbn [negb].
      * destruct allow; simpl.
        -- rewrite Hres. rewrite (proj2 (Z.ltb_lt _ _)) by lia.
           split; [apply clean_snoc; split; [exact Hstack|split; [discriminate|reflexivity]]|].
           split; [rewrite (joined_snoc_nonempty (s0 ++ [".."]) "..") by apply snoc_nonempty;
                   reflexivity|].
           rewrite last_snoc. auto.
        -- rewrite last_snoc. simpl. auto.
      * rewrite Hres.
        destruct (decide (s0 = [])) as [->|Hs0].
        -- simpl. rewrite joined_one.
           pose proof Htopslash as Habsent. apply lastIndexOf_absent in Habsent.
           rewrite Habsent.
           destruct (2 <? Js.length top); simpl.
           ++ repeat split; auto; constructor.
           ++ rewrite (proj2 (Z.eqb_neq (Js.length top) 0)).
              ** simpl. repeat split; auto; constructor.
              ** pose proof (length_at_least_one _ Htop). lia.
        -- rewrite (joined_snoc_nonempty _ _ Hs0).
           change ("/" +:+ top) with (String Js.slash top).
           pose proof (joined_nonempty _ Hclean0 Hs0) as Hj.
           pose proof (length_at_least_one _ Htop) as Ht.
           rewrite js_length_app, js_length_cons.
           rewrite (proj2 (Z.ltb_lt _ _)) by lia.
           rewrite (lastIndexOf_last _ _ _ Htopslash).
           rewrite (proj2 (Z.eqb_neq _ _)) by lia.
           rewrite slice_prefix. simpl.
           split; [exact Hclean0|]. split; [reflexivity|].
           split; [apply last_segment_length; assumption|]. auto.
  - assert (Hnot1 : cur ≠ ".").
    { intros ->. vm_compute in Hd1. discriminate. }
    assert (Hnot2 : cur ≠ "..").
    { intros ->. vm_compute in Hd2. discriminate. }
    rewrite (walk_push _ _ _ Hne Hnot1 Hnot2).
    replace (Js.length done - 1 + 1) with (Js.length done) by lia.
    rewrite Hpath, app_assoc_string, slice_middle, Hres. simpl.
    split; [apply clean_snoc; auto|].
    rewrite last_snoc. simpl. split; [|split; [lia|auto]].
    rewrite joined_snoc. destruct stack as [|x stack]; [reflexivity|].
    pose proof (joined_nonempty (x :: stack) Hclean ltac:(discriminate)).
    rewrite (proj2 (Z.ltb_lt _ _)) by lia. reflexivity.
Qed.

(** A turn on any other character extends the segment being read. *)
Lemma body_other path allow done cur rest stack st c :
  tracks path done cur rest stack st →
  Posix.isPathSeparator c = false →
  let st' := Posix.normalizeString_body path allow
               (Js.length done + Js.length cur) c st in
  Posix.res st' = Posix.res st
  ∧ Posix.lastSegmentLength st' = Posix.lastSegmentLength st
  ∧ Posix.lastSlash st' = Posix.lastSlash st
  ∧ Posix.dots st' = Spec.dots_from 0 (cur +:+ String c "").
Proof.
  intros [Hpath Hcur Hclean Hres Hlen Hslash Hdots] Hc st'. subst st'.
  unfold Posix.normalizeString_body. rewrite Hc, dots_from_snoc, Hdots.
  destruct (Ascii.eqb c Js.dot && negb (Spec.dots_from 0 cur =? -1)); simpl; auto.
Qed.

(** The loop of [normalizeString] computes the walk, character by
    character. *)
Lemma loop_scan path allow : ∀ rest done cur stack st code,
  tracks path done cur rest stack st →
  (Posix.isPathSeparator code = true → cur = "") →
  Posix.normalizeString_loop path allow rest (Js.length done + Js.length cur) code st
  = Spec.joined (Spec.scan allow rest stack cur).
Proof.
  induction rest as [|c rest IH]; intros done cur stack st code Htracks Hcode.
  - simpl. destruct (Posix.isPathSeparator code) eqn:Hsep.
    + rewrite (Hcode eq_refl), walk_skip by auto. apply (tracks_res _ _ _ _ _ _ Htracks).
    + apply (body_separator path allow _ _ _ _ _ Htracks).
  - simpl. destruct (Ascii.eqb c Js.slash) eqn:Hc.
    + apply Ascii.eqb_eq in Hc. subst c.
      destruct (body_separator path allow _ _ _ _ _ Htracks)
        as (Hclean' & Hres' & Hlen' & Hslash' & Hdots').
      destruct Htracks as [Hpath Hcur Hclean Hres Hlen Hslash Hdots].
      replace (Js.length done + Js.length cur + 1)
        with (Js.length (done +:+ cur +:+ "/") + Js.length "").
      2: { rewrite !js_length_app. change (Js.length "/") with 1.
           change (Js.length "") with 0. lia. }
      apply IH; [|reflexivity].
      constructor; auto.
      * rewrite Hpath, app_empty_r, !app_assoc_string. reflexivity.
      * rewrite Hslash', !js_length_app. change (Js.length "/") with 1. lia.
    + destruct (body_other path allow _ _ _ _ _ c Htracks Hc)
        as (Hres' & Hlen' & Hslash' & Hdots').
      destruct Htracks as [Hpath Hcur Hclean Hres Hlen Hslash Hdots].
      replace (Js.length done + Js.length cur + 1)
        with (Js.length done + Js.length (cur +:+ String c "")).
      2: { rewrite js_length_app. change (Js.length (String c "")) with 1. lia. }
      apply IH.
      * constructor; auto; try congruence.
        -- rewrite Hpath, !app_assoc_string. reflexivity.
        -- rewrite contains_app, Hcur. simpl. rewrite Hc. reflexivity.
      * intros Hsep. unfold Posix.isPathSeparator in Hsep. congruence.
Qed.

Lemma segments_nonempty s : Spec.segments s ≠ [].
Proof.
  destruct s as [|c s]; simpl; [discriminate|].
  destruct (Ascii.eqb c Js.slash); [discriminate|].
  destruct (Spec.segments s); discriminate.
Qed.

(** Reading character by character is walking the segments in order. *)
Lemma scan_segments allow s : ∀ stack cur,
  Spec.scan allow s stack cur
  = match Spec.segments s with
    | seg :: segs => foldl (Spec.walk allow) stack ((cur +:+ seg) :: segs)
    | [] => stack
    end.
Proof.
  induction s as [|c s IH]; intros stack cur.
  - simpl. rewrite app_empty_r. reflexivity.
  - simpl. destruct (Ascii.eqb c Js.slash).
    + rewrite IH, app_empty_r. simpl.
      destruct (Spec.segments s) as [|seg segs] eqn:Hsegs; reflexivity.
    + rewrite IH.
      destruct (Spec.segments s) as [|seg segs] eqn:Hsegs.
      * exfalso. exact (segments_nonempty s Hsegs).
      * simpl. rewrite app_assoc_string. reflexivity.
Qed.

(** [normalizeString] is the walk over the segments of its argument. *)
Lemma normalizeString_walks path allow :
  Posix.normalizeString path allow
  = Spec.joined (Spec.walk_all allow (Spec.segments path)).
Proof.
  unfold Posix.normalizeString.
  change 0 with (Js.length "" + Js.length "") at 1.
  rewrite (loop_scan path allow path "" "" []).
  - rewrite scan_segments. unfold Spec.walk_all.
    destruct (Spec.segments path); reflexivity.
  - constructor; try reflexivity. constructor.
  - intros Hsep. vm_compute in Hsep. discriminate.
Qed.

(** ** Segments of joined paths *)

Lemma segments_app_slash a b :
  Spec.segments (a +:+ String Js.slash b) = Spec.segments a ++ Spec.segments b.
Proof.
  induction a as [|c a IH]; [reflexivity|].
  rewrite app_cons. simpl. rewrite IH.
  destruct (Ascii.eqb c Js.slash); [reflexivity|].
  destruct (Spec.segments a) as [|seg segs] eqn:Ha; [|reflexivity].
  exfalso. exact (segments_nonempty a Ha).
Qed.

Lemma segments_whole s : Spec.contains Js.slash s = false → Spec.segments s = [s].
Proof.
  induction s as [|c s IH]; [reflexivity|]. simpl.
  intros Hs. apply orb_false_iff in Hs as [Hc Hs]. rewrite Hc, (IH Hs). reflexivity.
Qed.

Lemma segments_clean s :
  Forall (λ seg, Spec.contains Js.slash seg = false) (Spec.segments s).
Proof.
  induction s as [|c s IH]; simpl; [repeat constructor|].
  destruct (Ascii.eqb c Js.slash) eqn:Hc; [constructor; [reflexivity|exact IH]|].
  destruct (Spec.segments s) as [|seg segs]; [repeat constructor; simpl; rewrite Hc; reflexivity|].
  apply Forall_cons in IH as [Hseg Hsegs]. constructor; [|exact Hsegs].
  simpl. rewrite Hc, Hseg. reflexivity.
Qed.

Lemma entries_clean stack : Forall Spec.entry stack → clean stack.
Proof.
  intros Hall. eapply Forall_impl; [exact Hall|].
  intros seg (H0 & _ & _ & Hs). auto.
Qed.

(** The segments of the path spelled by a stack of entries are the stack. *)
Lemma segments_joined stack :
  Forall Spec.entry stack → stack ≠ [] → Spec.segments (Spec.joined stack) = stack.
Proof.
  induction stack as [|x stack IH]; [contradiction|]. intros Hall _.
  apply Forall_cons in Hall as [(_ & _ & _ & Hx) Hall].
  destruct stack as [|y stack].
  - rewrite joined_one. apply segments_whole, Hx.
  - rewrite joined_cons. change ("/" +:+ Spec.joined (y :: stack))
      with (String Js.slash (Spec.joined (y :: stack))).
    rewrite segments_app_slash, (segments_whole _ Hx), IH by (auto; discriminate).
    reflexivity.
Qed.

(** Walking below the root yields entries only. *)
Lemma walk_entries seg stack :
  Spec.contains Js.slash seg = false →
  Forall Spec.entry stack → Forall Spec.entry (Spec.walk false stack seg).
Proof.
  intros Hseg Hall. unfold Spec.walk.
  destruct (String.eqb_spec seg "") as [->|H0]; [exact Hall|].
  destruct (String.eqb_spec seg ".") as [->|H1]; [exact Hall|]. simpl.
  destruct (String.eqb_spec seg "..") as [->|H2].
  - destruct (snoc_cases stack) as [->|(s0 & top & ->)]; [constructor|].
    rewrite last_snoc. destruct (String.eqb top ".."); [exact Hall|].
    rewrite removelast_last. apply Forall_app in Hall as [Hall _]. exact Hall.
  - apply Forall_app. split; [exact Hall|]. repeat constructor; auto.
Qed.

Lemma walk_from_entries segs : ∀ stack,
  Forall (λ seg, Spec.contains Js.slash seg = false) segs →
  Forall Spec.entry stack →
  Forall Spec.entry (foldl (Spec.walk false) stack segs).
Proof.
  induction segs as [|seg segs IH]; intros stack Hsegs Hall; [exact Hall|].
  apply Forall_cons in Hsegs as [Hseg Hsegs]. simpl.
  apply IH; [exact Hsegs|]. apply walk_entries; assumption.
Qed.

Lemma walk_all_entries segs :
  Forall (λ seg, Spec.contains Js.slash seg = false) segs →
  Forall Spec.entry (Spec.walk_all false segs).
Proof. intros Hsegs. apply walk_from_entries; [exact Hsegs|constructor]. Qed.

(** Walking entries only pushes them. *)
Lemma walk_over_entries allow segs : ∀ stack,
  Forall Spec.entry segs → foldl (Spec.walk allow) stack segs = stack ++ segs.
Proof.
  induction segs as [|seg segs IH]; intros stack Hall; [symmetry; apply app_nil_r|].
  apply Forall_cons in Hall as [(H0 & H1 & H2 & _) Hall]. simpl.
  rewrite walk_push, IH by assumption. rewrite <- app_assoc. reflexivity.
Qed.

(** Empty segments change nothing, wherever they stand. *)
Lemma walk_all_app allow segs1 segs2 :
  Spec.walk_all allow (segs1 ++ segs2)
  = foldl (Spec.walk allow) (Spec.walk_all allow segs1) segs2.
Proof. unfold Spec.walk_all. apply foldl_app. Qed.

Lemma walk_all_drop_empty allow segs1 segs2 :
  Spec.walk_all allow (segs1 ++ "" :: segs2) = Spec.walk_all allow (segs1 ++ segs2).
Proof. rewrite !walk_all_app. reflexivity. Qed.

Lemma walk_all_trailing_empty allow segs :
  Spec.walk_all allow (segs ++ [""]) = Spec.walk_all allow segs.
Proof. rewrite walk_all_app. reflexivity. Qed.

(** ** [normalize] and [resolve] on absolute paths *)

Lemma endsWith_slash s :
  Js.endsWith s "/"
  = match Js.charCodeAt s (Js.length s - 1) with
    | Some c => Ascii.eqb c Js.slash
    | None => false
    end.
Proof.
  destruct (string_last_cases s) as [->|(r & x & ->)]; [reflexivity|].
  rewrite js_length_app. change (Js.length (String x "")) with 1.
  replace (Js.length r + 1 - 1) with (Js.length r) by lia.
  rewrite charCodeAt_app. unfold Js.endsWith. rewrite rev_app.
  change (Js.rev (String x "")) with (String x "").
  change (Js.rev "/") with (String Js.slash "").
  rewrite app_cons, app_empty_l. cbn [String.prefix].
  destruct (Ascii.ascii_dec Js.slash x) as [<-|Hx].
  - rewrite Ascii.eqb_refl. destruct (Js.rev r); reflexivity.
  - symmetry. apply Ascii.eqb_neq. congruence.
Qed.

(** The path spelled by a non-empty stack of entries does not end in a
    separator. *)
Lemma joined_no_trailing_slash r stack :
  Forall Spec.entry stack → stack ≠ [] →
  Js.endsWith (r +:+ Spec.joined stack) "/" = false.
Proof.
  intros Hall Hne. destruct (snoc_cases stack) as [->|(s0 & top & ->)];
    [contradiction|].
  apply Forall_app in Hall as [_ Htop]. rewrite Forall_singleton in Htop.
  unfold Spec.entry in Htop. destruct Htop as (Htop & _ & _ & Hslash).
  destruct (joined_ends s0 top) as (r' & -> & _).
  destruct (string_last_cases top) as [->|(t & x & ->)]; [contradiction|].
  rewrite <- !app_assoc_string, endsWith_slash, js_length_app.
  change (Js.length (String x "")) with 1.
  replace (Js.length ((r +:+ r') +:+ t) + 1 - 1) with (Js.length ((r +:+ r') +:+ t))
    by lia.
  rewrite charCodeAt_app. rewrite contains_app in Hslash.
  apply orb_false_iff in Hslash as [_ Hx]. simpl in Hx.
  rewrite orb_false_r in Hx. exact Hx.
Qed.

(** What [normalize] makes of an absolute path. *)
Lemma normalize_absolute p :
  Posix.isAbsolute p = true →
  Posix.normalize p
  = match Spec.walk_all false (Spec.segments p) with
    | [] => "/"
    | stack => "/" +:+ Spec.joined stack +:+ (if Js.endsWith p "/" then "/" else "")
    end.
Proof.
  intros Habs. unfold Posix.normalize.
  destruct p as [|c p]; [discriminate|].
  rewrite js_length_cons. pose proof (js_length_nonneg p).
  rewrite (proj2 (Z.eqb_neq _ _)) by lia. rewrite <- (js_length_cons c p).
  rewrite Habs, <- endsWith_slash, normalizeString_walks. cbn [negb].
  pose proof (walk_all_entries _ (segments_clean (String c p))) as Hentries.
  destruct (Spec.walk_all false (Spec.segments (String c p))) as [|x stack] eqn:Hwalk.
  - reflexivity.
  - pose proof (joined_nonempty (x :: stack) (entries_clean _ Hentries)
                  ltac:(discriminate)).
    rewrite (proj2 (Z.eqb_neq _ _)) by lia.
    destruct (Js.endsWith (String c p) "/"); [reflexivity|].
    rewrite app_empty_r. reflexivity.
Qed.

(** A path spelled by entries below the root is normal already. *)
Lemma normalize_resolved stack :
  Forall Spec.entry stack →
  Posix.normalize ("/" +:+ Spec.joined stack) = "/" +:+ Spec.joined stack.
Proof.
  intros Hall. rewrite normalize_absolute by reflexivity.
  change ("/" +:+ Spec.joined stack) with ("" +:+ String Js.slash (Spec.joined stack)).
  rewrite segments_app_slash.
  destruct stack as [|x stack]; [reflexivity|].
  rewrite segments_joined by (auto; discriminate).
  rewrite walk_all_app. change (Spec.walk_all false (Spec.segments "")) with (@nil string).
  rewrite walk_over_entries by exact Hall. cbn [app].
  change ("" +:+ String Js.slash (Spec.joined (x :: stack)))
    with ("/" +:+ Spec.joined (x :: stack)).
  rewrite joined_no_trailing_slash by (auto; discriminate).
  rewrite app_empty_r. reflexivity.
Qed.

Lemma absolute_nonempty p : Posix.isAbsolute p = true → (Js.length p =? 0) = false.
Proof.
  destruct p; [discriminate|]. intros _. rewrite js_length_cons.
  pose proof (js_length_nonneg p). apply Z.eqb_neq. lia.
Qed.

Lemma nonempty_length p : p ≠ "" → (Js.length p =? 0) = false.
Proof. intros Hp. apply Z.eqb_neq. pose proof (length_at_least_one _ Hp). lia. Qed.

Lemma absolute_app p q : Posix.isAbsolute p = true → Posix.isAbsolute (p +:+ q) = true.
Proof. destruct p; [discriminate|]. rewrite app_cons. auto. Qed.

(** [resolve] of a relative path against an absolute base walks the
    segments of the base and then those of the path. *)
Lemma resolve_against_absolute cwd base raw :
  Posix.isAbsolute base = true → Posix.isAbsolute raw = false → raw ≠ "" →
  Posix.resolve cwd [base; raw]
  = "/" +:+ Spec.joined (Spec.walk_all false (Spec.segments base ++ Spec.segments raw)).
Proof.
  intros Hbase Hraw Hne. unfold Posix.resolve. simpl.
  rewrite (nonempty_length _ Hne), Hraw, (absolute_nonempty _ Hbase), Hbase.
  cbn [negb]. rewrite normalizeString_walks.
  change (base +:+ "/" +:+ raw +:+ "/" +:+ "")
    with (base +:+ String Js.slash (raw +:+ String Js.slash "")).
  rewrite !segments_app_slash.
  change (Spec.segments "") with [""].
  rewrite app_assoc, walk_all_trailing_empty. reflexivity.
Qed.

(** Against a relative (or empty) base, the working directory comes first. *)
Lemma resolve_against_relative cwd base raw :
  Posix.isAbsolute cwd = true →
  Posix.isAbsolute base = false → Posix.isAbsolute raw = false → raw ≠ "" →
  Posix.resolve cwd [base; raw]
  = "/" +:+ Spec.joined (Spec.walk_all false
              (Spec.segments cwd ++ Spec.segments base ++ Spec.segments raw)).
Proof.
  intros Hcwd Hbase Hraw Hne. unfold Posix.resolve. simpl.
  rewrite (nonempty_length _ Hne), Hraw.
  destruct (Js.length base =? 0) eqn:Hlen.
  - apply Z.eqb_eq, js_length_zero in Hlen. subst base. simpl.
    rewrite (absolute_nonempty _ Hcwd), Hcwd. cbn [negb].
    rewrite normalizeString_walks.
    change (cwd +:+ "/" +:+ raw +:+ "/" +:+ "")
      with (cwd +:+ String Js.slash (raw +:+ String Js.slash "")).
    rewrite !segments_app_slash.
    change (Spec.segments "") with [""].
    rewrite app_assoc, walk_all_trailing_empty, walk_all_drop_empty.
    reflexivity.
  - rewrite Hbase. simpl. rewrite (absolute_nonempty _ Hcwd), Hcwd. cbn [negb].
    rewrite normalizeString_walks.
    change (cwd +:+ "/" +:+ base +:+ "/" +:+ raw +:+ "/" +:+ "")
      with (cwd +:+ String Js.slash (base +:+ String Js.slash
                                       (raw +:+ String Js.slash ""))).
    rewrite !segments_app_slash.
    change (Spec.segments "") with [""].
    rewrite !app_assoc, walk_all_trailing_empty. reflexivity.
Qed.

(** ** Paths that are not blank *)

Lemma normalize_keeps_absolute p :
  Posix.isAbsolute p = true → Posix.isAbsolute (Posix.normalize p) = true.
Proof.
  intros Habs. rewrite (normalize_absolute _ Habs).
  destruct (Spec.walk_all false (Spec.segments p)); reflexivity.
Qed.

(** Joining onto an absolute directory gives an absolute path. *)
Lemma join_absolute home rest :
  Posix.isAbsolute home = true → Posix.isAbsolute (Posix.join [home; rest]) = true.
Proof.
  intros Habs. unfold Posix.join. cbn [Posix.join_loop].
  assert (Hpos : (0 <? Js.length home) = true).
  { apply Z.ltb_lt. apply absolute_nonempty, Z.eqb_neq in Habs.
    pose proof (js_length_nonneg home). lia. }
  rewrite Hpos.
  destruct (0 <? Js.length rest); apply normalize_keeps_absolute;
    [apply absolute_app|]; exact Habs.
Qed.

(** After a leading [~], [slice(1)] is the rest of the string. *)
Lemma slice_after_tilde rawPath :
  Js.startsWith rawPath "~" = true → rawPath = "~" +:+ Js.slice_from rawPath 1.
Proof.
  unfold Js.startsWith. destruct rawPath as [|c r]; [discriminate|].
  cbn [String.prefix]. destruct (Ascii.ascii_dec _ c) as [<-|]; [|discriminate].
  intros _. rewrite app_cons, app_empty_l. f_equal.
  pose proof (slice_middle "~" r "") as Hs.
  rewrite app_cons, app_empty_l, app_empty_r in Hs.
  unfold Js.slice_from. rewrite js_length_cons.
  change (Js.length "~") with 1 in Hs. symmetry. exact Hs.
Qed.

Lemma not_blank_test rawPath :
  ¬ Spec.whitespace_only rawPath →
  Js.falsy rawPath || String.eqb (Js.trim rawPath) "" = false.
Proof.
  intros Hnot. destruct (Js.falsy rawPath || String.eqb (Js.trim rawPath) "") eqn:Ht;
    [|reflexivity].
  apply blank_test_iff in Ht. contradiction.
Qed.

Lemma not_blank_nonempty rawPath : ¬ Spec.whitespace_only rawPath → rawPath ≠ "".
Proof. intros Hnot ->. apply Hnot. constructor. Qed.

(** C7, as the code has it, on a POSIX system with working directory
    [cwd] and home directory [home].  For a [rawPath] that is neither empty
    nor white space only:
    - a leading [~] is replaced by the home directory joined with what
      follows it and, the home directory being absolute, the normalized
      form of that path is returned whatever the base;
    - an absolute path is returned normalized whatever the base: the walk
      over its segments from the root, with the trailing separator kept;
    - a relative path without a base fails with an [Error] whose message
      quotes the path;
    - a relative path with a base is resolved by [path.resolve]: from an
      absolute base the result is the walk over the segments of the base
      and then of the path, where [..] goes to the parent, also above the
      base, and stops at the root, and no trailing separator is kept; a
      base that is relative or empty is first resolved against the working
      directory. *)
Theorem resolveBoardPath_nonblank (cwd home rawPath : string) :
  ¬ Spec.whitespace_only rawPath →
  (Js.startsWith rawPath "~" = true → Posix.isAbsolute home = true →
   rawPath = "~" +:+ Js.slice_from rawPath 1
   ∧ ∀ base,
       @PathUtils.resolveBoardPath (posix_path cwd) (home_at home) rawPath base
       = Return (Posix.normalize (Posix.join [home; Js.slice_from rawPath 1])))
  ∧ (Js.startsWith rawPath "~" = false → Posix.isAbsolute rawPath = true →
     (∀ base,
        @PathUtils.resolveBoardPath (posix_path cwd) (home_at home) rawPath base
        = Return (Posix.normalize rawPath))
     ∧ Posix.normalize rawPath
       = match Spec.walk_all false (Spec.segments rawPath) with
         | [] => "/"
         | stack =>
             "/" +:+ Spec.joined stack +:+ (if Js.endsWith rawPath "/" then "/" else "")
         end)
  ∧ (Js.startsWith rawPath "~" = false → Posix.isAbsolute rawPath = false →
     @PathUtils.resolveBoardPath (posix_path cwd) (home_at home) rawPath None
     = Throw (new_Error (PathUtils.relative_path_message rawPath))
     ∧ (∀ base,
          @PathUtils.resolveBoardPath (posix_path cwd) (home_at home) rawPath (Some base)
          = Return (Posix.normalize (Posix.resolve cwd [base; rawPath])))
     ∧ (∀ base,
          Posix.isAbsolute base = true →
          @PathUtils.resolveBoardPath (posix_path cwd) (home_at home) rawPath (Some base)
          = Return ("/" +:+ Spec.joined
                      (Spec.walk_all false
                         (Spec.segments base ++ Spec.segments rawPath))))
     ∧ (∀ base,
          Posix.isAbsolute base = false → Posix.isAbsolute cwd = true →
          @PathUtils.resolveBoardPath (posix_path cwd) (home_at home) rawPath (Some base)
          = Return ("/" +:+ Spec.joined
                      (Spec.walk_all false
                         (Spec.segments cwd ++ Spec.segments base
                          ++ Spec.segments rawPath))))).
Proof.
  intros Hnot. pose proof (not_blank_test _ Hnot) as Htest.
  pose proof (not_blank_nonempty _ Hnot) as Hne.
  unfold PathUtils.resolveBoardPath. rewrite Htest.
  cbn [path_join path_normalize path_resolve path_isAbsolute os_homedir
       posix_path home_at].
  split; [|split].
  - intros Htilde Hhome. split; [apply slice_after_tilde, Htilde|].
    intros base. rewrite Htilde.
    rewrite (join_absolute _ _ Hhome). reflexivity.
  - intros Htilde Habs. split; [|apply normalize_absolute, Habs].
    intros base. rewrite Htilde, Habs. reflexivity.
  - intros Htilde Hrel. rewrite Htilde, Hrel.
    split; [reflexivity|]. split; [reflexivity|]. split.
    + intros base Hbase.
      rewrite (resolve_against_absolute _ _ _ Hbase Hrel Hne).
      rewrite normalize_resolved; [reflexivity|].
      apply walk_all_entries, Forall_app. split; apply segments_clean.
    + intros base Hbase Hcwd.
      rewrite (resolve_against_relative _ _ _ Hcwd Hbase Hrel Hne).
      rewrite normalize_resolved; [reflexivity|].
      apply walk_all_entries. rewrite !Forall_app.
      repeat split; apply segments_clean.
Qed.

(** The traversal of the test suite, whose [..] leaves the workspace
    folder. *)
Lemma resolveBoardPath_nonblank_witness :
  @PathUtils.resolveBoardPath (posix_path "/work") (home_at "/home/user")
    "../other-boards/main" (Some "/home/user/projects/myproject")
  = Return ("/" +:+ Spec.joined
              (Spec.walk_all false
                 (Spec.segments "/home/user/projects/myproject"
                  ++ Spec.segments "../other-boards/main"))).
Proof.
  refine (proj1 (proj2 (proj2 (proj2 (proj2
            (resolveBoardPath_nonblank "/work" "/home/user" "../other-boards/main" _))
            _ _))) "/home/user/projects/myproject" _).
  - intros Hblank. apply blank_test_iff in Hblank. vm_compute in Hblank. discriminate.
  - reflexivity.
  - reflexivity.
  - reflexivity.
Defined.

Example parent_traversal_walk :
  "/" +:+ Spec.joined
    (Spec.walk_all false
       (Spec.segments "/home/user/projects/myproject"
        ++ Spec.segments "../other-boards/main"))
  = "/home/user/projects/other-boards/main".
Proof. vm_compute. reflexivity. Qed.

(** C7 as stated fails where it calls the result for a relative path "the
    normalized join": [path.resolve] drops a trailing separator that
    [path.normalize] of the join keeps, and it completes a relative base
    with the working directory. *)
Lemma resolveBoardPath_relative_is_not_join :
  @PathUtils.resolveBoardPath (posix_path "/work") (home_at "/home/user")
    "boards/" (Some "/ws")
  ≠ Return (@Spec.normalized_join (posix_path "/work") "/ws" "boards/")
  ∧ @PathUtils.resolveBoardPath (posix_path "/work") (home_at "/home/user")
      "boards/" (Some "/ws") = Return "/ws/boards"
  ∧ @Spec.normalized_join (posix_path "/work") "/ws" "boards/" = "/ws/boards/"
  ∧ @PathUtils.resolveBoardPath (posix_path "/work") (home_at "/home/user")
      "tasks" (Some "ws") = Return "/work/ws/tasks"
  ∧ @Spec.normalized_join (posix_path "/work") "ws" "tasks" = "ws/tasks".
Proof.
  split; [vm_compute; discriminate|].
  repeat split; vm_compute; reflexivity.
Qed.

(** * Further properties of the code *)

(** ** More on the instance manager *)

Section ManagerStats.
Import KanbnGlobalManager.

Lemma tables_share_boards this :
  one_per_board this → dom (kanbnInstances this) = dom (documentAdapters this).
Proof.
  intros Hone. apply set_eq. intros b. rewrite !elem_of_dom.
  destruct (consistent_cases _ _ (Hone b)) as [[-> ->]|(info & k & -> & -> & _)];
    split; intros [? ?]; eauto; discriminate.
Qed.

Lemma documents_at_least_boards (m : gmap string DocumentAdapter) :
  map_Forall (λ _ info, documentCallbacks info ≠ ∅) m →
  (size m ≤ map_fold (λ _ info sum, (sum + size (documentCallbacks info))%nat) 0%nat m)%nat.
Proof.
  apply (map_fold_weak_ind
           (λ r m, map_Forall (λ _ info, documentCallbacks info ≠ ∅) m → (size m ≤ r)%nat)).
  - intros _. rewrite map_size_empty. lia.
  - intros i x m' r Hi IH Hall.
    apply map_Forall_insert in Hall as [Hx Hall]; [|exact Hi].
    rewrite map_size_insert_None by exact Hi.
    specialize (IH Hall).
    assert (size (documentCallbacks x) ≠ 0%nat).
    { intros Hsize. apply map_size_empty_inv in Hsize. contradiction. }
    lia.
Qed.

(** X1. [getStats] in any state the manager can be in: as many task stores as
    adapters, and at least one registered document for each. *)
Theorem getStats_counts_boards_and_documents (this : state) :
  reachable this →
  ∃ boards documents,
    getStats this = (boards, boards, documents)
    ∧ boards = size (dom (documentAdapters this))
    ∧ (boards ≤ documents)%nat.
Proof.
  intros Hreach. destruct (reachable_consistent _ Hreach) as [Hone _].
  unfold getStats. eexists _, _. split; [|split].
  - rewrite <- !size_dom, (tables_share_boards _ Hone). reflexivity.
  - reflexivity.
  - rewrite size_dom. apply documents_at_least_boards.
    intros b info Hb.
    destruct (consistent_cases _ _ (Hone b)) as [[Hda _]|(info' & _ & Hda & _ & Hne & _)];
      congruence.
Qed.

(** X2. A second [cleanupDocument] for the same document and board changes
    nothing, in any state. *)
Theorem cleanupDocument_idempotent (this : state) (documentUri board : string) :
  cleanupDocument (cleanupDocument this documentUri board) documentUri board
  = cleanupDocument this documentUri board.
Proof.
  destruct (documentAdapters this !! board) as [info|] eqn:Hda.
  2: { rewrite !(cleanup_unknown_board _ _ _ Hda). reflexivity. }
  destruct (documentCallbacks info !! documentUri) as [c|] eqn:Hdoc.
  - rewrite (cleanup_known_document _ _ _ _ _ Hda Hdoc).
    destruct (bool_decide (delete documentUri (documentCallbacks info) = ∅)) eqn:Hlast.
    + apply cleanup_unknown_board. simpl. apply lookup_delete_eq.
    + apply bool_decide_eq_false in Hlast.
      eapply cleanup_unknown_document; simpl.
      * apply lookup_insert_eq.
      * simpl. apply lookup_delete_eq.
      * exact Hlast.
  - destruct (decide (documentCallbacks info = ∅)) as [He|He].
    + assert (Hfirst : cleanupDocument this documentUri board
                       = State (delete board (kanbnInstances this))
                               (delete board (documentAdapters this))
                               (adapters this) (kanbns this) (allocated this)).
      { unfold cleanupDocument. rewrite Hda, Hdoc.
        rewrite bool_decide_eq_true_2 by (rewrite He; apply map_size_empty).
        reflexivity. }
      rewrite Hfirst. apply cleanup_unknown_board. simpl. apply lookup_delete_eq.
    + rewrite !(cleanup_unknown_document _ _ _ _ Hda Hdoc He). reflexivity.
Qed.

(** X3. [cleanupDocument] for a document that is not registered for the board
    leaves the manager as it is: disposing of a document that never asked
    for a task store cannot take the board from the others. *)
Theorem cleanupDocument_of_unregistered_document
    (this : state) (documentUri board : string) :
  reachable this →
  (∀ info, documentAdapters this !! board = Some info →
           documentCallbacks info !! documentUri = None) →
  cleanupDocument this documentUri board = this.
Proof.
  intros Hreach Hnot. destruct (reachable_consistent _ Hreach) as [Hone _].
  destruct (consistent_cases _ _ (Hone board))
    as [[Hda _]|(info & _ & Hda & _ & Hne & _)].
  - apply cleanup_unknown_board, Hda.
  - eapply cleanup_unknown_document; eauto.
Qed.

End ManagerStats.

Lemma getStats_counts_boards_and_documents_witness :
  ∃ boards documents,
    KanbnGlobalManager.getStats one_editor = (boards, boards, documents)
    ∧ boards = size (dom (KanbnGlobalManager.documentAdapters one_editor))
    ∧ (boards ≤ documents)%nat.
Proof.
  apply (getStats_counts_boards_and_documents one_editor).
  apply KanbnGlobalManager.reachable_perform, KanbnGlobalManager.reachable_initial.
Defined.

Lemma cleanupDocument_of_unregistered_document_witness :
  KanbnGlobalManager.cleanupDocument one_editor task_b "/ws" = one_editor.
Proof.
  apply (cleanupDocument_of_unregistered_document one_editor task_b "/ws").
  - apply KanbnGlobalManager.reachable_perform, KanbnGlobalManager.reachable_initial.
  - intros info Hinfo. vm_compute in Hinfo. injection Hinfo as <-. vm_compute. reflexivity.
Defined.
Section ManagerAdapters.
Import KanbnGlobalManager.

Lemma initial_in_step : adapters_in_step initial.
Proof. split; intros *; simpl; rewrite lookup_empty; discriminate. Qed.

Lemma in_step_allocated this board info :
  well_allocated this → adapters_in_step this →
  documentAdapters this !! board = Some info → (adapter info < allocated this)%nat.
Proof.
  intros [_ Ha] [Htrack _] Hb. destruct (Htrack _ _ Hb) as (a & Hsome & _).
  apply Ha. eauto.
Qed.

Lemma get_in_step this documentUri board g s :
  one_per_board this → well_allocated this → adapters_in_step this →
  adapters_in_step (getKanbnForDocument this documentUri board g s).2.
Proof.
  intros Hone Hwell Hstep. pose proof Hstep as [Htrack Hinj].
  destruct (consistent_cases _ _ (Hone board))
    as [[Hda Hki]|(info & kanbn & Hda & Hki & Hne & Hobj & Had & Hcl)].
  - rewrite (get_new _ _ _ _ _ Hda Hki). simpl.
    assert (Hold : ∀ b i, documentAdapters this !! b = Some i → adapter i ≠ allocated this).
    { intros b i Hb. pose proof (in_step_allocated _ _ _ Hwell Hstep Hb). lia. }
    split; simpl.
    + intros b i. destruct (decide (b = board)) as [->|Hb].
      * rewrite lookup_insert_eq. intros [= <-].
        exists (MultiDocAdapter.constructor documentUri g s). unfold adapter_in_step.
        simpl. rewrite lookup_insert_eq. split; [reflexivity|].
        rewrite !dom_insert_L, !dom_empty_L. auto.
      * rewrite lookup_insert_ne by congruence. intros Hi.
        destruct (Htrack _ _ Hi) as (a & Hsome & Hrest). exists a. simpl.
        rewrite lookup_insert_ne; [auto|]. apply not_eq_sym, (Hold _ _ Hi).
    + intros b1 b2 i1 i2.
      destruct (decide (b1 = board)) as [->|Hb1];
        destruct (decide (b2 = board)) as [->|Hb2]; [reflexivity| | |].
      * rewrite lookup_insert_eq, lookup_insert_ne by congruence.
        intros [= <-] Hi2 Heq. simpl in Heq. exfalso. apply (Hold _ _ Hi2). auto.
      * rewrite lookup_insert_eq, lookup_insert_ne by congruence.
        intros Hi1 [= <-] Heq. simpl in Heq. exfalso. apply (Hold _ _ Hi1). auto.
      * rewrite !lookup_insert_ne by congruence. apply Hinj.
  - rewrite (get_existing _ _ _ _ _ _ _ Hda Hki). simpl.
    destruct (Htrack _ _ Hda) as (a & Hsome & Hdom & He1 & He2).
    split; simpl.
    + intros b i. destruct (decide (b = board)) as [->|Hb].
      * rewrite lookup_insert_eq. intros [= <-].
        exists (MultiDocAdapter.addDocumentCallbacks a documentUri g s).
        simpl. rewrite lookup_alter_eq, Hsome. split; [reflexivity|].
        simpl. rewrite !dom_insert_L, Hdom. auto.
      * rewrite lookup_insert_ne by congruence. intros Hi.
        destruct (Htrack _ _ Hi) as (a' & Hsome' & Hrest). exists a'. simpl.
        rewrite lookup_alter_ne; [auto|].
        intros Heq. apply Hb. symmetry. exact (Hinj _ _ _ _ Hda Hi Heq).
    + intros b1 b2 i1 i2.
      destruct (decide (b1 = board)) as [->|Hb1];
        destruct (decide (b2 = board)) as [->|Hb2]; [reflexivity| | |].
      * rewrite lookup_insert_eq, lookup_insert_ne by congruence.
        intros [= <-] Hi2 Heq. simpl in Heq. exact (Hinj _ _ _ _ Hda Hi2 Heq).
      * rewrite lookup_insert_eq, lookup_insert_ne by congruence.
        intros Hi1 [= <-] Heq. simpl in Heq. exact (Hinj _ _ _ _ Hi1 Hda Heq).
      * rewrite !lookup_insert_ne by congruence. apply Hinj.
Qed.

Lemma cleanup_in_step this documentUri board :
  one_per_board this → adapters_in_step this →
  adapters_in_step (cleanupDocument this documentUri board).
Proof.
  intros Hone Hstep. pose proof Hstep as [Htrack Hinj].
  destruct (consistent_cases _ _ (Hone board))
    as [[Hda Hki]|(info & kanbn & Hda & Hki & Hne & Hobj & Had & Hcl)].
  { rewrite (cleanup_unknown_board _ _ _ Hda). exact Hstep. }
  destruct (documentCallbacks info !! documentUri) as [c|] eqn:Hdoc.
  2: { rewrite (cleanup_unknown_document _ _ _ _ Hda Hdoc Hne). exact Hstep. }
  rewrite (cleanup_known_document _ _ _ _ _ Hda Hdoc).
  pose proof (Hcl _ _ Hdoc) as Hc. simpl in Hc. subst c. simpl.
  destruct (Htrack _ _ Hda) as (a & Hsome & Hdom & He1 & He2).
  assert (Hothers : ∀ b i, b ≠ board → documentAdapters this !! b = Some i →
            ∀ st, adapters st = alter (λ a, MultiDocAdapter.removeDocumentCallbacks a documentUri)
                                  (adapter info) (adapters this) →
                  adapter_in_step st i).
  { intros b i Hb Hi st Hst. destruct (Htrack _ _ Hi) as (a' & Hsome' & Hrest).
    exists a'. rewrite Hst, lookup_alter_ne; [auto|].
    intros Heq. apply Hb. symmetry. exact (Hinj _ _ _ _ Hda Hi Heq). }
  destruct (bool_decide (delete documentUri (documentCallbacks info) = ∅)); split; simpl.
  - intros b i Hi. apply lookup_delete_Some in Hi as [Hb Hi].
    apply (Hothers b i); auto.
  - intros b1 b2 i1 i2 H1 H2. apply lookup_delete_Some in H1 as [_ H1].
    apply lookup_delete_Some in H2 as [_ H2]. eauto.
  - intros b i. destruct (decide (b = board)) as [->|Hb].
    + rewrite lookup_insert_eq. intros [= <-].
      exists (MultiDocAdapter.removeDocumentCallbacks a documentUri).
      simpl. rewrite lookup_alter_eq, Hsome. split; [reflexivity|].
      simpl. rewrite !dom_delete_L, Hdom. auto.
    + rewrite lookup_insert_ne by congruence. intros Hi. apply (Hothers b i); auto.
  - intros b1 b2 i1 i2.
    destruct (decide (b1 = board)) as [->|Hb1];
      destruct (decide (b2 = board)) as [->|Hb2]; [reflexivity| | |].
    * rewrite lookup_insert_eq, lookup_insert_ne by congruence.
      intros [= <-] Hi2 Heq. simpl in Heq. exact (Hinj _ _ _ _ Hda Hi2 Heq).
    * rewrite lookup_insert_eq, lookup_insert_ne by congruence.
      intros Hi1 [= <-] Heq. simpl in Heq. exact (Hinj _ _ _ _ Hi1 Hda Heq).
    * rewrite !lookup_insert_ne by congruence. apply Hinj.
Qed.

Lemma reachable_in_step this : reachable this → adapters_in_step this.
Proof.
  induction 1 as [|c this Hreach IH]; [apply initial_in_step|].
  destruct (reachable_consistent _ Hreach) as [Hone Hwell].
  destruct c as [documentUri board g s|documentUri board]; simpl.
  - pose proof (get_in_step this documentUri board g s Hone Hwell IH) as Hget.
    destruct (getKanbnForDocument this documentUri board g s). exact Hget.
  - apply cleanup_in_step; assumption.
Qed.

(** X4. In every state the manager can be in, the adapter of a board holds
    callbacks for exactly the documents registered for the board, nothing
    in its file tables, and it is the adapter the board's task store was
    built on. *)
Theorem adapter_callbacks_follow_registrations
    (this : state) (board : string) (info : DocumentAdapter) :
  reachable this →
  documentAdapters this !! board = Some info →
  ∃ a kanbn,
    adapters this !! adapter info = Some a
    ∧ dom (MultiDocAdapter.documentCallbacks a) = dom (documentCallbacks info)
    ∧ MultiDocAdapter.fileContentMap a = ∅
    ∧ MultiDocAdapter.fileExistsMap a = ∅
    ∧ kanbnInstances this !! board = Some kanbn
    ∧ kanbns this !! kanbn = Some (NewKanbn board (adapter info) (adapter info)).
Proof.
  intros Hreach Hda.
  destruct (reachable_consistent _ Hreach) as [Hone _].
  destruct (reachable_in_step _ Hreach) as [Htrack _].
  destruct (Htrack _ _ Hda) as (a & Hsome & Hdom & He1 & He2).
  destruct (consistent_cases _ _ (Hone board))
    as [[Hda' _]|(info' & kanbn & Hda' & Hki & _ & Hobj & _)]; [congruence|].
  assert (info' = info) by congruence. subst info'.
  exists a, kanbn. auto 10.
Qed.

End ManagerAdapters.

Lemma adapter_callbacks_follow_registrations_witness :
  let info := KanbnGlobalManager.Info 0 {[task_a := KanbnGlobalManager.Cleanup 0 task_a]} in
  ∃ a kanbn,
    KanbnGlobalManager.adapters one_editor !! KanbnGlobalManager.adapter info = Some a
    ∧ dom (MultiDocAdapter.documentCallbacks a)
      = dom (KanbnGlobalManager.documentCallbacks info)
    ∧ MultiDocAdapter.fileContentMap a = ∅
    ∧ MultiDocAdapter.fileExistsMap a = ∅
    ∧ KanbnGlobalManager.kanbnInstances one_editor !! "/ws" = Some kanbn
    ∧ KanbnGlobalManager.kanbns one_editor !! kanbn
      = Some (KanbnGlobalManager.NewKanbn "/ws" (KanbnGlobalManager.adapter info)
                (KanbnGlobalManager.adapter info)).
Proof.
  intros info.
  apply (adapter_callbacks_follow_registrations one_editor "/ws" info).
  - apply KanbnGlobalManager.reachable_perform, KanbnGlobalManager.reachable_initial.
  - vm_compute. reflexivity.
Defined.
Section ManagerServes.
Import KanbnGlobalManager.
Context `{PathApi} `{TextCodec} `{RealFs}.

(** After [getKanbnForDocument] the adapter of the task store returned
    holds the callbacks just passed, under the document's [fsPath]. *)
Lemma get_installs_callbacks this documentUri board g s :
  one_per_board this →
  ∃ a adapter,
    kanbns (getKanbnForDocument this documentUri board g s).2
      !! (getKanbnForDocument this documentUri board g s).1
    = Some (NewKanbn board a a)
    ∧ adapters (getKanbnForDocument this documentUri board g s).2 !! a = Some adapter
    ∧ MultiDocAdapter.documentCallbacks adapter !! documentUri
      = Some (MultiDocAdapter.Callbacks g s).
Proof.
  intros Hone.
  destruct (consistent_cases _ _ (Hone board))
    as [[Hda Hki]|(info & kanbn & Hda & Hki & Hne & Hobj & [a Had] & Hcl)].
  - rewrite (get_new _ _ _ _ _ Hda Hki). simpl.
    exists (allocated this), (MultiDocAdapter.constructor documentUri g s).
    rewrite lookup_insert_eq. split; [reflexivity|]. rewrite lookup_insert_eq.
    split; [reflexivity|]. simpl. apply lookup_insert_eq.
  - rewrite (get_existing _ _ _ _ _ _ _ Hda Hki). simpl.
    exists (adapter info), (MultiDocAdapter.addDocumentCallbacks a documentUri g s).
    split; [exact Hobj|]. rewrite lookup_alter_eq, Had. split; [reflexivity|].
    simpl. apply lookup_insert_eq.
Qed.

(** X5. The task store that [getKanbnForDocument] returns reads and writes the
    calling document through the callbacks passed, for every spelling of a
    path whose normal form is the document's [fsPath]: [readFile] returns
    what the getter returns, [writeFile] calls the setter, [access]
    succeeds, and none of them calls the disk. *)
Theorem task_store_serves_the_calling_document
    (this : state) (documentUri board : string) (g : getter) (s : setter) :
  reachable this →
  ∃ a adapter,
    kanbns (getKanbnForDocument this documentUri board g s).2
      !! (getKanbnForDocument this documentUri board g s).1
    = Some (NewKanbn board a a)
    ∧ adapters (getKanbnForDocument this documentUri board g s).2 !! a = Some adapter
    ∧ ∀ filePath (h : host),
        MultiDocAdapter.normalizePath filePath = documentUri →
        MultiDocAdapter.readFile adapter filePath h = (Return (call_getter g h), h)
        ∧ (∀ mode, MultiDocAdapter.access adapter filePath mode h = (Return tt, h))
        ∧ (∀ data, MultiDocAdapter.writeFile adapter filePath data h
                   = (Return tt, call_setter s data h))
        ∧ (∀ data, disk_calls (MultiDocAdapter.writeFile adapter filePath data h).2
                   = disk_calls h).
Proof.
  intros Hreach. destruct (reachable_consistent _ Hreach) as [Hone _].
  destruct (get_installs_callbacks this documentUri board g s Hone)
    as (a & adapter & Hk & Ha & Hcb).
  exists a, adapter. split; [exact Hk|]. split; [exact Ha|].
  intros filePath h Hpath. rewrite <- Hpath in Hcb.
  destruct (multi_readFile_found adapter filePath _ h Hcb) as [Hread Haccess].
  split; [exact Hread|]. split; [exact Haccess|].
  split; intros data; rewrite (multi_writeFile_found adapter filePath data _ h Hcb);
    [reflexivity|].
  simpl. apply call_setter_frame.
Qed.

Context `{VscodeUri}.

(** X6. The task store that [getKanbnForBoard] returns answers [readFile] of
    the board's index file with the empty string and drops what is written
    to it, without calling the disk: the index is registered with the two
    placeholder callbacks. *)
Theorem getKanbnForBoard_serves_an_empty_index (this : state) (boardPath : string) :
  reachable this →
  ∃ a adapter,
    kanbns (Extension.getKanbnForBoard this boardPath).2
      !! (Extension.getKanbnForBoard this boardPath).1
    = Some (NewKanbn boardPath a a)
    ∧ adapters (Extension.getKanbnForBoard this boardPath).2 !! a = Some adapter
    ∧ ∀ filePath (h : host),
        MultiDocAdapter.normalizePath filePath
        = Uri_file_fsPath (boardPath +:+ "/.kanbn/index.md") →
        MultiDocAdapter.readFile adapter filePath h = (Return "", h)
        ∧ ∀ data, MultiDocAdapter.writeFile adapter filePath data h = (Return tt, h).
Proof.
  intros Hreach. destruct (reachable_consistent _ Hreach) as [Hone _].
  unfold Extension.getKanbnForBoard.
  destruct (get_installs_callbacks this
              (Uri_file_fsPath (boardPath +:+ "/.kanbn/index.md")) boardPath
              empty_getter ignore_setter Hone)
    as (a & adapter & Hk & Ha & Hcb).
  exists a, adapter. split; [exact Hk|]. split; [exact Ha|].
  intros filePath h Hpath. rewrite <- Hpath in Hcb.
  destruct (multi_readFile_found adapter filePath _ h Hcb) as [Hread _].
  split; [exact Hread|].
  intros data. rewrite (multi_writeFile_found adapter filePath data _ h Hcb).
  reflexivity.
Qed.

End ManagerServes.
Section ManagerPins.
Import KanbnGlobalManager.

Lemma perform_keeps_registration c this board documentUri :
  c ≠ CleanupDocument documentUri board →
  (∃ info, documentAdapters this !! board = Some info
           ∧ is_Some (documentCallbacks info !! documentUri)) →
  ∃ info, documentAdapters (perform c this).2 !! board = Some info
          ∧ is_Some (documentCallbacks info !! documentUri).
Proof.
  intros Hc (info & Hda & Hdoc).
  destruct c as [uri' board' g s|uri' board']; simpl.
  - unfold getKanbnForDocument, get_or_create_adapter.
    destruct (decide (board' = board)) as [->|Hb].
    + rewrite Hda. simpl.
      destruct (kanbnInstances this !! board); simpl; rewrite lookup_insert_eq;
        eexists; (split; [reflexivity|]); simpl;
        apply lookup_insert_is_Some'; right; exact Hdoc.
    + destruct (documentAdapters this !! board') as [info'|]; simpl;
        destruct (kanbnInstances this !! board'); simpl;
        rewrite ?lookup_insert_ne by congruence; eauto.
  - destruct (decide (board' = board)) as [->|Hb].
    + assert (Huri : uri' ≠ documentUri) by congruence.
      assert (Hne : documentCallbacks info ≠ ∅).
      { intros He. rewrite He, lookup_empty in Hdoc. destruct Hdoc; discriminate. }
      destruct (documentCallbacks info !! uri') as [c|] eqn:Hdoc'.
      * rewrite (cleanup_known_document _ _ _ _ _ Hda Hdoc').
        rewrite bool_decide_eq_false_2.
        -- simpl. rewrite lookup_insert_eq. eexists. split; [reflexivity|]. simpl.
           rewrite lookup_delete_ne by exact Huri. exact Hdoc.
        -- intros He. destruct Hdoc as [x Hx].
           assert (Hin : delete uri' (documentCallbacks info) !! documentUri = Some x).
           { rewrite lookup_delete_ne by exact Huri. exact Hx. }
           rewrite He, lookup_empty in Hin. discriminate.
      * rewrite (cleanup_unknown_document _ _ _ _ Hda Hdoc' Hne). eauto.
    + unfold cleanupDocument.
      destruct (documentAdapters this !! board') as [info'|]; [|eauto].
      destruct (documentCallbacks info' !! uri'); simpl;
        match goal with |- context [bool_decide ?P] => destruct (bool_decide P) end;
        simpl; rewrite ?lookup_delete_ne, ?lookup_insert_ne by congruence; eauto.
Qed.

Lemma calls_keep_registration calls : ∀ this board documentUri,
  Forall (λ c, c ≠ CleanupDocument documentUri board) calls →
  (∃ info, documentAdapters this !! board = Some info
           ∧ is_Some (documentCallbacks info !! documentUri)) →
  Forall (registered board) (states_after calls this).
Proof.
  induction calls as [|c calls IH]; intros this board documentUri Hcalls Hreg;
    [constructor|].
  apply Forall_cons in Hcalls as [Hc Hcalls]. simpl.
  pose proof (perform_keeps_registration c this board documentUri Hc Hreg) as Hreg'.
  constructor; [|exact (IH _ _ _ Hcalls Hreg')].
  destruct Hreg' as (info & Hda & [x Hx]). eapply registered_by; eauto.
Qed.

Context `{VscodeUri}.

(** X7. As long as [cleanupDocument] is not called for the placeholder
    document that [getKanbnForBoard] registers (the extension has no such
    call: the only caller is the task document's [dispose], with the
    task's own file), the board stays registered once a command has asked
    for its task store, whatever editors open and close: every later
    [getKanbnForDocument] for the board returns that task store, and the
    manager keeps it. *)
Theorem getKanbnForBoard_pins_the_board
    (this : state) (boardPath : string) (calls : list call) :
  reachable this →
  Forall (λ c, c ≠ CleanupDocument (Uri_file_fsPath (boardPath +:+ "/.kanbn/index.md"))
                     boardPath) calls →
  Forall (λ kanbn, kanbn = (Extension.getKanbnForBoard this boardPath).1)
         (returned_for boardPath calls (Extension.getKanbnForBoard this boardPath).2)
  ∧ Forall (λ st, kanbnInstances st !! boardPath
                  = Some (Extension.getKanbnForBoard this boardPath).1)
           (states_after calls (Extension.getKanbnForBoard this boardPath).2).
Proof.
  intros Hreach Hcalls. unfold Extension.getKanbnForBoard.
  set (dummyUri := Uri_file_fsPath (boardPath +:+ "/.kanbn/index.md")) in *.
  destruct (reachable_consistent _ Hreach) as [Hone Hwell].
  destruct (get_preserves this dummyUri boardPath empty_getter ignore_setter Hone Hwell)
    as [Hone' Hwell'].
  pose proof (get_registers this dummyUri boardPath empty_getter ignore_setter Hone) as Hki.
  assert (Hreg : ∃ info,
             documentAdapters (getKanbnForDocument this dummyUri boardPath
                                 empty_getter ignore_setter).2 !! boardPath = Some info
             ∧ is_Some (documentCallbacks info !! dummyUri)).
  { unfold getKanbnForDocument, get_or_create_adapter.
    destruct (documentAdapters this !! boardPath) as [info|]; simpl;
      destruct (kanbnInstances this !! boardPath); simpl;
      rewrite ?lookup_insert_eq; eexists; (split; [reflexivity|]); simpl;
      rewrite lookup_insert_eq; eauto. }
  pose proof (calls_keep_registration calls _ _ _ Hcalls Hreg) as Hregs.
  destruct (same_instance_along calls _ _ _ Hone' Hwell' Hki Hregs) as [Hret Hst].
  split; [exact Hret|].
  eapply Forall_impl; [exact Hst|]. intros st [Hk _]. exact Hk.
Qed.

End ManagerPins.

Section OpenClose.
Import KanbnGlobalManager.

Lemma register_then_cleanup this documentUri board g s :
  one_per_board this →
  (∀ info, documentAdapters this !! board = Some info →
           documentCallbacks info !! documentUri = None) →
  kanbnInstances (cleanupDocument (getKanbnForDocument this documentUri board g s).2
                    documentUri board) = kanbnInstances this
  ∧ documentAdapters (cleanupDocument (getKanbnForDocument this documentUri board g s).2
                        documentUri board) = documentAdapters this.
Proof.
  intros Hone Hnot.
  destruct (consistent_cases _ _ (Hone board))
    as [[Hda Hki]|(info & kanbn & Hda & Hki & Hne & Hobj & Had & Hcl)].
  - rewrite (get_new _ _ _ _ _ Hda Hki).
    erewrite cleanup_known_document;
      [|simpl; apply lookup_insert_eq|simpl; apply lookup_insert_eq].
    simpl. rewrite delete_insert_eq, delete_empty.
    rewrite bool_decide_eq_true_2 by reflexivity. simpl.
    rewrite !delete_insert_eq, !delete_id by assumption. auto.
  - specialize (Hnot _ Hda).
    rewrite (get_existing _ _ _ _ _ _ _ Hda Hki).
    erewrite cleanup_known_document;
      [|simpl; apply lookup_insert_eq|simpl; apply lookup_insert_eq].
    simpl. rewrite delete_insert_eq, (delete_id _ _ Hnot).
    rewrite bool_decide_eq_false_2 by exact Hne. simpl.
    split; [reflexivity|]. rewrite insert_insert_eq. apply insert_id.
    rewrite Hda. destruct info. reflexivity.
Qed.

Context `{PathParts}.

(** X8. Opening a task editor and disposing of its document again leaves the
    manager's two tables, and so [getStats], as they were, provided the
    document was not registered for its board before. *)
Theorem task_document_open_close_round_trip
    (this : state) (document : nat) (fsPath : string) :
  reachable this →
  (∀ info, documentAdapters this !! KanbnTaskDocument.boardPath fsPath = Some info →
           documentCallbacks info !! fsPath = None) →
  let closed :=
    KanbnTaskDocument.dispose fsPath
      (KanbnTaskDocument.initializeForWebview document fsPath this).2 in
  kanbnInstances closed = kanbnInstances this
  ∧ documentAdapters closed = documentAdapters this
  ∧ getStats closed = getStats this.
Proof.
  intros Hreach Hnot closed. destruct (reachable_consistent _ Hreach) as [Hone _].
  destruct (register_then_cleanup this fsPath (KanbnTaskDocument.boardPath fsPath)
              (decode_document document) (encode_into_document document) Hone Hnot)
    as [Hki Hda].
  fold (KanbnTaskDocument.initializeForWebview document fsPath this) in Hki, Hda.
  fold (KanbnTaskDocument.dispose fsPath
          (KanbnTaskDocument.initializeForWebview document fsPath this).2) in Hki, Hda.
  fold closed in Hki, Hda.
  split; [exact Hki|]. split; [exact Hda|].
  unfold getStats. rewrite Hki, Hda. reflexivity.
Qed.

End OpenClose.
(** ** Failures of the real file system *)

Section RealFailures.
Context `{PathApi} `{TextCodec} `{RealFs}.

(** X9. [access] of a path that is neither a live document nor in the table of
    known files makes one call to [fs.promises.access], with the path as
    given and the mode asked for, a missing mode and the mode [0] ([F_OK])
    both being replaced by [R_OK | W_OK]; it returns when that call
    returns, and when that call fails, whatever the failure, it throws a
    new [Error] without a [code]. *)
Theorem access_probes_the_disk
    (a : DiskAdapter.t) (m : MultiDocAdapter.t) (filePath : string) (h : host) :
  DiskAdapter.isMainIndexFile a (DiskAdapter.normalizePath filePath) = false →
  DiskAdapter.fileExistsMap a !! DiskAdapter.normalizePath filePath = None →
  MultiDocAdapter.documentCallbacks m !! MultiDocAdapter.normalizePath filePath = None →
  MultiDocAdapter.fileExistsMap m !! MultiDocAdapter.normalizePath filePath = None →
  (DiskAdapter.access a filePath None h = DiskAdapter.access a filePath (Some 6) h
   ∧ DiskAdapter.access a filePath (Some 0) h = DiskAdapter.access a filePath (Some 6) h)
  ∧ (∀ mode, MultiDocAdapter.access m filePath mode h = DiskAdapter.access a filePath mode h)
  ∧ ∀ mode, mode ≠ 0 →
      DiskAdapter.access a filePath (Some mode) h
      = (match fs_access filePath mode (the_disk h) with
         | Return _ => Return tt
         | Throw _ =>
             Throw (ErrorObject None
                      ("ENOENT: no such file or directory, access '" +:+ filePath +:+ "'"))
         end,
         Host (buffers h) (the_disk h) (disk_calls h ++ [CallAccess filePath mode])).
Proof.
  intros Hmain Hexists Hlive Hexists'.
  unfold DiskAdapter.access, MultiDocAdapter.access.
  unfold MultiDocAdapter.normalizePath in *. unfold DiskAdapter.normalizePath in *.
  rewrite Hmain, Hexists, Hlive, Hexists'.
  split; [split; reflexivity|]. split; [reflexivity|].
  intros mode Hmode. unfold try_catch, real_access, access_mode.
  rewrite (proj2 (Z.eqb_neq _ _) Hmode).
  destruct (fs_access filePath mode (the_disk h)) as [[]|e]; reflexivity.
Qed.


(** X11. What the board editor writes to its own file through the adapter it
    can read back under any spelling of the path: the text goes through
    [TextEncoder] into the document's bytes and comes back through
    [TextDecoder]; the disk is not called and no other document changes. *)
Theorem board_document_write_then_read
    (document : nat) (fsPath written read data : string) (h : host) :
  DiskAdapter.normalizePath written = DiskAdapter.normalizePath fsPath →
  DiskAdapter.normalizePath read = DiskAdapter.normalizePath fsPath →
  let adapter := KanbnBoardEditorProvider.initializeForWebview document fsPath in
  let after := (DiskAdapter.writeFile adapter written data h).2 in
  (DiskAdapter.writeFile adapter written data h).1 = Return tt
  ∧ DiskAdapter.readFile adapter read after
    = (Return (TextDecoder_decode (TextEncoder_encode data)), after)
  ∧ buffers after = <[document := TextEncoder_encode data]> (buffers h)
  ∧ the_disk after = the_disk h
  ∧ disk_calls after = disk_calls h.
Proof.
  intros Hwritten Hread adapter after.
  destruct (disk_writeFile_main adapter written data h Hwritten) as [Hw _].
  assert (Hafter : after = call_setter (DiskAdapter.setDocumentContent adapter) data h).
  { unfold after. rewrite Hw. reflexivity. }
  split; [rewrite Hw; reflexivity|].
  destruct (disk_writeFile_main adapter read data after Hread) as [_ Hr].
  split.
  - rewrite Hr. f_equal. f_equal. rewrite Hafter. simpl.
    rewrite lookup_total_insert_eq. reflexivity.
  - rewrite Hafter. simpl. auto.
Qed.

End RealFailures.
(** ** The in-memory file table *)

Lemma ordered_get_set_eq {V} (m : OrderedMap.t V) key value :
  OrderedMap.get (OrderedMap.set m key value) key = Some value.
Proof.
  induction m as [|[k v] m IH]; simpl; [rewrite String.eqb_refl; reflexivity|].
  destruct (String.eqb_spec k key) as [->|Hk]; simpl.
  - rewrite String.eqb_refl. reflexivity.
  - rewrite (proj2 (String.eqb_neq _ _) Hk). exact IH.
Qed.

Lemma ordered_get_set_ne {V} (m : OrderedMap.t V) key value key' :
  key' ≠ key → OrderedMap.get (OrderedMap.set m key value) key' = OrderedMap.get m key'.
Proof.
  intros Hne. induction m as [|[k v] m IH]; simpl.
  - rewrite (proj2 (String.eqb_neq key key')) by congruence. reflexivity.
  - destruct (String.eqb_spec k key) as [->|Hk]; simpl.
    + rewrite (proj2 (String.eqb_neq key key')) by congruence. reflexivity.
    + rewrite IH. reflexivity.
Qed.

Lemma ordered_get_delete_eq {V} (m : OrderedMap.t V) key :
  OrderedMap.get (OrderedMap.delete m key) key = None.
Proof.
  induction m as [|[k v] m IH]; simpl; [reflexivity|].
  destruct (String.eqb_spec k key) as [->|Hk]; simpl; [exact IH|].
  rewrite (proj2 (String.eqb_neq _ _) Hk). exact IH.
Qed.

Lemma ordered_get_delete_ne {V} (m : OrderedMap.t V) key key' :
  key' ≠ key → OrderedMap.get (OrderedMap.delete m key) key' = OrderedMap.get m key'.
Proof.
  intros Hne. induction m as [|[k v] m IH]; simpl; [reflexivity|].
  destruct (String.eqb_spec k key) as [->|Hk]; simpl.
  - rewrite (proj2 (String.eqb_neq key key')) by congruence. exact IH.
  - rewrite IH. reflexivity.
Qed.

Section VirtualFiles.
Context `{PathApi} `{TextCodec} `{RealFs}.

(** X12. What is written to a path other than the live document is read back
    under any spelling of the path whose normal form is the same, and
    [access] of it succeeds; nothing of this calls the disk or changes the
    host, and [getVirtualFiles] lists the text under the normal form of
    the path. *)
Theorem virtual_write_then_read
    (this : VirtualAdapter.t) (h : host) (written read data : string) :
  VirtualAdapter.isMainIndexFile this (VirtualAdapter.normalizePath written) = false →
  VirtualAdapter.normalizePath read = VirtualAdapter.normalizePath written →
  let after := (VirtualAdapter.writeFile written data (this, h)).2 in
  (VirtualAdapter.writeFile written data (this, h)).1 = Return tt
  ∧ after.2 = h
  ∧ VirtualAdapter.readFile read after = (Return data, after)
  ∧ (∀ mode, VirtualAdapter.access read mode after = (Return tt, after))
  ∧ OrderedMap.get (VirtualAdapter.getVirtualFiles after.1)
      (VirtualAdapter.normalizePath written) = Some data.
Proof.
  intros Hmain Hread after. subst after.
  unfold VirtualAdapter.writeFile. rewrite Hmain. simpl.
  split; [reflexivity|]. split; [reflexivity|].
  unfold VirtualAdapter.readFile, VirtualAdapter.access, VirtualAdapter.isMainIndexFile.
  simpl. rewrite Hread.
  unfold VirtualAdapter.isMainIndexFile in Hmain. rewrite Hmain.
  unfold OrderedMap.has. rewrite ordered_get_set_eq, lookup_insert_eq. simpl.
  repeat split; reflexivity.
Qed.

(** X13. [rename] moves the text of an in-memory file to the new path, when the
    two paths differ in normal form: afterwards the table holds the text
    under the new path and nothing under the old one, and [readFile] of
    the new path returns the text unless that path is the live document.
    The host is not touched. *)
Theorem virtual_rename_moves_the_text
    (this : VirtualAdapter.t) (h : host) (oldPath newPath content : string) :
  OrderedMap.get (VirtualAdapter.fileContentMap this)
    (VirtualAdapter.normalizePath oldPath) = Some content →
  VirtualAdapter.normalizePath newPath ≠ VirtualAdapter.normalizePath oldPath →
  let after := (VirtualAdapter.rename oldPath newPath (this, h)).2 in
  (VirtualAdapter.rename oldPath newPath (this, h)).1 = Return tt
  ∧ after.2 = h
  ∧ OrderedMap.get (VirtualAdapter.fileContentMap after.1)
      (VirtualAdapter.normalizePath newPath) = Some content
  ∧ OrderedMap.get (VirtualAdapter.fileContentMap after.1)
      (VirtualAdapter.normalizePath oldPath) = None
  ∧ VirtualAdapter.fileExistsMap after.1 !! VirtualAdapter.normalizePath newPath
    = Some true
  ∧ VirtualAdapter.fileExistsMap after.1 !! VirtualAdapter.normalizePath oldPath = None
  ∧ (VirtualAdapter.isMainIndexFile this (VirtualAdapter.normalizePath newPath) = false →
     VirtualAdapter.readFile newPath after = (Return content, after)).
Proof.
  intros Hold Hne after. subst after. unfold VirtualAdapter.rename. rewrite Hold. simpl.
  split; [reflexivity|]. split; [reflexivity|].
  assert (Hnew : OrderedMap.get
            (OrderedMap.delete
               (OrderedMap.set (VirtualAdapter.fileContentMap this)
                  (VirtualAdapter.normalizePath newPath) content)
               (VirtualAdapter.normalizePath oldPath))
            (VirtualAdapter.normalizePath newPath) = Some content).
  { rewrite ordered_get_delete_ne by exact Hne. apply ordered_get_set_eq. }
  split; [exact Hnew|]. split; [apply ordered_get_delete_eq|].
  split; [rewrite lookup_delete_ne by congruence; apply lookup_insert_eq|].
  split; [apply lookup_delete_eq|].
  intros Hmain. unfold VirtualAdapter.readFile, VirtualAdapter.isMainIndexFile. simpl.
  unfold VirtualAdapter.isMainIndexFile in Hmain. rewrite Hmain.
  unfold OrderedMap.has. rewrite Hnew. reflexivity.
Qed.

(** X14. [rename] of an in-memory file onto a path with the same normal form
    removes the file: the text is set under the new key and then deleted
    under the old one, which is the same key. *)
Theorem virtual_rename_onto_itself_deletes
    (this : VirtualAdapter.t) (h : host) (oldPath newPath content : string) :
  OrderedMap.get (VirtualAdapter.fileContentMap this)
    (VirtualAdapter.normalizePath oldPath) = Some content →
  VirtualAdapter.normalizePath newPath = VirtualAdapter.normalizePath oldPath →
  let after := (VirtualAdapter.rename oldPath newPath (this, h)).2 in
  (VirtualAdapter.rename oldPath newPath (this, h)).1 = Return tt
  ∧ OrderedMap.get (VirtualAdapter.getVirtualFiles after.1)
      (VirtualAdapter.normalizePath oldPath) = None
  ∧ VirtualAdapter.fileExistsMap after.1 !! VirtualAdapter.normalizePath oldPath = None
  ∧ VirtualAdapter.fired after.1 = VirtualAdapter.fired this ++ [newPath].
Proof.
  intros Hold Hsame after. subst after. unfold VirtualAdapter.rename. rewrite Hold. simpl.
  split; [reflexivity|]. split; [apply ordered_get_delete_eq|].
  split; [apply lookup_delete_eq|reflexivity].
Qed.

(** X15. [writeFile], [mkdir], [rename] and [unlink] of the in-memory adapter
    never call the disk and leave it as it is.  In particular [rename] of
    a path that is not in the table of contents, be it a file on the disk
    or a directory made by [mkdir], throws an [Error] whose message starts
    with [ENOENT] and changes nothing. *)
Theorem virtual_adapter_keeps_off_the_disk (this : VirtualAdapter.t) (h : host) :
  (∀ c, match c with
        | VirtualAdapter.WriteFile _ _ | VirtualAdapter.Mkdir _ _
        | VirtualAdapter.Rename _ _ | VirtualAdapter.Unlink _ => True
        | _ => False
        end →
        the_disk (VirtualAdapter.after c (this, h)).2 = the_disk h
        ∧ disk_calls (VirtualAdapter.after c (this, h)).2 = disk_calls h)
  ∧ ∀ oldPath newPath,
      OrderedMap.get (VirtualAdapter.fileContentMap this)
        (VirtualAdapter.normalizePath oldPath) = None →
      VirtualAdapter.rename oldPath newPath (this, h)
      = (Throw (ErrorObject None
                  ("ENOENT: no such file or directory, rename '" +:+ oldPath
                   +:+ "' -> '" +:+ newPath +:+ "'")),
         (this, h)).
Proof.
  split.
  - intros [filePath mode|filePath|filePath data|dirPath options|oldPath newPath
           |filePath|pattern] Hc; try contradiction; simpl.
    + unfold VirtualAdapter.writeFile.
      destruct (VirtualAdapter.isMainIndexFile this _); simpl; [|auto].
      split; apply call_setter_frame.
    + auto.
    + unfold VirtualAdapter.rename. destruct (OrderedMap.get _ _); auto.
    + auto.
  - intros oldPath newPath Hnone. unfold VirtualAdapter.rename. rewrite Hnone.
    reflexivity.
Qed.

(** What every adapter built by the constructor and method calls keeps:
    the table of known files never records a file as absent, every file
    with contents is recorded as known, and no path has two entries. *)
Lemma built_tables (this : VirtualAdapter.t) :
  VirtualAdapter.built this →
  map_Forall (λ _ known, known = true) (VirtualAdapter.fileExistsMap this)
  ∧ (∀ key, OrderedMap.has (VirtualAdapter.fileContentMap this) key = true →
            VirtualAdapter.fileExistsMap this !! key = Some true)
  ∧ NoDup (OrderedMap.keys (VirtualAdapter.fileContentMap this)).
Proof.
  induction 1 as [documentUri g s|c this h Hbuilt (Htrue & Hknown & Hnodup)].
  { simpl. split; [apply map_Forall_empty|]. split; [discriminate|constructor]. }
  assert (Hset : ∀ key value key',
            OrderedMap.has (OrderedMap.set (VirtualAdapter.fileContentMap this) key value)
              key' = true →
            <[key := true]> (VirtualAdapter.fileExistsMap this) !! key' = Some true).
  { intros key value key' Hhas. destruct (decide (key' = key)) as [->|Hne].
    - apply lookup_insert_eq.
    - rewrite lookup_insert_ne by congruence. apply Hknown. revert Hhas.
      unfold OrderedMap.has. rewrite ordered_get_set_ne by exact Hne. auto. }
  assert (Hdel : ∀ (content : OrderedMap.t string) (known : gmap string bool) key,
            (∀ key', OrderedMap.has content key' = true → known !! key' = Some true) →
            ∀ key', OrderedMap.has (OrderedMap.delete content key) key' = true →
                    delete key known !! key' = Some true).
  { intros content known key Hk key' Hhas. destruct (decide (key' = key)) as [->|Hne].
    - unfold OrderedMap.has in Hhas. rewrite ordered_get_delete_eq in Hhas. discriminate.
    - rewrite lookup_delete_ne by congruence. apply Hk. revert Hhas.
      unfold OrderedMap.has. rewrite ordered_get_delete_ne by exact Hne. auto. }
  destruct c as [filePath mode|filePath|filePath data|dirPath options|oldPath newPath
                |filePath|pattern]; simpl.
  - unfold VirtualAdapter.access.
    destruct (VirtualAdapter.isMainIndexFile this _); [auto|].
    destruct (VirtualAdapter.fileExistsMap this !! _) as [[]|]; simpl; auto.
    unfold VirtualAdapter.on_host.
    destruct (try_catch _ _ h); auto.
  - unfold VirtualAdapter.readFile.
    destruct (VirtualAdapter.isMainIndexFile this _); simpl; [auto|].
    destruct (OrderedMap.has _ _); simpl; [auto|].
    unfold VirtualAdapter.on_host. destruct (try_catch _ _ h); auto.
  - unfold VirtualAdapter.writeFile.
    destruct (VirtualAdapter.isMainIndexFile this _); simpl; [auto|].
    split; [apply map_Forall_insert_2; auto|]. split; [apply Hset|].
    apply ordered_set_keys, Hnodup.
  - split; [apply map_Forall_insert_2; auto|]. split; [|exact Hnodup].
    intros key Hhas. destruct (decide (key = VirtualAdapter.normalizePath dirPath)) as [->|Hne].
    + apply lookup_insert_eq.
    + rewrite lookup_insert_ne by congruence. auto.
  - unfold VirtualAdapter.rename.
    destruct (OrderedMap.get _ _) as [content|]; simpl; [|auto].
    split; [apply map_Forall_delete, map_Forall_insert_2; auto|].
    split; [apply Hdel, Hset|].
    apply ordered_delete_keys, ordered_set_keys, Hnodup.
  - split; [apply map_Forall_delete; auto|]. split; [apply Hdel, Hknown|].
    apply ordered_delete_keys, Hnodup.
  - unfold VirtualAdapter.glob, VirtualAdapter.on_host.
    destruct (try_catch _ _ h); auto.
Qed.

(** X16. On an adapter built by the constructor and method calls, [access]
    succeeds for every file held in memory without calling the disk, and
    it throws only after [fs.promises.access] has failed: the table of
    known files never says that a file is absent. *)
Theorem virtual_access_never_fails_by_itself
    (this : VirtualAdapter.t) (h : host) (filePath : string) (mode : option Z) :
  VirtualAdapter.built this →
  (OrderedMap.has (VirtualAdapter.fileContentMap this)
     (VirtualAdapter.normalizePath filePath) = true →
   VirtualAdapter.access filePath mode (this, h) = (Return tt, (this, h)))
  ∧ (∀ e, (VirtualAdapter.access filePath mode (this, h)).1 = Throw e →
          ∃ e', fs_access filePath (access_mode mode) (the_disk h) = Throw e'
                ∧ disk_calls (VirtualAdapter.access filePath mode (this, h)).2.2
                  = disk_calls h ++ [CallAccess filePath (access_mode mode)])
  ∧ NoDup (OrderedMap.keys (VirtualAdapter.getVirtualFiles this)).
Proof.
  intros Hbuilt. destruct (built_tables this Hbuilt) as (Htrue & Hknown & Hnodup).
  split; [|split; [|exact Hnodup]].
  - intros Hhas. unfold VirtualAdapter.access.
    destruct (VirtualAdapter.isMainIndexFile this _); [reflexivity|].
    rewrite (Hknown _ Hhas). reflexivity.
  - intros e. unfold VirtualAdapter.access.
    destruct (VirtualAdapter.isMainIndexFile this _); [discriminate|].
    destruct (VirtualAdapter.fileExistsMap this !! _) as [known|] eqn:Hlookup.
    + rewrite (Htrue _ _ Hlookup). discriminate.
    + unfold VirtualAdapter.on_host, try_catch, real_access.
      destruct (fs_access filePath (access_mode mode) (the_disk h)) as [[]|e'];
        simpl; [discriminate|]. intros _. eauto.
Qed.

End VirtualFiles.
(** ** The debounced edit *)

Section Debounced.
Context {Args World : Type} (func : Args → World → World) (wait : Z).

Lemma delay_positive ms : 1 ≤ Debounce.delay ms.
Proof.
  unfold Debounce.delay. destruct ((1 <=? ms) && (ms <=? 2147483647)) eqn:Hms; [|lia].
  apply andb_true_iff in Hms as [Hms _]. lia.
Qed.

Lemma clear_own_timer (timeout : option nat) (tm : @Debounce.timers Args) :
  Debounce.tidy (timeout, tm) →
  Debounce.scheduled
    (match timeout with
     | Some h => Debounce.clearTimeout h tm
     | None => tm
     end) = [].
Proof.
  intros [Hnil|(t & Hone & Htimeout & _)]; simpl in *.
  - destruct timeout; simpl; rewrite Hnil; reflexivity.
  - subst timeout. simpl. rewrite Hone, filter_cons, filter_nil.
    destruct (decide (Debounce.handle t ≠ Debounce.handle t)); congruence.
Qed.

Lemma debounced_schedules a (c : @Debounce.closure Args) :
  Debounce.tidy c →
  Debounce.debounced wait a c
  = (Some (Debounce.next_handle c.2),
     Debounce.Timers (Debounce.now c.2) (S (Debounce.next_handle c.2))
       [Debounce.Timer (Debounce.next_handle c.2)
          (Debounce.now c.2 + Debounce.delay wait) a]).
Proof.
  destruct c as [timeout tm]. intros Htidy. unfold Debounce.debounced.
  pose proof (clear_own_timer timeout tm Htidy) as Hclear.
  destruct timeout as [h|]; simpl in *; unfold Debounce.setTimeout; simpl;
    rewrite Hclear; reflexivity.
Qed.

Lemma cancel_clears (c : @Debounce.closure Args) :
  Debounce.tidy c →
  Debounce.scheduled (Debounce.cancel c).2 = [] ∧ (Debounce.cancel c).1 = None.
Proof.
  destruct c as [timeout tm]. intros Htidy. unfold Debounce.cancel.
  pose proof (clear_own_timer timeout tm Htidy) as Hclear.
  destruct timeout as [h|]; simpl in *; auto.
Qed.

(** One turn of the clock with one timer pending. *)
Lemma elapse_one ms (timeout : option nat) (tm : @Debounce.timers Args) t (s : World) :
  Debounce.scheduled tm = [t] →
  Debounce.elapse func ms ((timeout, tm), s)
  = if decide (Debounce.due t ≤ Debounce.now tm + Z.max 0 ms) then
      ((timeout, Debounce.Timers (Debounce.now tm + Z.max 0 ms)
                   (Debounce.next_handle tm) []),
       func (Debounce.args t) s)
    else
      ((timeout, Debounce.Timers (Debounce.now tm + Z.max 0 ms)
                   (Debounce.next_handle tm) [t]),
       s).
Proof.
  intros Hone. unfold Debounce.elapse. rewrite Hone, !filter_cons, !filter_nil.
  destruct (decide (Debounce.due t ≤ Debounce.now tm + Z.max 0 ms)) as [Hdue|Hdue].
  - rewrite decide_False by tauto. reflexivity.
  - rewrite decide_True by exact Hdue. reflexivity.
Qed.

Lemma elapse_none ms (timeout : option nat) (tm : @Debounce.timers Args) (s : World) :
  Debounce.scheduled tm = [] →
  Debounce.elapse func ms ((timeout, tm), s)
  = ((timeout, Debounce.Timers (Debounce.now tm + Z.max 0 ms)
                 (Debounce.next_handle tm) []), s).
Proof. intros Hnil. unfold Debounce.elapse. rewrite Hnil. reflexivity. Qed.

Lemma step_tidy (st : @Debounce.closure Args * World) e :
  Debounce.tidy st.1 → Debounce.tidy (Debounce.step func wait st e).1.
Proof.
  destruct st as [c s]. intros Htidy. destruct e as [a| |ms];
    cbn [Debounce.step fst snd] in *.
  - rewrite (debounced_schedules a c Htidy). right. eexists.
    split; [reflexivity|]. split; [reflexivity|]. simpl.
    pose proof (delay_positive wait). lia.
  - left. apply cancel_clears, Htidy.
  - destruct c as [timeout tm].
    destruct Htidy as [Hnil|(t & Hone & Htimeout & Hdue)]; cbn [fst snd] in *.
    + rewrite (elapse_none _ _ _ _ Hnil). left. reflexivity.
    + rewrite (elapse_one _ _ _ _ _ Hone).
      destruct (decide (Debounce.due t ≤ Debounce.now tm + Z.max 0 ms)).
      * left. reflexivity.
      * right. exists t. simpl. split; [reflexivity|]. split; [exact Htimeout|lia].
Qed.

Lemma reachable_tidy (st : @Debounce.closure Args * World) :
  Debounce.reachable func wait st → Debounce.tidy st.1.
Proof.
  induction 1 as [clock next s|st e Hreach IH|c s s' Hreach IH].
  - left. reflexivity.
  - apply step_tidy, IH.
  - exact IH.
Qed.

(** Waiting with nothing pending runs nothing. *)
Lemma elapse_idle mss : ∀ (c : @Debounce.closure Args) (s : World),
  Debounce.scheduled c.2 = [] →
  (Debounce.run func wait (map Debounce.Elapse mss) (c, s)).2 = s.
Proof.
  induction mss as [|ms mss IH]; intros [timeout tm] s Hnil; [reflexivity|].
  unfold Debounce.run in *. cbn [map foldl Debounce.step snd] in *.
  rewrite (elapse_none _ _ _ _ Hnil). apply IH. reflexivity.
Qed.

(** Waiting with one timer pending runs it once, when it is due. *)
Lemma elapse_pending mss :
  ∀ (timeout : option nat) (tm : @Debounce.timers Args) t (s : World),
  Debounce.scheduled tm = [t] →
  Debounce.now tm < Debounce.due t →
  (Debounce.run func wait (map Debounce.Elapse mss) ((timeout, tm), s)).2
  = if Debounce.due t - Debounce.now tm
       <=? Debounce.elapsed (map (@Debounce.Elapse Args) mss)
    then func (Debounce.args t) s else s.
Proof.
  induction mss as [|ms mss IH]; intros timeout tm t s Hone Hdue.
  - simpl. rewrite (proj2 (Z.leb_gt _ _)) by lia. reflexivity.
  - change (Debounce.elapsed (map (@Debounce.Elapse Args) (ms :: mss)))
      with (Z.max 0 ms + Debounce.elapsed (map (@Debounce.Elapse Args) mss)).
    unfold Debounce.run in *. cbn [map foldl Debounce.step].
    rewrite (elapse_one _ _ _ _ _ Hone).
    assert (Hrest : 0 ≤ Debounce.elapsed (map (@Debounce.Elapse Args) mss)).
    { clear. induction mss as [|m mss IH]; simpl; lia. }
    destruct (decide (Debounce.due t ≤ Debounce.now tm + Z.max 0 ms)) as [Hnow|Hnow].
    + rewrite (proj2 (Z.leb_le _ _)) by lia.
      exact (elapse_idle mss
               (timeout, Debounce.Timers (Debounce.now tm + Z.max 0 ms)
                           (Debounce.next_handle tm) [])
               (func (Debounce.args t) s) eq_refl).
    + etransitivity.
      { apply (IH timeout (Debounce.Timers (Debounce.now tm + Z.max 0 ms)
                             (Debounce.next_handle tm) [t]) t s eq_refl).
        simpl. lia. }
      cbn [Debounce.now].
      destruct (Z.leb_spec (Debounce.due t - (Debounce.now tm + Z.max 0 ms))
                  (Debounce.elapsed (map (@Debounce.Elapse Args) mss)));
        destruct (Z.leb_spec (Debounce.due t - Debounce.now tm)
                    (Z.max 0 ms + Debounce.elapsed (map (@Debounce.Elapse Args) mss)));
        try reflexivity; lia.
Qed.

(** X17. After a call of the debounced function, [func] runs once the delay
    has passed without another call, with the arguments of that call; a
    call that was pending before is dropped and never runs.  Until the
    delay has passed nothing runs. *)
Theorem debounce_runs_the_last_call_after_the_delay
    (st : @Debounce.closure Args * World) (a : Args) (waits : list Z) :
  Debounce.reachable func wait st →
  (Debounce.run func wait (Debounce.Call a :: map Debounce.Elapse waits) st).2
  = if Debounce.delay wait <=? Debounce.elapsed (map (@Debounce.Elapse Args) waits)
    then func a st.2 else st.2.
Proof.
  intros Hreach. pose proof (reachable_tidy st Hreach) as Htidy.
  destruct st as [c s]. unfold Debounce.run. cbn [foldl Debounce.step fst snd].
  rewrite (debounced_schedules a c Htidy).
  pose proof (delay_positive wait).
  etransitivity.
  { apply (elapse_pending waits (Some (Debounce.next_handle c.2))
             (Debounce.Timers (Debounce.now c.2) (S (Debounce.next_handle c.2))
                [Debounce.Timer (Debounce.next_handle c.2)
                   (Debounce.now c.2 + Debounce.delay wait) a])
             _ s eq_refl).
    simpl. lia. }
  cbn [Debounce.due Debounce.now Debounce.args].
  replace (Debounce.now c.2 + Debounce.delay wait - Debounce.now c.2)
    with (Debounce.delay wait) by lia.
  reflexivity.
Qed.

(** X18. After [cancel] nothing runs, however long one waits: a pending call
    is dropped. *)
Theorem debounce_cancel_drops_the_pending_call
    (st : @Debounce.closure Args * World) (waits : list Z) :
  Debounce.reachable func wait st →
  (Debounce.run func wait (Debounce.Cancel :: map Debounce.Elapse waits) st).2 = st.2.
Proof.
  intros Hreach. pose proof (reachable_tidy st Hreach) as Htidy.
  destruct st as [c s]. unfold Debounce.run. cbn [foldl Debounce.step fst snd].
  exact (elapse_idle waits (Debounce.cancel c) s (proj1 (cancel_clears c Htidy))).
Qed.

Lemma run_picks events : ∀ (c : @Debounce.closure Args) (s : World),
  Debounce.tidy c →
  ∃ picked,
    sublist picked (map Debounce.args (Debounce.scheduled c.2) ++ Debounce.called events)
    ∧ (Debounce.run func wait events (c, s)).2 = foldl (λ s a, func a s) s picked
    ∧ (length (Debounce.scheduled (Debounce.run func wait events (c, s)).1.2) ≤ 1)%nat.
Proof.
  induction events as [|e events IH]; intros c s Htidy.
  - exists []. split; [apply sublist_nil_l|]. split; [reflexivity|].
    simpl. destruct Htidy as [->|(t & -> & _)]; simpl; lia.
  - pose proof (step_tidy (c, s) e Htidy) as Htidy'.
    unfold Debounce.run in *. cbn [foldl].
    destruct (Debounce.step func wait (c, s) e) as [c' s'] eqn:Hstep.
    cbn [fst] in Htidy'.
    destruct (IH c' s' Htidy') as (picked & Hsub & Hrun & Hlen).
    destruct e as [a| |ms]; cbn [Debounce.step Debounce.called omap fst snd] in *.
    + injection Hstep as <- <-. exists picked. split; [|auto].
      rewrite (debounced_schedules a c Htidy) in Hsub. simpl in Hsub.
      apply sublist_inserts_l. exact Hsub.
    + injection Hstep as <- <-. exists picked. split; [|auto].
      rewrite (proj1 (cancel_clears c Htidy)) in Hsub. simpl in Hsub.
      apply sublist_inserts_l. exact Hsub.
    + destruct c as [timeout tm].
      destruct Htidy as [Hnil|(t & Hone & Htimeout & Hdue)]; cbn [fst snd] in *.
      * rewrite (elapse_none _ _ _ _ Hnil) in Hstep. injection Hstep as <- <-.
        exists picked. rewrite Hnil. auto.
      * rewrite (elapse_one _ _ _ _ _ Hone) in Hstep. rewrite Hone. simpl.
        destruct (decide (Debounce.due t ≤ Debounce.now tm + Z.max 0 ms));
          injection Hstep as <- <-.
        -- exists (Debounce.args t :: picked). simpl in Hsub.
           split; [apply sublist_skip, Hsub|]. auto.
        -- exists picked. auto.
Qed.

(** X19. Whatever happens to a debounced function, [func] runs only with
    arguments that were passed to it, in the order of the calls and at
    most once for each call; and never more than one timer is pending. *)
Theorem debounce_runs_a_selection_of_the_calls
    (clock : Z) (next : nat) (s : World) (events : list (@Debounce.event Args)) :
  ∃ picked,
    sublist picked (Debounce.called events)
    ∧ (Debounce.run func wait events (Debounce.debounce clock next, s)).2
      = foldl (λ s a, func a s) s picked
    ∧ (length (Debounce.scheduled
                 (Debounce.run func wait events (Debounce.debounce clock next, s)).1.2)
       ≤ 1)%nat.
Proof.
  apply (run_picks events (Debounce.debounce clock next) s). left. reflexivity.
Qed.

End Debounced.
(** ** The message handler of the task editor *)

Section TaskEditorMessages.
Context `{PathParts} {TaskData : Type}.
Variable updateTask : string → TaskData → prog KanbnDocument.t unit.
Variable createTask : TaskData → prog KanbnDocument.t unit.
Variable fsPath : string.

Lemma happen_tidy st e :
  Debounce.tidy st.1 →
  Debounce.tidy (KanbnTaskEditorProvider.happen updateTask createTask fsPath st e).1.
Proof.
  destruct st as [c w]. intros Htidy. destruct e as [[taskData|taskData|taskData]|ms];
    cbn [KanbnTaskEditorProvider.happen KanbnTaskEditorProvider.onDidReceiveMessage fst snd].
  - exact (step_tidy (KanbnTaskEditorProvider.debouncedEdit_func updateTask createTask fsPath)
             1500 (c, w) (Debounce.Call ("Update task content", taskData)) Htidy).
  - destruct (KanbnDocument.makeEdit _ _ w). left. apply cancel_clears, Htidy.
  - destruct (KanbnDocument.makeEdit _ _ w). left. apply cancel_clears, Htidy.
  - exact (step_tidy (KanbnTaskEditorProvider.debouncedEdit_func updateTask createTask fsPath)
             1500 (c, w) (Debounce.Elapse ms) Htidy).
Qed.

Lemma editor_tidy st :
  KanbnTaskEditorProvider.reachable updateTask createTask fsPath st → Debounce.tidy st.1.
Proof.
  induction 1 as [clock next st|st e Hreach IH]; [left; reflexivity|].
  apply happen_tidy, IH.
Qed.

(** Text changes leave the document alone until their timer runs. *)
Lemma typing_changes_nothing typed : ∀ st,
  Debounce.tidy st.1 →
  Debounce.tidy
    (foldl (KanbnTaskEditorProvider.happen updateTask createTask fsPath) st
       (map (λ d, KanbnTaskEditorProvider.Message (KanbnTaskEditorProvider.TextChange d))
            typed)).1
  ∧ (foldl (KanbnTaskEditorProvider.happen updateTask createTask fsPath) st
       (map (λ d, KanbnTaskEditorProvider.Message (KanbnTaskEditorProvider.TextChange d))
            typed)).2 = st.2.
Proof.
  induction typed as [|d typed IH]; intros st Htidy; [auto|].
  cbn [map foldl].
  destruct (IH (KanbnTaskEditorProvider.happen updateTask createTask fsPath st
                  (KanbnTaskEditorProvider.Message (KanbnTaskEditorProvider.TextChange d)))
              (happen_tidy st _ Htidy)) as [Ht Hw].
  split; [exact Ht|]. rewrite Hw. destruct st as [c w]. reflexivity.
Qed.

Lemma waiting_with_nothing_pending waits :
  ∀ (c : @Debounce.closure (string * TaskData)) w,
  Debounce.scheduled c.2 = [] →
  (foldl (KanbnTaskEditorProvider.happen updateTask createTask fsPath) (c, w)
     (map KanbnTaskEditorProvider.Wait waits)).2 = w.
Proof.
  induction waits as [|ms waits IH]; intros [timeout tm] w Hnil; [reflexivity|].
  cbn [map foldl KanbnTaskEditorProvider.happen snd] in *.
  rewrite (elapse_none _ _ _ _ _ Hnil). apply IH. reflexivity.
Qed.

(** X20. Text typed and then [kanbn.blur] (or [kanbn.save]): the pending
    debounced edit is cancelled and the edit is made at once, so that
    exactly one change is reported for the document, labelled for the
    blur (or the save), whose undo restores the bytes from before the
    blur; however long one waits afterwards, the text changes received
    before are never applied by themselves. *)
Theorem blur_applies_one_edit
    (st : KanbnTaskEditorProvider.state) (typed : list TaskData) (taskData : TaskData)
    (last : KanbnTaskEditorProvider.message) (label : string) (waits : list Z)
    (edited : KanbnDocument.t) :
  KanbnTaskEditorProvider.reachable updateTask createTask fsPath st →
  (last = KanbnTaskEditorProvider.Blur taskData ∧ label = "Update task content"
   ∨ last = KanbnTaskEditorProvider.Save taskData ∧ label = "Save task") →
  KanbnTaskEditorProvider.editCallback updateTask createTask fsPath taskData st.2.1
  = (Return tt, edited) →
  ∃ change,
    (foldl (KanbnTaskEditorProvider.happen updateTask createTask fsPath) st
       (map (λ d, KanbnTaskEditorProvider.Message (KanbnTaskEditorProvider.TextChange d))
            typed
        ++ KanbnTaskEditorProvider.Message last
        :: map KanbnTaskEditorProvider.Wait waits)).2
    = (edited, st.2.2 ++ [change])
    ∧ KanbnDocument.label change = label
    ∧ (∀ later, KanbnDocument._documentData (KanbnDocument.undo change later)
                = KanbnDocument._documentData st.2.1)
    ∧ (∀ later, KanbnDocument._documentData (KanbnDocument.redo change later)
                = KanbnDocument._documentData edited).
Proof.
  intros Hreach Hlast Hcb. pose proof (editor_tidy st Hreach) as Htidy.
  rewrite foldl_app. cbn [foldl].
  destruct (typing_changes_nothing typed st Htidy) as [Htidy' Hworld].
  destruct (foldl (KanbnTaskEditorProvider.happen updateTask createTask fsPath) st _)
    as [c [document events]] eqn:Htyped.
  cbn [fst snd] in *. destruct st as [c0 [document0 events0]]. cbn [fst snd] in *.
  injection Hworld as -> ->.
  pose proof (makeEdit_resolved label
                (KanbnTaskEditorProvider.editCallback updateTask createTask fsPath taskData)
                document0 edited events0 Hcb)
    as Hedit.
  eexists. split.
  { destruct Hlast as [[-> ->]|[-> ->]];
      cbn [KanbnTaskEditorProvider.happen KanbnTaskEditorProvider.onDidReceiveMessage snd];
      rewrite Hedit;
      apply waiting_with_nothing_pending; apply cancel_clears; exact Htidy'. }
  split; [reflexivity|]. split; intros later; apply restore_data.
Qed.

End TaskEditorMessages.
(** ** Resolved board paths *)

Lemma absolute_not_blank p : Posix.isAbsolute p = true → ¬ Spec.whitespace_only p.
Proof.
  intros Habs Hblank. destruct p as [|c p]; [discriminate|].
  cbn [Posix.isAbsolute] in Habs. apply Ascii.eqb_eq in Habs. subst c.
  inversion Hblank as [|w s Hw Hs Heq].
  destruct Hw as [a Ha|a b Ha|a b c Ha]; rewrite app_cons in Heq;
    injection Heq as Hslash _; subst a; vm_compute in Ha; discriminate.
Qed.

Lemma absolute_no_tilde p : Posix.isAbsolute p = true → Js.startsWith p "~" = false.
Proof.
  destruct p as [|c p]; [discriminate|]. cbn [Posix.isAbsolute]. intros Habs.
  apply Ascii.eqb_eq in Habs. subst c. reflexivity.
Qed.

Lemma endsWith_snoc_slash r : Js.endsWith (r +:+ "/") "/" = true.
Proof.
  rewrite endsWith_slash, js_length_app. change (Js.length "/") with 1.
  replace (Js.length r + 1 - 1) with (Js.length r) by lia.
  change "/" with (String Js.slash ""). rewrite charCodeAt_app. reflexivity.
Qed.

(** [normalize] does nothing to what it has made of an absolute path. *)
Lemma normalize_absolute_fixed q :
  Posix.isAbsolute q = true → Posix.normalize (Posix.normalize q) = Posix.normalize q.
Proof.
  intros Habs. rewrite (normalize_absolute q Habs).
  pose proof (walk_all_entries _ (segments_clean q)) as Hentries.
  destruct (Spec.walk_all false (Spec.segments q)) as [|x stack] eqn:Hwalk;
    [reflexivity|].
  destruct (Js.endsWith q "/").
  - rewrite normalize_absolute by reflexivity.
    change ("/" +:+ Spec.joined (x :: stack) +:+ "/")
      with ("" +:+ String Js.slash (Spec.joined (x :: stack) +:+ String Js.slash "")).
    rewrite !segments_app_slash, segments_joined by (auto; discriminate).
    change (Spec.segments "") with [""].
    rewrite app_assoc, walk_all_trailing_empty, walk_all_app.
    change (Spec.walk_all false [""]) with (@nil string).
    rewrite walk_over_entries by exact Hentries. cbn [app].
    change ("" +:+ String Js.slash (Spec.joined (x :: stack) +:+ String Js.slash ""))
      with (("/" +:+ Spec.joined (x :: stack)) +:+ "/").
    rewrite endsWith_snoc_slash, <- app_assoc_string. reflexivity.
  - rewrite app_empty_r. apply normalize_resolved, Hentries.
Qed.

(** [resolve] gives an absolute path when the working directory is one. *)
Lemma resolve_loop_absolute pending : ∀ acc,
  Forall (λ p, True) pending →
  ∀ cwd, Posix.isAbsolute cwd = true →
  ∃ q, Posix.resolve_loop (pending ++ [cwd]) acc = (q, true).
Proof.
  induction pending as [|p pending IH]; intros acc _ cwd Hcwd.
  - simpl. rewrite (absolute_nonempty _ Hcwd), Hcwd. eauto.
  - simpl. destruct (Js.length p =? 0); [apply IH; [apply Forall_true; auto|exact Hcwd]|].
    destruct (Posix.isAbsolute p); [eauto|].
    apply IH; [apply Forall_true; auto|exact Hcwd].
Qed.

Lemma resolve_is_resolved cwd args :
  Posix.isAbsolute cwd = true →
  ∃ stack, Forall Spec.entry stack
           ∧ Posix.resolve cwd args = "/" +:+ Spec.joined stack.
Proof.
  intros Hcwd. unfold Posix.resolve.
  destruct (resolve_loop_absolute (reverse args) "" (Forall_true _ _ (λ _, I)) cwd Hcwd)
    as [q Hq].
  rewrite Hq. cbn [negb]. rewrite normalizeString_walks.
  eexists. split; [|reflexivity]. apply walk_all_entries, segments_clean.
Qed.

Section ResolvedPaths.
Variables cwd home : string.
Hypothesis cwd_absolute : Posix.isAbsolute cwd = true.
Hypothesis home_absolute : Posix.isAbsolute home = true.

Lemma normal_absolute_resolves_to_itself q base :
  Posix.isAbsolute q = true →
  @PathUtils.resolveBoardPath (posix_path cwd) (home_at home) (Posix.normalize q) base
  = Return (Posix.normalize q).
Proof.
  intros Habs. pose proof (normalize_keeps_absolute q Habs) as Hp.
  unfold PathUtils.resolveBoardPath.
  rewrite (not_blank_test _ (absolute_not_blank _ Hp)), (absolute_no_tilde _ Hp).
  cbn [path_join path_normalize path_resolve path_isAbsolute os_homedir
       posix_path home_at].
  rewrite Hp, normalize_absolute_fixed by exact Habs. reflexivity.
Qed.

(** X21. What [resolveBoardPath] returns for a path that is not blank is an
    absolute path, and it is a fixed point: resolving it again, against
    any base or none, returns it unchanged. *)
Theorem resolveBoardPath_result_is_absolute_and_fixed
    (rawPath : string) (base : option string) (resolved : string) :
  ¬ Spec.whitespace_only rawPath →
  @PathUtils.resolveBoardPath (posix_path cwd) (home_at home) rawPath base
  = Return resolved →
  Posix.isAbsolute resolved = true
  ∧ ∀ base', @PathUtils.resolveBoardPath (posix_path cwd) (home_at home) resolved base'
             = Return resolved.
Proof.
  intros Hnot. pose proof (not_blank_nonempty _ Hnot) as Hne.
  assert (Hq : ∀ q, Posix.isAbsolute q = true →
             Return (Posix.normalize q) = Return resolved →
             Posix.isAbsolute resolved = true
             ∧ ∀ base', @PathUtils.resolveBoardPath (posix_path cwd) (home_at home)
                          resolved base' = Return resolved).
  { intros q Habs [= <-]. split; [apply normalize_keeps_absolute, Habs|].
    intros base'. apply normal_absolute_resolves_to_itself, Habs. }
  unfold PathUtils.resolveBoardPath. rewrite (not_blank_test _ Hnot).
  cbn [path_join path_normalize path_resolve path_isAbsolute os_homedir
       posix_path home_at].
  destruct (Js.startsWith rawPath "~").
  - rewrite (join_absolute _ _ home_absolute).
    apply Hq, join_absolute, home_absolute.
  - destruct (Posix.isAbsolute rawPath) eqn:Habs; [apply Hq, Habs|].
    destruct base as [base|]; [|discriminate].
    destruct (resolve_is_resolved cwd [base; rawPath] cwd_absolute) as (stack & _ & ->).
    apply Hq. reflexivity.
Qed.

End ResolvedPaths.

Lemma resolveBoardPath_result_is_absolute_and_fixed_witness :
  Posix.isAbsolute "/home/user/projects/other-boards/main" = true
  ∧ ∀ base', @PathUtils.resolveBoardPath (posix_path "/work") (home_at "/home/user")
               "/home/user/projects/other-boards/main" base'
             = Return "/home/user/projects/other-boards/main".
Proof.
  apply (resolveBoardPath_result_is_absolute_and_fixed "/work" "/home/user"
           eq_refl eq_refl "../other-boards/main"
           (Some "/home/user/projects/myproject")).
  - intros Hblank. apply blank_test_iff in Hblank. vm_compute in Hblank. discriminate.
  - vm_compute. reflexivity.
Defined.
(** ** Directory and file names *)

Lemma charCodeAt_app_r a b j :
  0 ≤ j → Js.charCodeAt (a +:+ b) (Js.length a + j) = Js.charCodeAt b j.
Proof.
  intros Hj. unfold Js.charCodeAt. pose proof (js_length_nonneg a).
  rewrite !(proj2 (Z.ltb_ge _ _)) by lia. unfold Js.length.
  replace (Z.to_nat (Z.of_nat (String.length a) + j))
    with (String.length a + Z.to_nat j)%nat by lia.
  induction a as [|x a IH]; [reflexivity|]. rewrite app_cons. simpl. apply IH.
  apply js_length_nonneg.
Qed.

Lemma no_slash_at seg j : Spec.contains Js.slash seg = false → Posix.is_slash_at seg j = false.
Proof.
  intros Hseg. unfold Posix.is_slash_at, Js.charCodeAt.
  destruct (j <? 0); [reflexivity|]. generalize (Z.to_nat j). clear j.
  induction seg as [|c seg IH]; intros n; [destruct n; reflexivity|].
  simpl in Hseg. apply orb_false_iff in Hseg as [Hc Hseg].
  destruct n as [|n]; simpl; [exact Hc|apply IH, Hseg].
Qed.

Lemma slash_after d rest : Posix.is_slash_at (d +:+ "/" +:+ rest) (Js.length d) = true.
Proof.
  unfold Posix.is_slash_at. change ("/" +:+ rest) with (String Js.slash rest).
  rewrite charCodeAt_app. apply Ascii.eqb_refl.
Qed.

Lemma in_segment_no_slash d seg k :
  Spec.contains Js.slash seg = false →
  Posix.is_slash_at (d +:+ "/" +:+ seg) (Js.length d + 1 + Z.of_nat k) = false.
Proof.
  intros Hseg. unfold Posix.is_slash_at.
  rewrite <- app_assoc_string.
  replace (Js.length d + 1) with (Js.length (d +:+ "/"))
    by (rewrite js_length_app; reflexivity).
  rewrite charCodeAt_app_r by lia. apply (no_slash_at seg _ Hseg).
Qed.

(** The loop of [dirname] passes over the last segment and stops at the
    separator before it. *)
Lemma dirname_loop_segment d seg :
  d ≠ "" → Spec.contains Js.slash seg = false →
  ∀ k m, Posix.dirname_loop (d +:+ "/" +:+ seg) (String.length d + S k) m = Js.length d.
Proof.
  intros Hd Hseg.
  assert (Hstop : Posix.dirname_loop (d +:+ "/" +:+ seg) (String.length d) false
                  = Js.length d).
  { destruct d as [|c d]; [contradiction|].
    change (String.length (String c d)) with (S (String.length d)).
    cbn [Posix.dirname_loop].
    change (Z.of_nat (S (String.length d))) with (Js.length (String c d)).
    rewrite slash_after. reflexivity. }
  induction k as [|k IH]; intros m; rewrite Nat.add_succ_r; cbn [Posix.dirname_loop].
  - replace (Z.of_nat (S (String.length d + 0))) with (Js.length d + 1 + Z.of_nat 0)
      by (unfold Js.length; lia).
    rewrite (in_segment_no_slash d seg 0 Hseg), Nat.add_0_r. exact Hstop.
  - replace (Z.of_nat (S (String.length d + S k))) with (Js.length d + 1 + Z.of_nat (S k))
      by (unfold Js.length; lia).
    rewrite (in_segment_no_slash d seg (S k) Hseg). apply IH.
Qed.

(** [dirname] of a path whose last segment follows a separator is what
    stands before that separator. *)
Lemma dirname_of_entry d seg :
  d ≠ "" → d ≠ "/" → seg ≠ "" → Spec.contains Js.slash seg = false →
  Posix.dirname (d +:+ "/" +:+ seg) = d.
Proof.
  intros Hd Hroot Hseg Hslash. unfold Posix.dirname.
  assert (Hlen : Js.length (d +:+ "/" +:+ seg) = Js.length d + 1 + Js.length seg).
  { rewrite !js_length_app. change (Js.length "/") with 1. lia. }
  pose proof (length_at_least_one _ Hd). pose proof (length_at_least_one _ Hseg).
  rewrite (proj2 (Z.eqb_neq _ _)) by lia.
  assert (Hstart : (String.length (d +:+ "/" +:+ seg) - 1
                    = String.length d + S (String.length seg - 1))%nat).
  { unfold Js.length in *. rewrite !length_app. simpl. lia. }
  rewrite Hstart, (dirname_loop_segment d seg Hd Hslash).
  rewrite (proj2 (Z.eqb_neq _ _)) by lia.
  assert (Hnot : Posix.is_slash_at (d +:+ "/" +:+ seg) 0 && (Js.length d =? 1) = false).
  { destruct (Js.length d =? 1) eqn:Hone; [|apply andb_false_r].
    rewrite andb_true_r. apply Z.eqb_eq in Hone.
    destruct d as [|c [|c' d]]; [contradiction| |].
    - unfold Posix.is_slash_at. simpl. apply Ascii.eqb_neq. intros ->. contradiction.
    - rewrite !js_length_cons in Hone. pose proof (js_length_nonneg d). lia. }
  rewrite Hnot. apply slice_prefix.
Qed.

(** The loop of [basename] passes over the last segment and stops at the
    separator before it. *)
Lemma basename_loop_segment d seg :
  Spec.contains Js.slash seg = false →
  ∀ k e, e ≠ -1 →
  Posix.basename_loop (d +:+ "/" +:+ seg) (String.length d + 1 + k) e false
  = (Js.length d + 1, e).
Proof.
  intros Hseg. induction k as [|k IH]; intros e He.
  - rewrite Nat.add_0_r, Nat.add_1_r. cbn [Posix.basename_loop].
    change (Z.of_nat (String.length d)) with (Js.length d).
    rewrite slash_after. reflexivity.
  - rewrite Nat.add_succ_r. cbn [Posix.basename_loop].
    replace (Z.of_nat (String.length d + 1 + k)) with (Js.length d + 1 + Z.of_nat k)
      by (unfold Js.length; lia).
    rewrite (in_segment_no_slash d seg k Hseg).
    rewrite (proj2 (Z.eqb_neq _ _) He). apply IH, He.
Qed.

(** [basename] of such a path is its last segment. *)
Lemma basename_of_entry d seg :
  seg ≠ "" → Spec.contains Js.slash seg = false →
  Posix.basename (d +:+ "/" +:+ seg) = seg.
Proof.
  intros Hseg Hslash. unfold Posix.basename.
  assert (Hlen : (String.length (d +:+ "/" +:+ seg)
                  = S (String.length d + 1 + (String.length seg - 1)))%nat).
  { rewrite !length_app. simpl. pose proof (length_at_least_one _ Hseg).
    unfold Js.length in *. lia. }
  rewrite Hlen. cbn [Posix.basename_loop].
  replace (Z.of_nat (String.length d + 1 + (String.length seg - 1)))
    with (Js.length d + 1 + Z.of_nat (String.length seg - 1))
    by (unfold Js.length; lia).
  rewrite (in_segment_no_slash d seg _ Hslash).
  change (-1 =? -1) with true. cbv beta iota.
  rewrite (basename_loop_segment d seg Hslash) by (unfold Js.length; lia).
  cbv beta iota.
  rewrite (proj2 (Z.eqb_neq _ _)) by (unfold Js.length; lia).
  pose proof (slice_middle (d +:+ "/") seg "") as Hs.
  rewrite app_empty_r, app_assoc_string, js_length_app in Hs.
  change (Js.length "/") with 1 in Hs.
  replace (Js.length d + 1 + Z.of_nat (String.length seg - 1) + 1)
    with (Js.length d + 1 + Js.length seg)
    by (pose proof (length_at_least_one _ Hseg); unfold Js.length in *; lia).
  exact Hs.
Qed.

Lemma prefix_app p s : String.prefix p (p +:+ s) = true.
Proof.
  induction p as [|c p IH]; [destruct s; reflexivity|].
  rewrite app_cons. cbn [String.prefix].
  destruct (Ascii.ascii_dec c c) as [_|Hc]; [exact IH|contradiction].
Qed.

Lemma strip_md_of id : KanbnTaskDocument.strip_md (id +:+ ".md") = id.
Proof.
  unfold KanbnTaskDocument.strip_md, Js.endsWith.
  rewrite rev_app, prefix_app, js_length_app. change (Js.length ".md") with 3.
  replace (Js.length id + 3 - 3) with (Js.length id) by lia. apply slice_prefix.
Qed.

Lemma contains_md id :
  Spec.contains Js.slash id = false → Spec.contains Js.slash (id +:+ ".md") = false.
Proof. intros Hid. rewrite contains_app, Hid. reflexivity. Qed.

Lemma md_nonempty id : id +:+ ".md" ≠ "".
Proof. intros He. apply app_eq_empty in He as [_ He]. discriminate. Qed.

(** Node's [dirname] and [basename] on the paths the extension builds for
    the files of a board other than the root. *)
Lemma names_from_board_paths (board id : string) :
  board ≠ "" → board ≠ "/" → Spec.contains Js.slash id = false →
  @KanbnTaskDocument.taskId posix_parts (board +:+ "/.kanbn/tasks/" +:+ id +:+ ".md") = id
  ∧ @KanbnTaskDocument.boardPath posix_parts
      (board +:+ "/.kanbn/tasks/" +:+ id +:+ ".md") = board
  ∧ @KanbnBoardEditorProvider.boardPath posix_parts (board +:+ "/.kanbn/index.md")
    = board.
Proof.
  intros Hboard Hroot Hid.
  assert (Hne : ∀ rest, board +:+ rest ≠ "").
  { intros rest He. apply app_eq_empty in He as [He _]. contradiction. }
  assert (Hnr : ∀ c rest, board +:+ String c rest ≠ "/").
  { intros c rest He. destruct board as [|b [|b' board]]; [contradiction| |];
      rewrite ?app_cons in He; discriminate. }
  assert (Hdir : ∀ rest seg, seg ≠ "" → Spec.contains Js.slash seg = false →
            Posix.dirname (board +:+ rest +:+ "/" +:+ seg) = board +:+ rest).
  { intros rest seg Hseg Hslash. rewrite <- (app_assoc_string board rest).
    destruct rest as [|c rest].
    - rewrite app_empty_r. apply dirname_of_entry; assumption.
    - apply dirname_of_entry; auto. }
  split; [|split].
  - unfold KanbnTaskDocument.taskId. cbn [path_basename posix_parts].
    change (board +:+ "/.kanbn/tasks/" +:+ id +:+ ".md")
      with (board +:+ "/.kanbn/tasks" +:+ "/" +:+ (id +:+ ".md")).
    rewrite <- (app_assoc_string board "/.kanbn/tasks").
    rewrite basename_of_entry by (auto using md_nonempty, contains_md).
    apply strip_md_of.
  - unfold KanbnTaskDocument.boardPath. cbn [path_dirname posix_parts].
    change (board +:+ "/.kanbn/tasks/" +:+ id +:+ ".md")
      with (board +:+ "/.kanbn/tasks" +:+ "/" +:+ (id +:+ ".md")).
    rewrite (Hdir "/.kanbn/tasks" (id +:+ ".md")) by (auto using md_nonempty, contains_md).
    change (board +:+ "/.kanbn/tasks") with (board +:+ "/.kanbn" +:+ "/" +:+ "tasks").
    rewrite (Hdir "/.kanbn" "tasks") by (reflexivity || discriminate).
    change (board +:+ "/.kanbn") with (board +:+ "" +:+ "/" +:+ ".kanbn").
    rewrite (Hdir "" ".kanbn") by (reflexivity || discriminate).
    apply app_empty_r.
  - unfold KanbnBoardEditorProvider.boardPath. cbn [path_dirname posix_parts].
    change (board +:+ "/.kanbn/index.md") with (board +:+ "/.kanbn" +:+ "/" +:+ "index.md").
    rewrite (Hdir "/.kanbn" "index.md") by (reflexivity || discriminate).
    change (board +:+ "/.kanbn") with (board +:+ "" +:+ "/" +:+ ".kanbn").
    rewrite (Hdir "" ".kanbn") by (reflexivity || discriminate).
    apply app_empty_r.
Qed.

(** X22. The names the extension gives to the files of a board, and the names
    the documents get back from them, for a board directory other than
    the root.  When the [fsPath] of the URI that [kanbn.openTask] makes
    for a task id is the path it was made from, the task document opened
    on it has that id as [taskId] and the board as [boardPath], so the
    task editor asks the manager for the very board the commands use.
    When the [fsPath] of the URI that [kanbn.openBoard] makes for the
    index is the path it was made from, the board document has the board
    as [boardPath]. *)
Theorem names_of_board_files `{VscodeUri} (board id : string) :
  board ≠ "" → board ≠ "/" → Spec.contains Js.slash id = false →
  (Uri_file_fsPath (board +:+ "/.kanbn/tasks/" +:+ id +:+ ".md")
   = board +:+ "/.kanbn/tasks/" +:+ id +:+ ".md" →
   @KanbnTaskDocument.taskId posix_parts
     (Uri_file_fsPath (board +:+ "/.kanbn/tasks/" +:+ id +:+ ".md")) = id
   ∧ @KanbnTaskDocument.boardPath posix_parts
       (Uri_file_fsPath (board +:+ "/.kanbn/tasks/" +:+ id +:+ ".md")) = board)
  ∧ (Uri_file_fsPath (board +:+ "/.kanbn/index.md") = board +:+ "/.kanbn/index.md" →
     @KanbnBoardEditorProvider.boardPath posix_parts
       (Uri_file_fsPath (board +:+ "/.kanbn/index.md")) = board).
Proof.
  intros Hboard Hroot Hid.
  destruct (names_from_board_paths board id Hboard Hroot Hid) as (Htask & Hdir & Hindex).
  split.
  - intros ->. split; assumption.
  - intros ->. exact Hindex.
Qed.

Lemma names_of_board_files_witness :
  (@Uri_file_fsPath posix_uri ("/ws" +:+ "/.kanbn/tasks/" +:+ "a" +:+ ".md")
   = "/ws" +:+ "/.kanbn/tasks/" +:+ "a" +:+ ".md" →
   @KanbnTaskDocument.taskId posix_parts
     (@Uri_file_fsPath posix_uri ("/ws" +:+ "/.kanbn/tasks/" +:+ "a" +:+ ".md")) = "a"
   ∧ @KanbnTaskDocument.boardPath posix_parts
       (@Uri_file_fsPath posix_uri ("/ws" +:+ "/.kanbn/tasks/" +:+ "a" +:+ ".md")) = "/ws")
  ∧ (@Uri_file_fsPath posix_uri ("/ws" +:+ "/.kanbn/index.md")
     = "/ws" +:+ "/.kanbn/index.md" →
     @KanbnBoardEditorProvider.boardPath posix_parts
       (@Uri_file_fsPath posix_uri ("/ws" +:+ "/.kanbn/index.md")) = "/ws").
Proof.
  apply (@names_of_board_files posix_uri "/ws" "a");
    [discriminate|discriminate|reflexivity].
Defined.

Lemma joined_push stack x :
  stack ≠ [] → Spec.joined (stack ++ [x]) = Spec.joined stack +:+ "/" +:+ x.
Proof. intros Hne. rewrite joined_snoc. destruct stack; [contradiction|reflexivity]. Qed.

Lemma md_is_entry id :
  Spec.contains Js.slash id = false → Spec.entry (id +:+ ".md").
Proof.
  intros Hid. split; [apply md_nonempty|].
  split; [|split; [|apply contains_md, Hid]];
    intros He; apply (f_equal String.length) in He; rewrite length_app in He;
    simpl in He; lia.
Qed.

(** A path made of a resolved directory and entries below it is normal. *)
Lemma normalize_below stack below :
  Forall Spec.entry stack → stack ≠ [] → Forall Spec.entry below →
  Posix.normalize ("/" +:+ Spec.joined (stack ++ below))
  = "/" +:+ Spec.joined (stack ++ below).
Proof.
  intros Hstack _ Hbelow. apply normalize_resolved, Forall_app. auto.
Qed.

(** X23. [showTaskPanel] of the board editor, on a board document whose
    [fsPath] is the index file of a board, the board being a directory as
    [path.resolve] returns them, other than the root: for a task id it
    opens the URI made from the path of that task's file below the board,
    which is the URI that [kanbn.openTask] opens for the board and a task
    picked with that id. *)
Theorem showTaskPanel_opens_the_task_file `{VscodeUri}
    (cwd location taskId : string) :
  Posix.isAbsolute cwd = true →
  Posix.resolve cwd [location] ≠ "/" →
  taskId ≠ "" → Spec.contains Js.slash taskId = false →
  @KanbnBoardEditorProvider.showTaskPanel (posix_path cwd) posix_parts _
    (Posix.resolve cwd [location] +:+ "/.kanbn/index.md") (Some taskId)
  = Some (Uri_file_fsPath
            (Posix.resolve cwd [location] +:+ "/.kanbn/tasks/" +:+ taskId +:+ ".md"))
  ∧ ∀ label,
      Extension.picked_task_path (Posix.resolve cwd [location])
        (Some (Extension.TaskItem label taskId))
      = Some (Uri_file_fsPath
                (Posix.resolve cwd [location] +:+ "/.kanbn/tasks/" +:+ taskId +:+ ".md")).
Proof.
  intros Hcwd Hroot Hid Hslash. split; [|reflexivity].
  destruct (resolve_is_resolved cwd [location] Hcwd) as (stack & Hentries & Hboard).
  rewrite Hboard in *.
  assert (Hstack : stack ≠ []) by (intros ->; apply Hroot; reflexivity).
  unfold KanbnBoardEditorProvider.showTaskPanel.
  assert (Hfalsy : Js.falsy taskId = false).
  { unfold Js.falsy. apply String.eqb_neq. exact Hid. }
  rewrite Hfalsy. cbn [negb path_dirname path_join posix_parts posix_path].
  do 2 f_equal.
  change (("/" +:+ Spec.joined stack) +:+ "/.kanbn/index.md")
    with (("/" +:+ Spec.joined stack) +:+ "/.kanbn" +:+ "/" +:+ "index.md").
  rewrite <- (app_assoc_string ("/" +:+ Spec.joined stack) "/.kanbn").
  assert (Hdir : ("/" +:+ Spec.joined stack) +:+ "/.kanbn" ≠ ""
                 ∧ ("/" +:+ Spec.joined stack) +:+ "/.kanbn" ≠ "/").
  { split; intros He; rewrite app_assoc_string, app_cons in He; [discriminate|].
    injection He as He. apply app_eq_empty in He as [_ He].
    apply app_eq_empty in He as [_ He]. discriminate. }
  rewrite dirname_of_entry by (reflexivity || discriminate || apply Hdir).
  unfold Posix.join. cbn [Posix.join_loop].
  assert (Hpos : ∀ s, s ≠ "" → (0 <? Js.length s) = true).
  { intros s Hs. apply Z.ltb_lt. pose proof (length_at_least_one _ Hs). lia. }
  rewrite (Hpos (("/" +:+ Spec.joined stack) +:+ "/.kanbn")) by apply Hdir.
  rewrite (Hpos "tasks") by discriminate.
  rewrite (Hpos (taskId +:+ ".md")) by apply md_nonempty.
  assert (Hpath : ((("/" +:+ Spec.joined stack) +:+ "/.kanbn") +:+ "/" +:+ "tasks")
                  +:+ "/" +:+ taskId +:+ ".md"
                  = "/" +:+ Spec.joined (stack ++ [".kanbn"; "tasks"; taskId +:+ ".md"])).
  { change (stack ++ [".kanbn"; "tasks"; taskId +:+ ".md"])
      with (stack ++ [".kanbn"] ++ ["tasks"] ++ [taskId +:+ ".md"]).
    rewrite !app_assoc, !joined_push by (apply snoc_nonempty || exact Hstack).
    rewrite !app_assoc_string. reflexivity. }
  rewrite Hpath, normalize_below; [| assumption | assumption |].
  - rewrite <- Hpath, !app_assoc_string. reflexivity.
  - apply Forall_cons. split; [repeat split; (discriminate || reflexivity)|].
    apply Forall_cons. split; [repeat split; (discriminate || reflexivity)|].
    apply Forall_cons. split; [apply md_is_entry, Hslash|constructor].
Qed.

Lemma showTaskPanel_opens_the_task_file_witness :
  @KanbnBoardEditorProvider.showTaskPanel (posix_path "/work") posix_parts posix_uri
    (Posix.resolve "/work" ["/ws/boards/../main"] +:+ "/.kanbn/index.md") (Some "a")
  = Some (@Uri_file_fsPath posix_uri
            (Posix.resolve "/work" ["/ws/boards/../main"]
             +:+ "/.kanbn/tasks/" +:+ "a" +:+ ".md"))
  ∧ ∀ label,
      @Extension.picked_task_path posix_uri (Posix.resolve "/work" ["/ws/boards/../main"])
        (Some (Extension.TaskItem label "a"))
      = Some (@Uri_file_fsPath posix_uri
                (Posix.resolve "/work" ["/ws/boards/../main"]
                 +:+ "/.kanbn/tasks/" +:+ "a" +:+ ".md")).
Proof.
  apply (@showTaskPanel_opens_the_task_file posix_uri "/work" "/ws/boards/../main" "a");
    [reflexivity|vm_compute; discriminate|discriminate|reflexivity].
Defined.

(** ** One edit after another *)

(** X24. Two edits made one after the other, nothing else touching the
    document in between, report two changes whose snapshots meet: undoing
    the second gives the bytes that redoing the first gives, undoing both
    gives the bytes from before the first and redoing both the bytes
    after the second. *)
Theorem consecutive_edits_meet
    (label1 label2 : string) (edit1 edit2 : prog KanbnDocument.t unit)
    (this between after : KanbnDocument.t) (events : list KanbnDocument.change) :
  edit1 this = (Return tt, between) →
  edit2 between = (Return tt, after) →
  ∃ change1 change2,
    (_ ← KanbnDocument.makeEdit label1 edit1; KanbnDocument.makeEdit label2 edit2)
      (this, events)
    = (Return tt, (after, events ++ [change1; change2]))
    ∧ (∀ later later',
         KanbnDocument._documentData (KanbnDocument.undo change2 later)
         = KanbnDocument._documentData (KanbnDocument.redo change1 later'))
    ∧ (∀ later,
         KanbnDocument._documentData
           (KanbnDocument.undo change1 (KanbnDocument.undo change2 later))
         = KanbnDocument._documentData this)
    ∧ (∀ later,
         KanbnDocument._documentData
           (KanbnDocument.redo change2 (KanbnDocument.redo change1 later))
         = KanbnDocument._documentData after).
Proof.
  intros Hedit1 Hedit2. eexists _, _. split.
  - unfold mbind, prog_bind, bind.
    rewrite (makeEdit_resolved label1 edit1 this between events Hedit1).
    rewrite (makeEdit_resolved label2 edit2 between after _ Hedit2).
    rewrite <- app_assoc. reflexivity.
  - simpl. repeat split; intros; rewrite !restore_data; reflexivity.
Qed.

(** ** The task picker *)

Section TaskPicker.
Import Extension.


(** X26. When an option names a column that the board does not have, the
    command fails before any picker is shown. *)
Theorem openTask_fails_on_an_unknown_column
    {Task} (i : index) (getTask : string → option Task) (c : string) :
  c ∈ default [] (startedColumns i) ∨ c ∈ default [] (completedColumns i) →
  OrderedMap.get (columns i) c = None →
  tasksByColumns i getTask = None.
Proof.
  intros Hin Hnone. unfold tasksByColumns. apply mapM_None_2, Exists_exists.
  exists c. split.
  - unfold columnOrder. rewrite !elem_of_app. tauto.
  - rewrite Hnone. reflexivity.
Qed.

End TaskPicker.
(** ** Paths that are their own key *)

Lemma replace_backslashes_none s :
  Spec.contains Js.backslash s = false → Js.replace_backslashes s = s.
Proof.
  induction s as [|c s IH]; [reflexivity|]. simpl. intros Hs.
  apply orb_false_iff in Hs as [Hc Hs]. rewrite Hc, (IH Hs). reflexivity.
Qed.

(** X27. On a POSIX system a path as [path.resolve] returns it, without a
    backslash, is its own normal form for the adapters: a document
    registered under such an [fsPath] is found under that path. *)
Theorem resolved_path_is_its_own_key (cwd location : string) :
  Posix.isAbsolute cwd = true →
  Spec.contains Js.backslash (Posix.resolve cwd [location]) = false →
  @MultiDocAdapter.normalizePath (posix_path cwd) (Posix.resolve cwd [location])
  = Posix.resolve cwd [location]
  ∧ ∀ g s,
      MultiDocAdapter.documentCallbacks
        (MultiDocAdapter.constructor (Posix.resolve cwd [location]) g s)
      !! @MultiDocAdapter.normalizePath (posix_path cwd) (Posix.resolve cwd [location])
      = Some (MultiDocAdapter.Callbacks g s).
Proof.
  intros Hcwd Hclean.
  destruct (resolve_is_resolved cwd [location] Hcwd) as (stack & Hentries & Hpath).
  assert (Hkey : @MultiDocAdapter.normalizePath (posix_path cwd) (Posix.resolve cwd [location])
                 = Posix.resolve cwd [location]).
  { unfold MultiDocAdapter.normalizePath. cbn [path_normalize posix_path].
    rewrite Hpath in *. rewrite (normalize_resolved stack Hentries).
    apply replace_backslashes_none, Hclean. }
  split; [exact Hkey|]. intros g s. rewrite Hkey. simpl. apply lookup_insert_eq.
Qed.

Lemma resolved_path_is_its_own_key_witness :
  @MultiDocAdapter.normalizePath (posix_path "/work")
    (Posix.resolve "/work" ["/ws/.kanbn/tasks/a.md"])
  = Posix.resolve "/work" ["/ws/.kanbn/tasks/a.md"]
  ∧ ∀ g s,
      MultiDocAdapter.documentCallbacks
        (MultiDocAdapter.constructor (Posix.resolve "/work" ["/ws/.kanbn/tasks/a.md"]) g s)
      !! @MultiDocAdapter.normalizePath (posix_path "/work")
           (Posix.resolve "/work" ["/ws/.kanbn/tasks/a.md"])
      = Some (MultiDocAdapter.Callbacks g s).
Proof.
  apply (resolved_path_is_its_own_key "/work" "/ws/.kanbn/tasks/a.md"); reflexivity.
Defined.
(** ** The theorems at work *)

Lemma task_store_serves_the_calling_document_witness :
  ∃ a adapter,
    KanbnGlobalManager.kanbns
      (KanbnGlobalManager.getKanbnForDocument KanbnGlobalManager.initial task_a "/ws"
         (decode_document 0) (encode_into_document 0)).2
      !! (KanbnGlobalManager.getKanbnForDocument KanbnGlobalManager.initial task_a "/ws"
            (decode_document 0) (encode_into_document 0)).1
    = Some (KanbnGlobalManager.NewKanbn "/ws" a a)
    ∧ KanbnGlobalManager.adapters
        (KanbnGlobalManager.getKanbnForDocument KanbnGlobalManager.initial task_a "/ws"
           (decode_document 0) (encode_into_document 0)).2 !! a = Some adapter
    ∧ ∀ filePath (h : @host mem_fs),
        @MultiDocAdapter.normalizePath (posix_path "/work") filePath = task_a →
        @MultiDocAdapter.readFile (posix_path "/work") utf8 mem_fs adapter filePath h
        = (Return (@call_getter utf8 mem_fs (decode_document 0) h), h)
        ∧ (∀ mode, @MultiDocAdapter.access (posix_path "/work") mem_fs adapter filePath mode h
                   = (Return tt, h))
        ∧ (∀ data, @MultiDocAdapter.writeFile (posix_path "/work") utf8 mem_fs
                     adapter filePath data h
                   = (Return tt, @call_setter utf8 mem_fs (encode_into_document 0) data h))
        ∧ (∀ data, disk_calls (@MultiDocAdapter.writeFile (posix_path "/work") utf8 mem_fs
                                 adapter filePath data h).2
                   = disk_calls h).
Proof.
  apply (@task_store_serves_the_calling_document (posix_path "/work") utf8 mem_fs
           KanbnGlobalManager.initial task_a "/ws").
  apply KanbnGlobalManager.reachable_initial.
Defined.

Lemma getKanbnForBoard_serves_an_empty_index_witness :
  ∃ a adapter,
    KanbnGlobalManager.kanbns
      (@Extension.getKanbnForBoard posix_uri one_editor "/ws").2
      !! (@Extension.getKanbnForBoard posix_uri one_editor "/ws").1
    = Some (KanbnGlobalManager.NewKanbn "/ws" a a)
    ∧ KanbnGlobalManager.adapters
        (@Extension.getKanbnForBoard posix_uri one_editor "/ws").2 !! a = Some adapter
    ∧ ∀ filePath (h : @host mem_fs),
        @MultiDocAdapter.normalizePath (posix_path "/work") filePath
        = @Uri_file_fsPath posix_uri ("/ws" +:+ "/.kanbn/index.md") →
        @MultiDocAdapter.readFile (posix_path "/work") utf8 mem_fs adapter filePath h
        = (Return "", h)
        ∧ ∀ data, @MultiDocAdapter.writeFile (posix_path "/work") utf8 mem_fs
                    adapter filePath data h = (Return tt, h).
Proof.
  apply (@getKanbnForBoard_serves_an_empty_index (posix_path "/work") utf8 mem_fs
           posix_uri one_editor "/ws").
  apply KanbnGlobalManager.reachable_perform, KanbnGlobalManager.reachable_initial.
Defined.

Lemma getKanbnForBoard_pins_the_board_witness :
  let calls :=
    [KanbnGlobalManager.GetKanbnForDocument task_a "/ws"
       (decode_document 0) (encode_into_document 0);
     KanbnGlobalManager.CleanupDocument task_a "/ws";
     KanbnGlobalManager.GetKanbnForDocument task_b "/ws"
       (decode_document 1) (encode_into_document 1)] in
  Forall (λ kanbn, kanbn = (@Extension.getKanbnForBoard posix_uri
                              KanbnGlobalManager.initial "/ws").1)
         (KanbnGlobalManager.returned_for "/ws" calls
            (@Extension.getKanbnForBoard posix_uri KanbnGlobalManager.initial "/ws").2)
  ∧ Forall (λ st, KanbnGlobalManager.kanbnInstances st !! "/ws"
                  = Some (@Extension.getKanbnForBoard posix_uri
                            KanbnGlobalManager.initial "/ws").1)
           (KanbnGlobalManager.states_after calls
              (@Extension.getKanbnForBoard posix_uri KanbnGlobalManager.initial "/ws").2).
Proof.
  intros calls.
  apply (@getKanbnForBoard_pins_the_board posix_uri KanbnGlobalManager.initial "/ws" calls).
  - apply KanbnGlobalManager.reachable_initial.
  - repeat constructor; discriminate.
Defined.

Lemma task_document_open_close_round_trip_witness :
  let closed :=
    @KanbnTaskDocument.dispose posix_parts task_b
      (@KanbnTaskDocument.initializeForWebview posix_parts 1 task_b one_editor).2 in
  KanbnGlobalManager.kanbnInstances closed = KanbnGlobalManager.kanbnInstances one_editor
  ∧ KanbnGlobalManager.documentAdapters closed
    = KanbnGlobalManager.documentAdapters one_editor
  ∧ KanbnGlobalManager.getStats closed = KanbnGlobalManager.getStats one_editor.
Proof.
  apply (@task_document_open_close_round_trip posix_parts one_editor 1 task_b).
  - apply KanbnGlobalManager.reachable_perform, KanbnGlobalManager.reachable_initial.
  - intros info Hinfo. vm_compute in Hinfo. injection Hinfo as <-. vm_compute. reflexivity.
Defined.

Lemma access_probes_the_disk_witness :
  (@DiskAdapter.access (posix_path "/work") mem_fs mkdir_adapter "/ws/.kanbn/tasks/x.md"
     None mkdir_host
   = @DiskAdapter.access (posix_path "/work") mem_fs mkdir_adapter "/ws/.kanbn/tasks/x.md"
       (Some 6) mkdir_host
   ∧ @DiskAdapter.access (posix_path "/work") mem_fs mkdir_adapter "/ws/.kanbn/tasks/x.md"
       (Some 0) mkdir_host
     = @DiskAdapter.access (posix_path "/work") mem_fs mkdir_adapter "/ws/.kanbn/tasks/x.md"
         (Some 6) mkdir_host)
  ∧ (∀ mode,
       @MultiDocAdapter.access (posix_path "/work") mem_fs mkdir_multi
         "/ws/.kanbn/tasks/x.md" mode mkdir_host
       = @DiskAdapter.access (posix_path "/work") mem_fs mkdir_adapter
           "/ws/.kanbn/tasks/x.md" mode mkdir_host)
  ∧ ∀ mode, mode ≠ 0 →
      @DiskAdapter.access (posix_path "/work") mem_fs mkdir_adapter "/ws/.kanbn/tasks/x.md"
        (Some mode) mkdir_host
      = (match @fs_access mem_fs "/ws/.kanbn/tasks/x.md" mode (the_disk mkdir_host) with
         | Return _ => Return tt
         | Throw _ =>
             Throw (ErrorObject None
                      ("ENOENT: no such file or directory, access '"
                       +:+ "/ws/.kanbn/tasks/x.md" +:+ "'"))
         end,
         @Host mem_fs (buffers mkdir_host) (the_disk mkdir_host)
           (disk_calls mkdir_host ++ [CallAccess "/ws/.kanbn/tasks/x.md" mode])).
Proof.
  apply (@access_probes_the_disk (posix_path "/work") mem_fs mkdir_adapter mkdir_multi
           "/ws/.kanbn/tasks/x.md" mkdir_host); vm_compute; reflexivity.
Defined.


Lemma board_document_write_then_read_witness :
  let adapter := KanbnBoardEditorProvider.initializeForWebview 0 "/ws/.kanbn/index.md" in
  let after :=
    (@DiskAdapter.writeFile (posix_path "/work") utf8 mem_fs adapter
       "/ws/.kanbn/../.kanbn/index.md" "# Board" mkdir_host).2 in
  (@DiskAdapter.writeFile (posix_path "/work") utf8 mem_fs adapter
     "/ws/.kanbn/../.kanbn/index.md" "# Board" mkdir_host).1 = Return tt
  ∧ @DiskAdapter.readFile (posix_path "/work") utf8 mem_fs adapter
      "/ws/.kanbn/index.md" after
    = (Return (@TextDecoder_decode utf8 (@TextEncoder_encode utf8 "# Board")), after)
  ∧ buffers after = <[0%nat := @TextEncoder_encode utf8 "# Board"]> (buffers mkdir_host)
  ∧ the_disk after = the_disk mkdir_host
  ∧ disk_calls after = disk_calls mkdir_host.
Proof.
  apply (@board_document_write_then_read (posix_path "/work") utf8 mem_fs 0
           "/ws/.kanbn/index.md" "/ws/.kanbn/../.kanbn/index.md" "/ws/.kanbn/index.md"
           "# Board" mkdir_host); vm_compute; reflexivity.
Defined.

Lemma virtual_write_then_read_witness :
  let this := VirtualAdapter.constructor "/ws/.kanbn/index.md" (decode_document 0)
                (encode_into_document 0) in
  let after :=
    (@VirtualAdapter.writeFile (posix_path "/work") utf8 mem_fs "/ws/notes.txt" "draft"
       (this, mkdir_host)).2 in
  (@VirtualAdapter.writeFile (posix_path "/work") utf8 mem_fs "/ws/notes.txt" "draft"
     (this, mkdir_host)).1 = Return tt
  ∧ after.2 = mkdir_host
  ∧ @VirtualAdapter.readFile (posix_path "/work") utf8 mem_fs "/ws/./notes.txt" after
    = (Return "draft", after)
  ∧ (∀ mode, @VirtualAdapter.access (posix_path "/work") mem_fs "/ws/./notes.txt" mode after
             = (Return tt, after))
  ∧ OrderedMap.get (VirtualAdapter.getVirtualFiles after.1)
      (@VirtualAdapter.normalizePath (posix_path "/work") "/ws/notes.txt") = Some "draft".
Proof.
  intros this.
  apply (@virtual_write_then_read (posix_path "/work") utf8 mem_fs this mkdir_host
           "/ws/notes.txt" "/ws/./notes.txt" "draft"); vm_compute; reflexivity.
Defined.

Lemma virtual_rename_moves_the_text_witness :
  let after :=
    (@VirtualAdapter.rename (posix_path "/work") mem_fs "/ws/notes.txt" "/ws/todo.txt"
       (notes_adapter.1, notes_adapter.2)).2 in
  (@VirtualAdapter.rename (posix_path "/work") mem_fs "/ws/notes.txt" "/ws/todo.txt"
     (notes_adapter.1, notes_adapter.2)).1 = Return tt
  ∧ after.2 = notes_adapter.2
  ∧ OrderedMap.get (VirtualAdapter.fileContentMap after.1)
      (@VirtualAdapter.normalizePath (posix_path "/work") "/ws/todo.txt") = Some "draft"
  ∧ OrderedMap.get (VirtualAdapter.fileContentMap after.1)
      (@VirtualAdapter.normalizePath (posix_path "/work") "/ws/notes.txt") = None
  ∧ VirtualAdapter.fileExistsMap after.1
    !! @VirtualAdapter.normalizePath (posix_path "/work") "/ws/todo.txt" = Some true
  ∧ VirtualAdapter.fileExistsMap after.1
    !! @VirtualAdapter.normalizePath (posix_path "/work") "/ws/notes.txt" = None
  ∧ (@VirtualAdapter.isMainIndexFile (posix_path "/work") notes_adapter.1
       (@VirtualAdapter.normalizePath (posix_path "/work") "/ws/todo.txt") = false →
     @VirtualAdapter.readFile (posix_path "/work") utf8 mem_fs "/ws/todo.txt" after
     = (Return "draft", after)).
Proof.
  apply (@virtual_rename_moves_the_text (posix_path "/work") utf8 mem_fs
           notes_adapter.1 notes_adapter.2 "/ws/notes.txt" "/ws/todo.txt" "draft").
  - vm_compute. reflexivity.
  - vm_compute. discriminate.
Defined.

Lemma virtual_rename_onto_itself_deletes_witness :
  let after :=
    (@VirtualAdapter.rename (posix_path "/work") mem_fs "/ws/notes.txt" "/ws/./notes.txt"
       (notes_adapter.1, notes_adapter.2)).2 in
  (@VirtualAdapter.rename (posix_path "/work") mem_fs "/ws/notes.txt" "/ws/./notes.txt"
     (notes_adapter.1, notes_adapter.2)).1 = Return tt
  ∧ OrderedMap.get (VirtualAdapter.getVirtualFiles after.1)
      (@VirtualAdapter.normalizePath (posix_path "/work") "/ws/notes.txt") = None
  ∧ VirtualAdapter.fileExistsMap after.1
    !! @VirtualAdapter.normalizePath (posix_path "/work") "/ws/notes.txt" = None
  ∧ VirtualAdapter.fired after.1
    = VirtualAdapter.fired notes_adapter.1 ++ ["/ws/./notes.txt"].
Proof.
  apply (@virtual_rename_onto_itself_deletes (posix_path "/work") mem_fs
           notes_adapter.1 notes_adapter.2 "/ws/notes.txt" "/ws/./notes.txt" "draft");
    vm_compute; reflexivity.
Defined.

Lemma virtual_access_never_fails_by_itself_witness :
  (OrderedMap.has (VirtualAdapter.fileContentMap notes_adapter.1)
     (@VirtualAdapter.normalizePath (posix_path "/work") "/ws/notes.txt") = true →
   @VirtualAdapter.access (posix_path "/work") mem_fs "/ws/notes.txt" None
     (notes_adapter.1, notes_adapter.2)
   = (Return tt, (notes_adapter.1, notes_adapter.2)))
  ∧ (∀ e, (@VirtualAdapter.access (posix_path "/work") mem_fs "/ws/notes.txt" None
             (notes_adapter.1, notes_adapter.2)).1 = Throw e →
          ∃ e', @fs_access mem_fs "/ws/notes.txt" (access_mode None)
                  (the_disk notes_adapter.2) = Throw e'
                ∧ disk_calls (@VirtualAdapter.access (posix_path "/work") mem_fs
                                "/ws/notes.txt" None
                                (notes_adapter.1, notes_adapter.2)).2.2
                  = disk_calls notes_adapter.2
                    ++ [CallAccess "/ws/notes.txt" (access_mode None)])
  ∧ NoDup (OrderedMap.keys (VirtualAdapter.getVirtualFiles notes_adapter.1)).
Proof.
  apply (@virtual_access_never_fails_by_itself (posix_path "/work") utf8 mem_fs
           notes_adapter.1 notes_adapter.2 "/ws/notes.txt" None).
  exact (@VirtualAdapter.built_call (posix_path "/work") utf8 mem_fs
           (VirtualAdapter.WriteFile "/ws/notes.txt" "draft") _
           (@Host mem_fs ∅ MemDisk.empty [])
           (@VirtualAdapter.built_new (posix_path "/work") utf8 mem_fs
              "/ws/.kanbn/index.md" (decode_document 0) (encode_into_document 0))).
Defined.

Lemma debounce_runs_the_last_call_after_the_delay_witness :
  (Debounce.run log_call 1500
     (Debounce.Call "typed" :: map Debounce.Elapse [1000; 600]) fresh_debounced).2
  = if Debounce.delay 1500 <=? Debounce.elapsed (map (@Debounce.Elapse string) [1000; 600])
    then log_call "typed" fresh_debounced.2 else fresh_debounced.2.
Proof.
  apply (debounce_runs_the_last_call_after_the_delay log_call 1500 fresh_debounced
           "typed" [1000; 600]).
  apply Debounce.reachable_new.
Defined.

Lemma debounce_cancel_drops_the_pending_call_witness :
  (Debounce.run log_call 1500 (Debounce.Cancel :: map Debounce.Elapse [2000])
     (Debounce.step log_call 1500 fresh_debounced (Debounce.Call "typed"))).2
  = (Debounce.step log_call 1500 fresh_debounced (Debounce.Call "typed")).2.
Proof.
  apply (debounce_cancel_drops_the_pending_call log_call 1500
           (Debounce.step log_call 1500 fresh_debounced (Debounce.Call "typed")) [2000]).
  apply Debounce.reachable_step, Debounce.reachable_new.
Defined.

Lemma blur_applies_one_edit_witness :
  ∃ change,
    (foldl (@KanbnTaskEditorProvider.happen posix_parts string
              sample_updateTask sample_createTask task_a)
       fresh_editor
       (map (λ d, KanbnTaskEditorProvider.Message (KanbnTaskEditorProvider.TextChange d))
            ["# A"; "# A, typed"]
        ++ KanbnTaskEditorProvider.Message (KanbnTaskEditorProvider.Blur "# A, final")
        :: map KanbnTaskEditorProvider.Wait [2000])).2
    = (KanbnDocument.set_documentData (@TextEncoder_encode utf8 "# A, final") sample_document,
       fresh_editor.2.2 ++ [change])
    ∧ KanbnDocument.label change = "Update task content"
    ∧ (∀ later, KanbnDocument._documentData (KanbnDocument.undo change later)
                = KanbnDocument._documentData fresh_editor.2.1)
    ∧ (∀ later, KanbnDocument._documentData (KanbnDocument.redo change later)
                = KanbnDocument._documentData
                    (KanbnDocument.set_documentData
                       (@TextEncoder_encode utf8 "# A, final") sample_document)).
Proof.
  apply (@blur_applies_one_edit posix_parts string sample_updateTask sample_createTask
           task_a fresh_editor ["# A"; "# A, typed"] "# A, final"
           (KanbnTaskEditorProvider.Blur "# A, final") "Update task content" [2000]).
  - apply KanbnTaskEditorProvider.reachable_resolved.
  - left. split; reflexivity.
  - vm_compute. reflexivity.
Defined.

Lemma consecutive_edits_meet_witness :
  ∃ change1 change2,
    (_ ← KanbnDocument.makeEdit "Update task content" sample_edit;
     KanbnDocument.makeEdit "Save task" sample_edit) (sample_document, [])
    = (Return tt,
       (KanbnDocument.set_documentData (@TextEncoder_encode utf8 "# Task B")
          (KanbnDocument.set_documentData (@TextEncoder_encode utf8 "# Task B")
             sample_document),
        [] ++ [change1; change2]))
    ∧ (∀ later later',
         KanbnDocument._documentData (KanbnDocument.undo change2 later)
         = KanbnDocument._documentData (KanbnDocument.redo change1 later'))
    ∧ (∀ later,
         KanbnDocument._documentData
           (KanbnDocument.undo change1 (KanbnDocument.undo change2 later))
         = KanbnDocument._documentData sample_document)
    ∧ (∀ later,
         KanbnDocument._documentData
           (KanbnDocument.redo change2 (KanbnDocument.redo change1 later))
         = KanbnDocument._documentData
             (KanbnDocument.set_documentData (@TextEncoder_encode utf8 "# Task B")
                (KanbnDocument.set_documentData (@TextEncoder_encode utf8 "# Task B")
                   sample_document))).
Proof.
  apply (consecutive_edits_meet "Update task content" "Save task" sample_edit sample_edit
           sample_document
           (KanbnDocument.set_documentData (@TextEncoder_encode utf8 "# Task B")
              sample_document)
           (KanbnDocument.set_documentData (@TextEncoder_encode utf8 "# Task B")
              (KanbnDocument.set_documentData (@TextEncoder_encode utf8 "# Task B")
                 sample_document))
           []); reflexivity.
Defined.


Lemma openTask_fails_on_an_unknown_column_witness :
  Extension.tasksByColumns stale_index (λ taskId : string, Some taskId) = None.
Proof.
  apply (openTask_fails_on_an_unknown_column stale_index (λ taskId, Some taskId) "Doing").
  - left. simpl. apply list_elem_of_here.
  - reflexivity.
Defined.
